(** * Claude Code Usage: log ingestion, pricing and aggregation

    A shallow embedding of the data-processing core of the extension:
    the pricing resolver ([services/pricing.ts]) and the log parser
    ([services/logParser.ts]) over the types of [types/usage.ts].

    Conventions of the embedding.
    - A JavaScript string is a [string] of 8-bit code units: the names,
      ids and timestamps of the logs are ASCII.  [toLowerCase] folds the
      ASCII letters, which are the only ones the matched patterns
      contain.
    - [localeCompare] is the collation of the host: it is a parameter
      ([Collator]) of everything that sorts with it, and the properties
      of the resulting order assume only what every collation has
      ([CollatorLaws]).  The operators [<] and [>] on strings compare by
      code units.
    - Token counts are integers ([Z]).  Money amounts (the [number]s that
      hold prices and costs) are exact rationals ([Q]), compared with
      [==]: they are the exact values of the expressions that the program
      evaluates in IEEE doubles.  [Binary64] has the cost of a usage as
      the program rounds it.
    - A record of a log is a [JsonlEntry.t]: it has the fields of the
      interface of that name in [types/usage.ts], with a [timestamp]
      string.
    - [a ?? b] is [default b a] on an [option]; the truthiness test on an
      optional string ([x && ...], [!x]) is [truthy].
    - [Set<string>] used for membership only is a [gset string]; a [Map]
      or [Set] whose iteration order is observable is an insertion-ordered
      list. *)

From Stdlib Require Import PrimFloat.
From Stdlib Require Import Ascii String QArith Sorting.Sorted Permutation.
From Stdlib Require OrdersEx.
From Stdlib Require Import Lqa.
From stdpp Require Import gmap strings list.

#[local] Set Warnings "-clear-no-such-hyp".
#[local] Set Warnings "-inexact-float".

Local Open Scope string_scope.
Local Open Scope list_scope.
Local Open Scope stdpp_scope.
Local Open Scope Z_scope.

(** ** JavaScript string primitives *)

Module JsString.

(** One code unit of [String.prototype.toLowerCase]. *)
Definition lowerAscii (c : ascii) : ascii :=
  let n := N_of_ascii c in
  if ((65 <=? n) && (n <=? 90))%N then ascii_of_N (n + 32) else c.

Fixpoint toLowerCase (s : string) : string :=
  match s with
  | EmptyString => EmptyString
  | String c rest => String (lowerAscii c) (toLowerCase rest)
  end.

(** [s.includes(pat)]: [pat] occurs in [s] at some offset. *)
Fixpoint includes (s pat : string) : bool :=
  String.prefix pat s ||
  match s with
  | EmptyString => false
  | String _ rest => includes rest pat
  end.

(** [s.endsWith(suffix)]. *)
Definition endsWith (s suffix : string) : bool :=
  let n := String.length s in
  let k := String.length suffix in
  (k <=? n)%nat && String.eqb (String.substring (n - k) k s) suffix.

(** [x] before the first occurrence of the separator [sep], the whole
    of [x] when there is none: [x.split(sep)[0]] for a one-character
    separator. *)
Fixpoint splitHead (sep : ascii) (x : string) : string :=
  match x with
  | EmptyString => EmptyString
  | String c rest =>
      if Ascii.eqb c sep then EmptyString else String c (splitHead sep rest)
  end.

(** [x.split(sep)] for a one-character separator: the pieces between
    the separators, empty pieces included. *)
Fixpoint split (sep : ascii) (x : string) : list string :=
  match x with
  | EmptyString => [EmptyString]
  | String c rest =>
      if Ascii.eqb c sep then EmptyString :: split sep rest
      else match split sep rest with
           | [] => [String c EmptyString]
           | piece :: pieces => String c piece :: pieces
           end
  end.

(** Truthiness of a string: the empty string is falsy. *)
Definition nonEmpty (s : string) : bool := negb (String.eqb s "").

(** Truthiness of an optional string: [undefined], [null] and the empty
    string are falsy. *)
Definition truthy (o : option string) : bool :=
  match o with
  | Some s => nonEmpty s
  | None => false
  end.

(** Comparison of strings by code units, the order of the [<] and [>]
    operators. *)
Definition ltb (a b : string) : bool :=
  match String.compare a b with Lt => true | _ => false end.

(** The order of the [<] and [>] operators: [a] is not after [b], and
    [a] is before [b], by code units. *)
Definition strLe (a b : string) : Prop := String.compare a b <> Gt.
Definition strLt (a b : string) : Prop := String.compare a b = Lt.

(** [a.localeCompare(b)]: the sign of the comparison of [a] with [b] in
    the collation of the host's default locale.  The collation is not
    part of the program: it is a parameter of the embedding. *)
Class Collator := { localeCompare : string -> string -> comparison }.

(** The order that [localeCompare] decides: [a] does not sort after
    [b]. *)
Definition collLe {collator : Collator} (a b : string) : Prop :=
  localeCompare a b <> Gt.

(** What every collation gives its comparison: exchanging the arguments
    exchanges the sign, and the order is transitive. *)
Class CollatorLaws (collator : Collator) : Prop := {
  localeCompare_flip (a b : string) :
    localeCompare a b = CompOpp (localeCompare b a);
  collLe_trans (a b c : string) : collLe a b -> collLe b c -> collLe a c
}.

End JsString.

(** [Array.prototype.sort(comparefn)]: a stable sort.  [after a b] says
    that [comparefn(a, b) > 0], so [a] has to come after [b]. *)
Module JsArray.

Section Sort.
Context {A : Type}.
Variable after : A -> A -> bool.

Fixpoint insert (x : A) (l : list A) : list A :=
  match l with
  | [] => [x]
  | y :: rest => if after x y then y :: insert x rest else x :: y :: rest
  end.

Definition sort (l : list A) : list A := foldr insert [] l.
End Sort.

End JsArray.

(** ** Pricing ([services/pricing.ts]) *)

Module Pricing.

Record ModelPricing := {
  input : Q;
  output : Q;
  cacheWrite : Q;
  cacheRead : Q
}.

(** The keys of the [PRICING] table. *)
Inductive Tier :=
| opus_4_5 | opus_4_1 | opus_4 | opus_3
| sonnet_4_5 | sonnet_4 | sonnet_3_7 | sonnet_3_5
| haiku_4_5 | haiku_3_5 | haiku_3.

Definition tierKey (t : Tier) : string :=
  match t with
  | opus_4_5 => "opus-4.5" | opus_4_1 => "opus-4.1"
  | opus_4 => "opus-4" | opus_3 => "opus-3"
  | sonnet_4_5 => "sonnet-4.5" | sonnet_4 => "sonnet-4"
  | sonnet_3_7 => "sonnet-3.7" | sonnet_3_5 => "sonnet-3.5"
  | haiku_4_5 => "haiku-4.5" | haiku_3_5 => "haiku-3.5"
  | haiku_3 => "haiku-3"
  end.

(** Pricing per million tokens. *)
Definition PRICING (t : Tier) : ModelPricing :=
  match t with
  | opus_4_5 =>
      {| input := 5.0; output := 25.0; cacheWrite := 6.25; cacheRead := 0.50 |}
  | opus_4_1 | opus_4 | opus_3 =>
      {| input := 15.0; output := 75.0; cacheWrite := 18.75; cacheRead := 1.50 |}
  | sonnet_4_5 | sonnet_4 | sonnet_3_7 | sonnet_3_5 =>
      {| input := 3.0; output := 15.0; cacheWrite := 3.75; cacheRead := 0.30 |}
  | haiku_4_5 =>
      {| input := 1.0; output := 5.0; cacheWrite := 1.25; cacheRead := 0.10 |}
  | haiku_3_5 =>
      {| input := 0.80; output := 4.0; cacheWrite := 1.0; cacheRead := 0.08 |}
  | haiku_3 =>
      {| input := 0.25; output := 1.25; cacheWrite := 0.30; cacheRead := 0.03 |}
  end%Q.

Import JsString.

(** The chain of tests of [getModelPricing], giving the key of the table
    entry that is returned. *)
Definition getModelTier (model : string) : option Tier :=
  let modelLower := toLowerCase model in
  if includes modelLower "opus-4-5" || includes modelLower "opus-4.5" ||
     includes modelLower "claude-opus-4-5" || includes modelLower "claude-opus-4.5"
  then Some opus_4_5
  else if includes modelLower "opus-4-1" || includes modelLower "opus-4.1" ||
     includes modelLower "claude-opus-4-1" || includes modelLower "claude-opus-4.1"
  then Some opus_4_1
  else if includes modelLower "opus-4" || includes modelLower "claude-opus-4"
  then Some opus_4
  else if includes modelLower "opus-3" || includes modelLower "claude-3-opus"
  then Some opus_3
  else if includes modelLower "sonnet-4-5" || includes modelLower "sonnet-4.5" ||
     includes modelLower "claude-sonnet-4-5" || includes modelLower "claude-sonnet-4.5"
  then Some sonnet_4_5
  else if includes modelLower "sonnet-4" || includes modelLower "claude-sonnet-4"
  then Some sonnet_4
  else if includes modelLower "sonnet-3-7" || includes modelLower "sonnet-3.7" ||
     includes modelLower "claude-3-7-sonnet" || includes modelLower "claude-3.7-sonnet"
  then Some sonnet_3_7
  else if includes modelLower "sonnet-3-5" || includes modelLower "sonnet-3.5" ||
     includes modelLower "claude-3-5-sonnet" || includes modelLower "claude-3.5-sonnet"
  then Some sonnet_3_5
  else if includes modelLower "haiku-4-5" || includes modelLower "haiku-4.5" ||
     includes modelLower "claude-haiku-4-5" || includes modelLower "claude-haiku-4.5"
  then Some haiku_4_5
  else if includes modelLower "haiku-3-5" || includes modelLower "haiku-3.5" ||
     includes modelLower "claude-3-5-haiku" || includes modelLower "claude-3.5-haiku"
  then Some haiku_3_5
  else if includes modelLower "haiku-3" || includes modelLower "claude-3-haiku"
  then Some haiku_3
  else None.

Definition getModelPricing (model : string) : option ModelPricing :=
  PRICING <$> getModelTier model.

Definition calculateCost (model : string)
    (inputTokens outputTokens cacheCreationTokens cacheReadTokens : Z) : Q :=
  match getModelPricing model with
  | None => 0
  | Some pricing =>
      let inputCost := inject_Z inputTokens * input pricing / 1000000 in
      let outputCost := inject_Z outputTokens * output pricing / 1000000 in
      let cacheWriteCost :=
        inject_Z cacheCreationTokens * cacheWrite pricing / 1000000 in
      let cacheReadCost :=
        inject_Z cacheReadTokens * cacheRead pricing / 1000000 in
      inputCost + outputCost + cacheWriteCost + cacheReadCost
  end%Q.

Definition getModelDisplayName (model : string) : string :=
  let modelLower := toLowerCase model in
  if includes modelLower "opus-4-5" || includes modelLower "opus-4.5"
  then "Claude Opus 4.5"
  else if includes modelLower "opus-4-1" || includes modelLower "opus-4.1"
  then "Claude Opus 4.1"
  else if includes modelLower "opus-4"
  then "Claude Opus 4"
  else if includes modelLower "opus-3" || includes modelLower "claude-3-opus"
  then "Claude Opus 3"
  else if includes modelLower "sonnet-4-5" || includes modelLower "sonnet-4.5"
  then "Claude Sonnet 4.5"
  else if includes modelLower "sonnet-4"
  then "Claude Sonnet 4"
  else if includes modelLower "sonnet-3-7" || includes modelLower "sonnet-3.7"
  then "Claude Sonnet 3.7"
  else if includes modelLower "sonnet-3-5" || includes modelLower "sonnet-3.5"
  then "Claude Sonnet 3.5"
  else if includes modelLower "haiku-4-5" || includes modelLower "haiku-4.5"
  then "Claude Haiku 4.5"
  else if includes modelLower "haiku-3-5" || includes modelLower "haiku-3.5"
  then "Claude Haiku 3.5"
  else if includes modelLower "haiku-3"
  then "Claude Haiku 3"
  else model.

(** The label [getModelDisplayName] gives to the models of a tier. *)
Definition tierLabel (t : Tier) : string :=
  match t with
  | opus_4_5 => "Claude Opus 4.5" | opus_4_1 => "Claude Opus 4.1"
  | opus_4 => "Claude Opus 4" | opus_3 => "Claude Opus 3"
  | sonnet_4_5 => "Claude Sonnet 4.5" | sonnet_4 => "Claude Sonnet 4"
  | sonnet_3_7 => "Claude Sonnet 3.7" | sonnet_3_5 => "Claude Sonnet 3.5"
  | haiku_4_5 => "Claude Haiku 4.5" | haiku_3_5 => "Claude Haiku 3.5"
  | haiku_3 => "Claude Haiku 3"
  end.

End Pricing.

(** ** The cost in doubles

    The [number]s of the program are IEEE 754 doubles: the prices are the
    doubles that the literals of the table denote, and every product,
    quotient and sum of [calculateCost] is rounded to the nearest
    double.  [Pricing.calculateCost] gives the exact value of the
    expression; here is the double that the program returns. *)

Module Binary64.

Local Open Scope float_scope.

Record ModelPricing := {
  input : float;
  output : float;
  cacheWrite : float;
  cacheRead : float
}.

(** Pricing per million tokens. *)
Definition PRICING (t : Pricing.Tier) : ModelPricing :=
  match t with
  | Pricing.opus_4_5 =>
      {| input := 5.0; output := 25.0; cacheWrite := 6.25; cacheRead := 0.50 |}
  | Pricing.opus_4_1 | Pricing.opus_4 | Pricing.opus_3 =>
      {| input := 15.0; output := 75.0; cacheWrite := 18.75; cacheRead := 1.50 |}
  | Pricing.sonnet_4_5 | Pricing.sonnet_4 | Pricing.sonnet_3_7
  | Pricing.sonnet_3_5 =>
      {| input := 3.0; output := 15.0; cacheWrite := 3.75; cacheRead := 0.30 |}
  | Pricing.haiku_4_5 =>
      {| input := 1.0; output := 5.0; cacheWrite := 1.25; cacheRead := 0.10 |}
  | Pricing.haiku_3_5 =>
      {| input := 0.80; output := 4.0; cacheWrite := 1.0; cacheRead := 0.08 |}
  | Pricing.haiku_3 =>
      {| input := 0.25; output := 1.25; cacheWrite := 0.30; cacheRead := 0.03 |}
  end.

Definition getModelPricing (model : string) : option ModelPricing :=
  PRICING <$> Pricing.getModelTier model.

Definition calculateCost (model : string)
    (inputTokens outputTokens cacheCreationTokens cacheReadTokens : float)
    : float :=
  match getModelPricing model with
  | None => 0
  | Some pricing =>
      let inputCost := inputTokens * input pricing / 1000000 in
      let outputCost := outputTokens * output pricing / 1000000 in
      let cacheWriteCost := cacheCreationTokens * cacheWrite pricing / 1000000 in
      let cacheReadCost := cacheReadTokens * cacheRead pricing / 1000000 in
      inputCost + outputCost + cacheWriteCost + cacheReadCost
  end.

(** The double of a positive integer, exact below 2^53. *)
Fixpoint ofPos (p : positive) : float :=
  match p with
  | xH => 1
  | xO p' => 2 * ofPos p'
  | xI p' => 2 * ofPos p' + 1
  end.

(** The double of an integer token count. *)
Definition ofZ (n : Z) : float :=
  match n with
  | Z0 => 0
  | Zpos p => ofPos p
  | Zneg p => - ofPos p
  end.

(** The double nearest to a rational whose numerator and denominator in
    lowest terms are below 2^53: the division of two doubles is rounded
    to the nearest double. *)
Definition ofQ (q : Q) : float :=
  let r := Qred q in ofZ (Qnum r) / ofPos (Qden r).

End Binary64.

(** ** Types ([types/usage.ts])

    One module per interface, so that the fields keep their names. *)

Module UsageEntry.
Record t := {
  timestamp : string;
  model : string;
  inputTokens : Z;
  outputTokens : Z;
  cacheCreationTokens : Z;
  cacheReadTokens : Z;
  cost : Q;
  sessionId : string;
  projectPath : string
}.
End UsageEntry.

Module ModelUsage.
Record t := {
  model : string;
  totalCost : Q;
  totalTokens : Z;
  inputTokens : Z;
  outputTokens : Z;
  cacheCreationTokens : Z;
  cacheReadTokens : Z;
  sessionCount : nat
}.
End ModelUsage.

Module DailyUsage.
Record t := {
  date : string;
  totalCost : Q;
  totalTokens : Z;
  modelsUsed : list string
}.
End DailyUsage.

Module ProjectUsage.
Record t := {
  projectPath : string;
  projectName : string;
  totalCost : Q;
  totalTokens : Z;
  sessionCount : nat;
  lastUsed : string
}.
End ProjectUsage.

Module SessionUsage.
Record t := {
  sessionId : string;
  projectPath : string;
  projectName : string;
  totalCost : Q;
  totalTokens : Z;
  inputTokens : Z;
  outputTokens : Z;
  cacheCreationTokens : Z;
  cacheReadTokens : Z;
  startTime : string;
  endTime : string;
  modelsUsed : list string
}.
End SessionUsage.

Module UsageStats.
Record t := {
  totalCost : Q;
  totalTokens : Z;
  totalInputTokens : Z;
  totalOutputTokens : Z;
  totalCacheCreationTokens : Z;
  totalCacheReadTokens : Z;
  totalSessions : nat;
  byModel : list ModelUsage.t;
  byDate : list DailyUsage.t;
  byProject : list ProjectUsage.t
}.
End UsageStats.

(** Raw JSONL entry structure from the logs: the records that have the
    type [JsonlEntry], whose [timestamp] is a string and whose other
    fields are optional.  A line that parses to something else is
    outside the embedding. *)
Module JsonlEntry.
Record usage_t := {
  input_tokens : option Z;
  output_tokens : option Z;
  cache_creation_input_tokens : option Z;
  cache_read_input_tokens : option Z
}.
Record message_t := {
  id : option string;
  model : option string;
  usage : option usage_t
}.
Record t := {
  timestamp : string;
  message : option message_t;
  sessionId : option string;
  requestId : option string;
  costUSD : option Q;
  cwd : option string
}.
End JsonlEntry.

Inductive TimeRange := Range7d | Range30d | RangeAll.

(** ** The files under the projects directory

    A line of a log file is [Some entry] when [JSON.parse] gives a
    record, and [None] when the line is blank or is skipped by the
    [catch] around its processing.  The content of a file is [None] when
    reading it throws.  A discovered [.jsonl] file is represented by what
    the parser takes from its path: the name of the directory that holds
    it ([path.basename(path.dirname(filePath))]) and the lines read. *)

Definition Line := option JsonlEntry.t.

#[local] Unset Elimination Schemes.
Inductive Dirent :=
| FileEnt (name : string) (content : option (list Line))
| DirEnt (name : string) (children : list Dirent)
| OtherEnt (name : string).
#[local] Set Elimination Schemes.

Record LogFile := {
  dirName : string;
  content : option (list Line)
}.

(** ** Insertion-ordered maps and sets

    [Map<string, V>] and [Set<string>] iterate in insertion order. *)

Module JsMap.
Section Ops.
Context {V : Type}.

Fixpoint get (m : list (string * V)) (k : string) : option V :=
  match m with
  | [] => None
  | (k', v) :: rest => if String.eqb k' k then Some v else get rest k
  end.

Definition has (m : list (string * V)) (k : string) : bool :=
  match get m k with Some _ => true | None => false end.

(** [m.set(k, v)]: in place for a key of the map, at the end for a
    new one. *)
Fixpoint set (m : list (string * V)) (k : string) (v : V) : list (string * V) :=
  match m with
  | [] => [(k, v)]
  | (k', v') :: rest =>
      if String.eqb k' k then (k', v) :: rest else (k', v') :: set rest k v
  end.

(** The mutation of the object stored under [k]. *)
Definition update (m : list (string * V)) (k : string) (f : V -> V) : list (string * V) :=
  match get m k with
  | Some v => set m k (f v)
  | None => m
  end.

Definition keys (m : list (string * V)) : list string := fst <$> m.
Definition values (m : list (string * V)) : list V := snd <$> m.
End Ops.
End JsMap.

Module JsSet.
(** [s.add(x)] on a set whose elements are listed in insertion order. *)
Definition add (s : list string) (x : string) : list string :=
  if existsb (String.eqb x) s then s else s ++ [x].
End JsSet.

(** ** The log parser ([services/logParser.ts]) *)

Module LogParser.

Import JsString.

(** What one entry of the listing of the directory named [dir] adds to
    [files] in the loop of [findJsonlFiles]; for a subdirectory, the
    result of the recursive call on it. *)
Fixpoint findInDirent (dir : string) (entry : Dirent) : list LogFile :=
  match entry with
  | DirEnt name children =>
      (fix loop (entries : list Dirent) : list LogFile :=
         match entries with
         | [] => []
         | child :: rest => findInDirent name child ++ loop rest
         end) children
  | FileEnt name text =>
      if endsWith name ".jsonl" then [{| dirName := dir; content := text |}] else []
  | OtherEnt _ => []
  end.

(** Recursively find all [.jsonl] files in the directory named [dir]
    whose listing is [entries]. *)
Definition findJsonlFiles (dir : string) (entries : list Dirent) : list LogFile :=
  flat_map (findInDirent dir) entries.

(** The loop of [getFirstTimestamp] over the first ten lines. *)
Fixpoint firstTimestampIn (lines : list Line) : option string :=
  match lines with
  | [] => None
  | None :: rest => firstTimestampIn rest
  | Some entry :: rest =>
      if nonEmpty (JsonlEntry.timestamp entry)
      then Some (JsonlEntry.timestamp entry)
      else firstTimestampIn rest
  end.

(** Extract the first timestamp from a JSONL file for sorting. *)
Definition getFirstTimestamp (file : LogFile) : option string :=
  match content file with
  | None => None
  | Some lines => firstTimestampIn (take 10 lines)
  end.

(** The variables of [parseJsonlFile] that live across the lines. *)
Record ParseState := {
  actualProjectPath : option string;
  processedHashes : gset string
}.

(** The key of the deduplication, when the record has one. *)
Definition dedupHash (entry : JsonlEntry.t) (msg : JsonlEntry.message_t) : option string :=
  if truthy (JsonlEntry.id msg) && truthy (JsonlEntry.requestId entry)
  then Some (default "" (JsonlEntry.id msg) +:+ ":" +:+
             default "" (JsonlEntry.requestId entry))
  else None.

(** What remains of the loop body once a record has passed the
    deduplication: the zero-usage check and the construction of the
    entry. *)
Definition buildEntry (sessionId encodedProjectName : string)
    (actualProjectPath : option string)
    (entry : JsonlEntry.t) (msg : JsonlEntry.message_t)
    (usage : JsonlEntry.usage_t) : option UsageEntry.t :=
  let inputTokens := default 0 (JsonlEntry.input_tokens usage) in
  let outputTokens := default 0 (JsonlEntry.output_tokens usage) in
  let cacheCreationTokens := default 0 (JsonlEntry.cache_creation_input_tokens usage) in
  let cacheReadTokens := default 0 (JsonlEntry.cache_read_input_tokens usage) in
  if (inputTokens =? 0) && (outputTokens =? 0) &&
     (cacheCreationTokens =? 0) && (cacheReadTokens =? 0)
  then None
  else
    let model := default "unknown" (JsonlEntry.model msg) in
    let cost :=
      match JsonlEntry.costUSD entry with
      | Some c => c
      | None => Pricing.calculateCost model inputTokens outputTokens
                  cacheCreationTokens cacheReadTokens
      end in
    Some {| UsageEntry.timestamp := JsonlEntry.timestamp entry;
            UsageEntry.model := model;
            UsageEntry.inputTokens := inputTokens;
            UsageEntry.outputTokens := outputTokens;
            UsageEntry.cacheCreationTokens := cacheCreationTokens;
            UsageEntry.cacheReadTokens := cacheReadTokens;
            UsageEntry.cost := cost;
            UsageEntry.sessionId := default sessionId (JsonlEntry.sessionId entry);
            UsageEntry.projectPath := default encodedProjectName actualProjectPath |}.

(** One iteration of the loop of [parseJsonlFile]: the state after the
    line, and the entry pushed, if any. *)
Definition processLine (sessionId encodedProjectName : string)
    (st : ParseState) (line : Line) : ParseState * option UsageEntry.t :=
  match line with
  | None => (st, None)
  | Some entry =>
      let path :=
        if negb (truthy (actualProjectPath st)) && truthy (JsonlEntry.cwd entry)
        then JsonlEntry.cwd entry
        else actualProjectPath st in
      let hashes := processedHashes st in
      let skip := ({| actualProjectPath := path; processedHashes := hashes |}, None) in
      match JsonlEntry.message entry with
      | None => skip
      | Some msg =>
          match JsonlEntry.usage msg with
          | None => skip
          | Some usage =>
              match dedupHash entry msg with
              | Some hash =>
                  if bool_decide (hash ∈ hashes) then skip
                  else
                    ({| actualProjectPath := path;
                        processedHashes := hashes ∪ {[ hash ]} |},
                     buildEntry sessionId encodedProjectName path entry msg usage)
              | None =>
                  ({| actualProjectPath := path; processedHashes := hashes |},
                   buildEntry sessionId encodedProjectName path entry msg usage)
              end
          end
      end
  end.

(** The loop over the lines, accumulating [entries]. *)
Fixpoint parseLines (sessionId encodedProjectName : string)
    (lines : list Line) (st : ParseState) (entries : list UsageEntry.t)
    : list UsageEntry.t * ParseState :=
  match lines with
  | [] => (entries, st)
  | line :: rest =>
      let '(st', pushed) := processLine sessionId encodedProjectName st line in
      parseLines sessionId encodedProjectName rest st'
        (match pushed with Some e => entries ++ [e] | None => entries end)
  end.

(** Parse a single JSONL file and extract usage entries; the second
    component is the shared set of hashes after the call. *)
Definition parseJsonlFile (file : LogFile) (encodedProjectName : string)
    (processedHashes : gset string) : list UsageEntry.t * gset string :=
  match content file with
  | None => ([], processedHashes)
  | Some lines =>
      let sessionId := dirName file in
      let '(entries, st) :=
        parseLines sessionId encodedProjectName lines
          {| actualProjectPath := None; processedHashes := processedHashes |} [] in
      (entries, LogParser.processedHashes st)
  end.

(** The files of every project folder, with the folder's name. *)
Fixpoint collectFiles (projectFolders : list Dirent) : list (LogFile * string) :=
  match projectFolders with
  | [] => []
  | DirEnt name children :: rest =>
      ((fun file => (file, name)) <$> findJsonlFiles name children) ++
      collectFiles rest
  | _ :: rest => collectFiles rest
  end.

(** The comparison function of the sort of [filesToProcess]. *)
Definition fileAfter {collator : Collator} (a b : LogFile * string) : bool :=
  let tsA := default "" (getFirstTimestamp (fst a)) in
  let tsB := default "" (getFirstTimestamp (fst b)) in
  match localeCompare tsA tsB with Gt => true | _ => false end.

(** The loop that parses all files, sharing [processedHashes]. *)
Fixpoint parseFiles (files : list (LogFile * string))
    (allEntries : list UsageEntry.t) (processedHashes : gset string)
    : list UsageEntry.t * gset string :=
  match files with
  | [] => (allEntries, processedHashes)
  | (file, projectName) :: rest =>
      let '(entries, hashes) := parseJsonlFile file projectName processedHashes in
      parseFiles rest (allEntries ++ entries) hashes
  end.

Definition entryAfter {collator : Collator} (a b : UsageEntry.t) : bool :=
  match localeCompare (UsageEntry.timestamp a) (UsageEntry.timestamp b) with
  | Gt => true
  | _ => false
  end.

(** Get all usage entries from the logs.  [projectsDir] is the listing
    of the projects directory, [None] when it does not exist. *)
Definition getAllUsageEntries {collator : Collator}
    (projectsDir : option (list Dirent)) : list UsageEntry.t :=
  match projectsDir with
  | None => []
  | Some projectFolders =>
      let filesToProcess := JsArray.sort fileAfter (collectFiles projectFolders) in
      let allEntries := fst (parseFiles filesToProcess [] ∅) in
      JsArray.sort entryAfter allEntries
  end.

(** *** Time range filter *)

Section TimeRangeFilter.
(** [new Date(s).getTime()]: the time value in milliseconds, [None]
    for an invalid date. *)
Variable parseDate : string -> option Z.

(** The time value of [new Date(t)]: outside the range of dates the
    result is an invalid date. *)
Definition timeClip (t : Z) : option Z :=
  if Z.abs t <=? 8640000000000000 then Some t else None.

(** [a >= b] on two dates: false as soon as one is invalid. *)
Definition dateGe (a b : option Z) : bool :=
  match a, b with
  | Some x, Some y => y <=? x
  | _, _ => false
  end.

(** Filter entries by time range; [now] is the time value of
    [new Date()]. *)
Definition filterByTimeRange (now : Z) (entries : list UsageEntry.t)
    (range : TimeRange) : list UsageEntry.t :=
  match range with
  | RangeAll => entries
  | _ =>
      let days := match range with Range7d => 7 | _ => 30 end in
      let cutoff := timeClip (now - days * 24 * 60 * 60 * 1000) in
      List.filter
        (fun entry => dateGe (parseDate (UsageEntry.timestamp entry)) cutoff)
        entries
  end.
End TimeRangeFilter.

(** *** Aggregation *)

(** Extract project name from path. *)
Definition getProjectName (projectPath : string) : string :=
  let parts := List.filter nonEmpty (split "/" projectPath) in
  match last parts with
  | Some name => if nonEmpty name then name else projectPath
  | None => projectPath
  end.

(** The sum of the four token counts of an entry, as the loops write it. *)
Definition entryTokens (entry : UsageEntry.t) : Z :=
  UsageEntry.inputTokens entry + UsageEntry.outputTokens entry +
  UsageEntry.cacheCreationTokens entry + UsageEntry.cacheReadTokens entry.

Module DateStats.
Record t := { cost : Q; tokens : Z; models : list string }.
End DateStats.

Module ProjectStats.
Record t := {
  cost : Q;
  tokens : Z;
  sessions : gset string;
  lastUsed : string;
  projectName : string
}.
End ProjectStats.

(** The variables of the first loop of [aggregateStats]. *)
Module Acc.
Record t := {
  totalCost : Q;
  totalInputTokens : Z;
  totalOutputTokens : Z;
  totalCacheCreationTokens : Z;
  totalCacheReadTokens : Z;
  sessions : gset string;
  modelMap : list (string * ModelUsage.t);
  dateMap : list (string * DateStats.t);
  projectMap : list (string * ProjectStats.t)
}.

Definition init : t :=
  {| totalCost := 0; totalInputTokens := 0; totalOutputTokens := 0;
     totalCacheCreationTokens := 0; totalCacheReadTokens := 0;
     sessions := ∅; modelMap := []; dateMap := []; projectMap := [] |}.
End Acc.

Definition addToModel (entry : UsageEntry.t) (modelStats : ModelUsage.t) : ModelUsage.t :=
  {| ModelUsage.model := ModelUsage.model modelStats;
     ModelUsage.totalCost := (ModelUsage.totalCost modelStats + UsageEntry.cost entry)%Q;
     ModelUsage.totalTokens := ModelUsage.totalTokens modelStats + entryTokens entry;
     ModelUsage.inputTokens :=
       ModelUsage.inputTokens modelStats + UsageEntry.inputTokens entry;
     ModelUsage.outputTokens :=
       ModelUsage.outputTokens modelStats + UsageEntry.outputTokens entry;
     ModelUsage.cacheCreationTokens :=
       ModelUsage.cacheCreationTokens modelStats + UsageEntry.cacheCreationTokens entry;
     ModelUsage.cacheReadTokens :=
       ModelUsage.cacheReadTokens modelStats + UsageEntry.cacheReadTokens entry;
     ModelUsage.sessionCount := ModelUsage.sessionCount modelStats |}.

Definition addToDate (entry : UsageEntry.t) (dateStats : DateStats.t) : DateStats.t :=
  {| DateStats.cost := (DateStats.cost dateStats + UsageEntry.cost entry)%Q;
     DateStats.tokens := DateStats.tokens dateStats + entryTokens entry;
     DateStats.models := JsSet.add (DateStats.models dateStats) (UsageEntry.model entry) |}.

Definition addToProject (entry : UsageEntry.t) (projectStats : ProjectStats.t)
    : ProjectStats.t :=
  {| ProjectStats.cost := (ProjectStats.cost projectStats + UsageEntry.cost entry)%Q;
     ProjectStats.tokens := ProjectStats.tokens projectStats + entryTokens entry;
     ProjectStats.sessions :=
       ProjectStats.sessions projectStats ∪ {[ UsageEntry.sessionId entry ]};
     ProjectStats.lastUsed :=
       if ltb (ProjectStats.lastUsed projectStats) (UsageEntry.timestamp entry)
       then UsageEntry.timestamp entry
       else ProjectStats.lastUsed projectStats;
     ProjectStats.projectName := ProjectStats.projectName projectStats |}.

(** One iteration of the first loop of [aggregateStats]. *)
Definition aggregateStep (acc : Acc.t) (entry : UsageEntry.t) : Acc.t :=
  let model := UsageEntry.model entry in
  let modelMap :=
    if JsMap.has (Acc.modelMap acc) model then Acc.modelMap acc
    else JsMap.set (Acc.modelMap acc) model
           {| ModelUsage.model := model; ModelUsage.totalCost := 0;
              ModelUsage.totalTokens := 0; ModelUsage.inputTokens := 0;
              ModelUsage.outputTokens := 0; ModelUsage.cacheCreationTokens := 0;
              ModelUsage.cacheReadTokens := 0; ModelUsage.sessionCount := 0 |} in
  let date := splitHead "T" (UsageEntry.timestamp entry) in
  let dateMap :=
    if JsMap.has (Acc.dateMap acc) date then Acc.dateMap acc
    else JsMap.set (Acc.dateMap acc) date
           {| DateStats.cost := 0; DateStats.tokens := 0; DateStats.models := [] |} in
  let projectPath := UsageEntry.projectPath entry in
  let projectMap :=
    if JsMap.has (Acc.projectMap acc) projectPath then Acc.projectMap acc
    else JsMap.set (Acc.projectMap acc) projectPath
           {| ProjectStats.cost := 0; ProjectStats.tokens := 0;
              ProjectStats.sessions := ∅;
              ProjectStats.lastUsed := UsageEntry.timestamp entry;
              ProjectStats.projectName := getProjectName projectPath |} in
  {| Acc.totalCost := (Acc.totalCost acc + UsageEntry.cost entry)%Q;
     Acc.totalInputTokens := Acc.totalInputTokens acc + UsageEntry.inputTokens entry;
     Acc.totalOutputTokens := Acc.totalOutputTokens acc + UsageEntry.outputTokens entry;
     Acc.totalCacheCreationTokens :=
       Acc.totalCacheCreationTokens acc + UsageEntry.cacheCreationTokens entry;
     Acc.totalCacheReadTokens :=
       Acc.totalCacheReadTokens acc + UsageEntry.cacheReadTokens entry;
     Acc.sessions := Acc.sessions acc ∪ {[ UsageEntry.sessionId entry ]};
     Acc.modelMap := JsMap.update modelMap model (addToModel entry);
     Acc.dateMap := JsMap.update dateMap date (addToDate entry);
     Acc.projectMap := JsMap.update projectMap projectPath (addToProject entry) |}.

(** The second loop: the sessions of each model. *)
Definition modelSessionsStep (modelSessions : list (string * gset string))
    (entry : UsageEntry.t) : list (string * gset string) :=
  let model := UsageEntry.model entry in
  let modelSessions :=
    if JsMap.has modelSessions model then modelSessions
    else JsMap.set modelSessions model ∅ in
  JsMap.update modelSessions model (fun s => s ∪ {[ UsageEntry.sessionId entry ]}).

Definition setSessionCount (count : nat) (modelStats : ModelUsage.t) : ModelUsage.t :=
  {| ModelUsage.model := ModelUsage.model modelStats;
     ModelUsage.totalCost := ModelUsage.totalCost modelStats;
     ModelUsage.totalTokens := ModelUsage.totalTokens modelStats;
     ModelUsage.inputTokens := ModelUsage.inputTokens modelStats;
     ModelUsage.outputTokens := ModelUsage.outputTokens modelStats;
     ModelUsage.cacheCreationTokens := ModelUsage.cacheCreationTokens modelStats;
     ModelUsage.cacheReadTokens := ModelUsage.cacheReadTokens modelStats;
     ModelUsage.sessionCount := count |}.

(** The third loop: the session counts written into [modelMap]. *)
Definition countSessionsStep (modelMap : list (string * ModelUsage.t))
    (item : string * gset string) : list (string * ModelUsage.t) :=
  let '(model, sessionsSet) := item in
  JsMap.update modelMap model (setSessionCount (size sessionsSet)).

(** [b.totalCost - a.totalCost > 0] *)
Definition costAfter (a b : Q) : bool := negb (Qle_bool (b - a) 0).

Definition modelAfter (a b : ModelUsage.t) : bool :=
  costAfter (ModelUsage.totalCost a) (ModelUsage.totalCost b).

Definition dateAfter {collator : Collator} (a b : DailyUsage.t) : bool :=
  match localeCompare (DailyUsage.date a) (DailyUsage.date b) with
  | Gt => true
  | _ => false
  end.

Definition projectAfter (a b : ProjectUsage.t) : bool :=
  costAfter (ProjectUsage.totalCost a) (ProjectUsage.totalCost b).

Definition toDailyUsage (item : string * DateStats.t) : DailyUsage.t :=
  let '(date, stats) := item in
  {| DailyUsage.date := date;
     DailyUsage.totalCost := DateStats.cost stats;
     DailyUsage.totalTokens := DateStats.tokens stats;
     DailyUsage.modelsUsed := DateStats.models stats |}.

Definition toProjectUsage (item : string * ProjectStats.t) : ProjectUsage.t :=
  let '(projectPath, stats) := item in
  {| ProjectUsage.projectPath := projectPath;
     ProjectUsage.projectName := ProjectStats.projectName stats;
     ProjectUsage.totalCost := ProjectStats.cost stats;
     ProjectUsage.totalTokens := ProjectStats.tokens stats;
     ProjectUsage.sessionCount := size (ProjectStats.sessions stats);
     ProjectUsage.lastUsed := ProjectStats.lastUsed stats |}.

(** Aggregate entries into usage statistics. *)
Definition aggregateStats {collator : Collator} (entries : list UsageEntry.t)
    : UsageStats.t :=
  match entries with
  | [] =>
      {| UsageStats.totalCost := 0; UsageStats.totalTokens := 0;
         UsageStats.totalInputTokens := 0; UsageStats.totalOutputTokens := 0;
         UsageStats.totalCacheCreationTokens := 0;
         UsageStats.totalCacheReadTokens := 0; UsageStats.totalSessions := 0;
         UsageStats.byModel := []; UsageStats.byDate := [];
         UsageStats.byProject := [] |}
  | _ =>
      let acc := foldl aggregateStep Acc.init entries in
      let modelSessions := foldl modelSessionsStep [] entries in
      let modelMap := foldl countSessionsStep (Acc.modelMap acc) modelSessions in
      let byModel := JsArray.sort modelAfter (JsMap.values modelMap) in
      let byDate := JsArray.sort dateAfter (toDailyUsage <$> Acc.dateMap acc) in
      let byProject :=
        JsArray.sort projectAfter (toProjectUsage <$> Acc.projectMap acc) in
      {| UsageStats.totalCost := Acc.totalCost acc;
         UsageStats.totalTokens :=
           Acc.totalInputTokens acc + Acc.totalOutputTokens acc +
           Acc.totalCacheCreationTokens acc + Acc.totalCacheReadTokens acc;
         UsageStats.totalInputTokens := Acc.totalInputTokens acc;
         UsageStats.totalOutputTokens := Acc.totalOutputTokens acc;
         UsageStats.totalCacheCreationTokens := Acc.totalCacheCreationTokens acc;
         UsageStats.totalCacheReadTokens := Acc.totalCacheReadTokens acc;
         UsageStats.totalSessions := size (Acc.sessions acc);
         UsageStats.byModel := byModel;
         UsageStats.byDate := byDate;
         UsageStats.byProject := byProject |}
  end.

(** *** Session statistics *)

Module SessionData.
Record t := { projectPath : string; entries : list UsageEntry.t }.
End SessionData.

(** The first loop of [getSessionStats]: the entries of each session. *)
Definition sessionMapStep (sessionMap : list (string * SessionData.t))
    (entry : UsageEntry.t) : list (string * SessionData.t) :=
  let sessionId := UsageEntry.sessionId entry in
  let sessionMap :=
    if JsMap.has sessionMap sessionId then sessionMap
    else JsMap.set sessionMap sessionId
           {| SessionData.projectPath := UsageEntry.projectPath entry;
              SessionData.entries := [] |} in
  JsMap.update sessionMap sessionId
    (fun data =>
       {| SessionData.projectPath := SessionData.projectPath data;
          SessionData.entries := SessionData.entries data ++ [entry] |}).

(** The variables of the loop over the entries of one session. *)
Module SessionAcc.
Record t := {
  models : list string;
  totalCost : Q;
  inputTokens : Z;
  outputTokens : Z;
  cacheCreationTokens : Z;
  cacheReadTokens : Z;
  startTime : string;
  endTime : string
}.
End SessionAcc.

Definition sessionStep (acc : SessionAcc.t) (entry : UsageEntry.t) : SessionAcc.t :=
  {| SessionAcc.models := JsSet.add (SessionAcc.models acc) (UsageEntry.model entry);
     SessionAcc.totalCost := (SessionAcc.totalCost acc + UsageEntry.cost entry)%Q;
     SessionAcc.inputTokens := SessionAcc.inputTokens acc + UsageEntry.inputTokens entry;
     SessionAcc.outputTokens :=
       SessionAcc.outputTokens acc + UsageEntry.outputTokens entry;
     SessionAcc.cacheCreationTokens :=
       SessionAcc.cacheCreationTokens acc + UsageEntry.cacheCreationTokens entry;
     SessionAcc.cacheReadTokens :=
       SessionAcc.cacheReadTokens acc + UsageEntry.cacheReadTokens entry;
     SessionAcc.startTime :=
       if ltb (UsageEntry.timestamp entry) (SessionAcc.startTime acc)
       then UsageEntry.timestamp entry else SessionAcc.startTime acc;
     SessionAcc.endTime :=
       if ltb (SessionAcc.endTime acc) (UsageEntry.timestamp entry)
       then UsageEntry.timestamp entry else SessionAcc.endTime acc |}.

(** The body of the loop over [sessionMap].  [sessionEntries[0]] exists:
    a session enters the map together with its first entry; the empty
    string stands for it in the case that does not arise. *)
Definition toSessionUsage (item : string * SessionData.t) : SessionUsage.t :=
  let '(sessionId, data) := item in
  let sessionEntries := SessionData.entries data in
  let first :=
    match sessionEntries with
    | entry :: _ => UsageEntry.timestamp entry
    | [] => ""
    end in
  let acc :=
    foldl sessionStep
      {| SessionAcc.models := []; SessionAcc.totalCost := 0;
         SessionAcc.inputTokens := 0; SessionAcc.outputTokens := 0;
         SessionAcc.cacheCreationTokens := 0; SessionAcc.cacheReadTokens := 0;
         SessionAcc.startTime := first; SessionAcc.endTime := first |}
      sessionEntries in
  {| SessionUsage.sessionId := sessionId;
     SessionUsage.projectPath := SessionData.projectPath data;
     SessionUsage.projectName := getProjectName (SessionData.projectPath data);
     SessionUsage.totalCost := SessionAcc.totalCost acc;
     SessionUsage.totalTokens :=
       SessionAcc.inputTokens acc + SessionAcc.outputTokens acc +
       SessionAcc.cacheCreationTokens acc + SessionAcc.cacheReadTokens acc;
     SessionUsage.inputTokens := SessionAcc.inputTokens acc;
     SessionUsage.outputTokens := SessionAcc.outputTokens acc;
     SessionUsage.cacheCreationTokens := SessionAcc.cacheCreationTokens acc;
     SessionUsage.cacheReadTokens := SessionAcc.cacheReadTokens acc;
     SessionUsage.startTime := SessionAcc.startTime acc;
     SessionUsage.endTime := SessionAcc.endTime acc;
     SessionUsage.modelsUsed := SessionAcc.models acc |}.

(** [b.startTime.localeCompare(a.startTime) > 0] *)
Definition sessionAfter {collator : Collator} (a b : SessionUsage.t) : bool :=
  match localeCompare (SessionUsage.startTime b) (SessionUsage.startTime a) with
  | Gt => true
  | _ => false
  end.

(** Get session-level statistics. *)
Definition getSessionStats {collator : Collator} (entries : list UsageEntry.t)
    : list SessionUsage.t :=
  let sessionMap := foldl sessionMapStep [] entries in
  JsArray.sort sessionAfter (toSessionUsage <$> sessionMap).

End LogParser.

(** ** The run of the parser, record by record

    The iterations of the loops of [parseJsonlFile] and
    [getAllUsageEntries] in the order in which they happen: for each line,
    the set of hashes when the line is reached and the entry that the
    iteration pushes. *)

Module Run.
Import LogParser.

Record Step := {
  line : Line;
  hashesBefore : gset string;
  pushed : option UsageEntry.t
}.

Fixpoint lineSteps (sessionId encodedProjectName : string)
    (lines : list Line) (st : ParseState) : list Step * ParseState :=
  match lines with
  | [] => ([], st)
  | l :: rest =>
      let '(st', out) := processLine sessionId encodedProjectName st l in
      let '(steps, final) := lineSteps sessionId encodedProjectName rest st' in
      ({| line := l; hashesBefore := processedHashes st; pushed := out |} :: steps,
       final)
  end.

Definition fileSteps (file : LogFile) (encodedProjectName : string)
    (hashes : gset string) : list Step * gset string :=
  match content file with
  | None => ([], hashes)
  | Some lines =>
      let '(steps, st) :=
        lineSteps (dirName file) encodedProjectName lines
          {| actualProjectPath := None; processedHashes := hashes |} in
      (steps, processedHashes st)
  end.

Fixpoint corpusSteps (files : list (LogFile * string)) (hashes : gset string)
    : list Step :=
  match files with
  | [] => []
  | (file, projectName) :: rest =>
      let '(steps, hashes') := fileSteps file projectName hashes in
      steps ++ corpusSteps rest hashes'
  end.

(** The project path of the file after the iteration on a record. *)
Definition pathAfter (sessionId encodedProjectName : string) (st : ParseState)
    (entry : JsonlEntry.t) : option string :=
  actualProjectPath (fst (processLine sessionId encodedProjectName st (Some entry))).

(** The hash that the iteration on a line looks up: the line is a record
    with a usage block and both ids. *)
Definition lineHash (l : Line) : option string :=
  entry ← l;
  msg ← JsonlEntry.message entry;
  _ ← JsonlEntry.usage msg;
  dedupHash entry msg.

(** What the iteration on a line adds to the set of hashes. *)
Definition hashSet (l : Line) : gset string :=
  match lineHash l with
  | Some hash => {[ hash ]}
  | None => ∅
  end.

(** A step records an iteration of the loop of [parseJsonlFile]. *)
Definition stepOk (s : Step) : Prop :=
  exists sessionId encodedProjectName path,
    pushed s =
      snd (processLine sessionId encodedProjectName
             {| actualProjectPath := path; processedHashes := hashesBefore s |}
             (line s)).

(** Consecutive iterations from the set of hashes [hashes]. *)
Fixpoint chain (hashes : gset string) (steps : list Step) : Prop :=
  match steps with
  | [] => True
  | s :: rest =>
      hashesBefore s = hashes /\ stepOk s /\ chain (hashes ∪ hashSet (line s)) rest
  end.

Definition chainEnd (hashes : gset string) (steps : list Step) : gset string :=
  foldl (fun acc s => acc ∪ hashSet (line s)) hashes steps.

(** The entries of a run, in the order in which they are pushed. *)
Definition entriesOf (steps : list Step) : list UsageEntry.t :=
  omap pushed steps.

(** The files of a projects directory in the order in which
    [getAllUsageEntries] parses them. *)
Definition processingOrder {collator : JsString.Collator}
    (projectFolders : list Dirent)
    : list (LogFile * string) :=
  JsArray.sort fileAfter (collectFiles projectFolders).

End Run.

(** ** The words of the specification *)

Module Spec.

(** The sum of [entry.cost] over all entries. *)
Definition sumCost (entries : list UsageEntry.t) : Q :=
  foldr (fun entry total => (UsageEntry.cost entry + total)%Q) 0%Q entries.

(** The sum of the four token fields over all entries. *)
Definition sumTokens (entries : list UsageEntry.t) : Z :=
  foldr (fun entry total =>
           UsageEntry.inputTokens entry + UsageEntry.outputTokens entry +
           UsageEntry.cacheCreationTokens entry + UsageEntry.cacheReadTokens entry +
           total) 0 entries.

(** The cost of a quadruple of token counts at the rates of a tier. *)
Definition tierCost (tier : Pricing.ModelPricing)
    (inputTokens outputTokens cacheCreationTokens cacheReadTokens : Z) : Q :=
  ((inject_Z inputTokens * Pricing.input tier +
    inject_Z outputTokens * Pricing.output tier +
    inject_Z cacheCreationTokens * Pricing.cacheWrite tier +
    inject_Z cacheReadTokens * Pricing.cacheRead tier) / 1000000)%Q.

(** The same sum of products, divided once, computed in doubles. *)
Definition tierCost64 (tier : Binary64.ModelPricing)
    (inputTokens outputTokens cacheCreationTokens cacheReadTokens : float)
    : float :=
  ((inputTokens * Binary64.input tier +
    outputTokens * Binary64.output tier +
    cacheCreationTokens * Binary64.cacheWrite tier +
    cacheReadTokens * Binary64.cacheRead tier) / 1000000)%float.

(** The cost as the specification states it, on the doubles of the
    program: for a model that resolves to a tier and non-negative token
    counts, the double that [calculateCost] returns is the sum of the
    counts times the rates, divided by 1,000,000, whether this value is
    computed in doubles or computed exactly and then rounded. *)
Definition costIsFormula64 : Prop :=
  forall (model : string) (tier : Pricing.Tier) (i o cc cr : Z),
    Pricing.getModelTier model = Some tier ->
    0 <= i -> 0 <= o -> 0 <= cc -> 0 <= cr ->
    let code :=
      Binary64.calculateCost model (Binary64.ofZ i) (Binary64.ofZ o)
        (Binary64.ofZ cc) (Binary64.ofZ cr) in
    code = tierCost64 (Binary64.PRICING tier) (Binary64.ofZ i) (Binary64.ofZ o)
             (Binary64.ofZ cc) (Binary64.ofZ cr) \/
    code = Binary64.ofQ (tierCost (Pricing.PRICING tier) i o cc cr).

(** The usage block of a raw record, with the message that carries it. *)
Definition usageOf (entry : JsonlEntry.t)
    : option (JsonlEntry.message_t * JsonlEntry.usage_t) :=
  msg ← JsonlEntry.message entry;
  usage ← JsonlEntry.usage msg;
  Some (msg, usage).

(** The four token counts of a raw record, each defaulting to 0 when
    absent. *)
Definition tokenCounts (entry : JsonlEntry.t) : list Z :=
  let usage := snd <$> usageOf entry in
  [ default 0 (usage ≫= JsonlEntry.input_tokens);
    default 0 (usage ≫= JsonlEntry.output_tokens);
    default 0 (usage ≫= JsonlEntry.cache_creation_input_tokens);
    default 0 (usage ≫= JsonlEntry.cache_read_input_tokens) ].

Definition zeroUsage (entry : JsonlEntry.t) : Prop :=
  Forall (fun n => n = 0) (tokenCounts entry).

(** The message id of a raw record. *)
Definition messageId (entry : JsonlEntry.t) : option string :=
  JsonlEntry.message entry ≫= JsonlEntry.id.

(** The (message id, request id) pair of a record that carries both
    ids; as in the code, an empty string is no id. *)
Definition idPair (entry : JsonlEntry.t) : option (string * string) :=
  match messageId entry, JsonlEntry.requestId entry with
  | Some mid, Some rid =>
      if JsString.nonEmpty mid && JsString.nonEmpty rid then Some (mid, rid)
      else None
  | _, _ => None
  end.

(** The key under which a pair is stored in the set. *)
Definition hashOfPair (p : string * string) : string :=
  fst p +:+ ":" +:+ snd p.

(** The deduplication as the specification states it: two records of
    the corpus that carry both ids and share the pair yield exactly one
    entry between them. *)
Definition dedupExactlyOne : Prop :=
  forall (files : list (LogFile * string)) (i j : nat) (s1 s2 : Run.Step)
         (r1 r2 : JsonlEntry.t) (p : string * string),
    (i < j)%nat ->
    Run.corpusSteps files ∅ !! i = Some s1 ->
    Run.corpusSteps files ∅ !! j = Some s2 ->
    Run.line s1 = Some r1 -> Run.line s2 = Some r2 ->
    idPair r1 = Some p -> idPair r2 = Some p ->
    List.length (Run.entriesOf [s1; s2]) = 1%nat.

(** The shadowing of a key as the specification states it: a record
    that carries both ids and has its four token counts zero takes the
    key, so that every later record of the corpus with the same pair
    finds it and yields no entry. *)
Definition zeroUsageTakesKey : Prop :=
  forall (files : list (LogFile * string)) (i j : nat) (s1 s2 : Run.Step)
         (r1 r2 : JsonlEntry.t) (p : string * string),
    (i < j)%nat ->
    Run.corpusSteps files ∅ !! i = Some s1 ->
    Run.corpusSteps files ∅ !! j = Some s2 ->
    Run.line s1 = Some r1 -> Run.line s2 = Some r2 ->
    zeroUsage r1 ->
    idPair r1 = Some p -> idPair r2 = Some p ->
    hashOfPair p ∈ Run.hashesBefore s2 /\ Run.pushed s2 = None.

(** The four token counts of an entry are all zero. *)
Definition zeroEntry (e : UsageEntry.t) : Prop :=
  UsageEntry.inputTokens e = 0 /\ UsageEntry.outputTokens e = 0 /\
  UsageEntry.cacheCreationTokens e = 0 /\ UsageEntry.cacheReadTokens e = 0.

End Spec.

(** ** Sample data *)

Module Samples.

(** A collation for the examples: comparison by code units. *)
Definition codeUnits : JsString.Collator :=
  {| JsString.localeCompare := String.compare |}.

Definition mkUsage (i o cc cr : option Z) : JsonlEntry.usage_t :=
  {| JsonlEntry.input_tokens := i; JsonlEntry.output_tokens := o;
     JsonlEntry.cache_creation_input_tokens := cc;
     JsonlEntry.cache_read_input_tokens := cr |}.

Definition mkRecord (ts : string) (mid rid : option string) (model : option string)
    (usage : option JsonlEntry.usage_t) : JsonlEntry.t :=
  {| JsonlEntry.timestamp := ts;
     JsonlEntry.message := Some
       {| JsonlEntry.id := mid; JsonlEntry.model := model;
          JsonlEntry.usage := usage |};
     JsonlEntry.sessionId := None;
     JsonlEntry.requestId := rid;
     JsonlEntry.costUSD := None;
     JsonlEntry.cwd := Some "/proj/a" |}.

(** A record with usage [{input: 1000, output: 500}] and ids [m1], [r1]. *)
Definition rec1 : JsonlEntry.t :=
  mkRecord "2025-01-02T10:00:00.000Z" (Some "m1") (Some "r1")
    (Some "claude-sonnet-4.5") (Some (mkUsage (Some 1000) (Some 500) None None)).

(** A record with the ids of [rec1] and all-zero usage. *)
Definition rec0 : JsonlEntry.t :=
  mkRecord "2025-01-02T09:00:00.000Z" (Some "m1") (Some "r1")
    (Some "claude-sonnet-4.5") (Some (mkUsage (Some 0) None None (Some 0))).

(** A record with the ids of [rec1] and no usage block. *)
Definition recNoUsage : JsonlEntry.t :=
  mkRecord "2025-01-02T09:00:00.000Z" (Some "m1") (Some "r1")
    (Some "claude-sonnet-4.5") None.

(** A record with usage and no request id. *)
Definition recNoId : JsonlEntry.t :=
  mkRecord "2025-01-02T11:00:00.000Z" (Some "m1") None
    (Some "claude-opus-4-1-20250301") (Some (mkUsage (Some 10) None None None)).

Definition mkFile (session : string) (lines : list Line) : Dirent :=
  DirEnt session [FileEnt "log.jsonl" (Some lines)].

Definition mkRoot (lines : list Line) : option (list Dirent) :=
  Some [DirEnt "-proj-a" [mkFile "s1" lines]].

(** The files of a run: one file per list of lines, in sessions [s1],
    [s2], ... of the project folder [-proj-a]. *)
Definition mkLogFile (session : string) (lines : list Line) : LogFile * string :=
  ({| dirName := session; content := Some lines |}, "-proj-a").

(** [rec0] in a first file, [rec1] in the file parsed after it. *)
Definition twoFiles : list (LogFile * string) :=
  [mkLogFile "s1" [None; Some rec0]; mkLogFile "s2" [Some rec1]].

Definition twoFiles_step1 : Run.Step :=
  {| Run.line := Some rec0; Run.hashesBefore := ∅; Run.pushed := None |}.

Definition twoFiles_step2 : Run.Step :=
  {| Run.line := Some rec1; Run.hashesBefore := {[ "m1:r1" ]};
     Run.pushed := None |}.

(** [recNoUsage], then [rec1] in the same file. *)
Definition noUsageFile : list (LogFile * string) :=
  [mkLogFile "s1" [Some recNoUsage; Some rec1]].

(** [rec1] twice in one file, then a record without request id. *)
Definition oneFile : list (LogFile * string) :=
  [mkLogFile "s1" [Some rec1; Some rec1; Some recNoId]].

Definition rec1Entry : UsageEntry.t :=
  {| UsageEntry.timestamp := "2025-01-02T10:00:00.000Z";
     UsageEntry.model := "claude-sonnet-4.5";
     UsageEntry.inputTokens := 1000; UsageEntry.outputTokens := 500;
     UsageEntry.cacheCreationTokens := 0; UsageEntry.cacheReadTokens := 0;
     UsageEntry.cost := Pricing.calculateCost "claude-sonnet-4.5" 1000 500 0 0;
     UsageEntry.sessionId := "s1"; UsageEntry.projectPath := "/proj/a" |}.

Definition recNoIdEntry : UsageEntry.t :=
  {| UsageEntry.timestamp := "2025-01-02T11:00:00.000Z";
     UsageEntry.model := "claude-opus-4-1-20250301";
     UsageEntry.inputTokens := 10; UsageEntry.outputTokens := 0;
     UsageEntry.cacheCreationTokens := 0; UsageEntry.cacheReadTokens := 0;
     UsageEntry.cost := Pricing.calculateCost "claude-opus-4-1-20250301" 10 0 0 0;
     UsageEntry.sessionId := "s1"; UsageEntry.projectPath := "/proj/a" |}.

Definition noUsage_step1 : Run.Step :=
  {| Run.line := Some recNoUsage; Run.hashesBefore := ∅; Run.pushed := None |}.

Definition noUsage_step2 : Run.Step :=
  {| Run.line := Some rec1; Run.hashesBefore := ∅;
     Run.pushed := Some rec1Entry |}.

Definition oneFile_step1 : Run.Step :=
  {| Run.line := Some rec1; Run.hashesBefore := ∅; Run.pushed := Some rec1Entry |}.

Definition oneFile_step2 : Run.Step :=
  {| Run.line := Some rec1; Run.hashesBefore := {[ "m1:r1" ]};
     Run.pushed := None |}.

Definition oneFile_step3 : Run.Step :=
  {| Run.line := Some recNoId; Run.hashesBefore := {[ "m1:r1" ]};
     Run.pushed := Some recNoIdEntry |}.

Definition mkEntry (ts model session project : string) (i o : Z) (c : Q) : UsageEntry.t :=
  {| UsageEntry.timestamp := ts; UsageEntry.model := model;
     UsageEntry.inputTokens := i; UsageEntry.outputTokens := o;
     UsageEntry.cacheCreationTokens := 0; UsageEntry.cacheReadTokens := 0;
     UsageEntry.cost := c; UsageEntry.sessionId := session;
     UsageEntry.projectPath := project |}.

Definition entries3 : list UsageEntry.t :=
  [ mkEntry "2025-01-03T08:00:00Z" "claude-opus-4-5" "s2" "/proj/b" 10 20 0.5;
    mkEntry "2025-01-01T08:00:00Z" "claude-sonnet-4-5" "s1" "/proj/a" 100 50 2;
    mkEntry "2025-01-02T08:00:00Z" "claude-opus-4-5" "s1" "/proj/a" 7 1 0.25 ].

End Samples.

(** ** The dashboard ([webview/dashboardPanel.ts])

    The part of [_update] and [_getHtmlForWebview] that computes: the
    statistics of the filtered entries, the rows that are kept and the
    heights of the bars of the daily chart. *)

Module Dashboard.

(** [xs.slice(0, n)] *)
Definition sliceFirst {A : Type} (n : nat) (xs : list A) : list A := take n xs.

(** [xs.slice(-n)]: the last [n] elements. *)
Definition sliceLast {A : Type} (n : nat) (xs : list A) : list A :=
  drop (List.length xs - n) xs.

Record ChartPoint := { date : string; cost : Q; tokens : Z }.

Definition chartData (stats : UsageStats.t) : list ChartPoint :=
  (fun d => {| date := DailyUsage.date d; cost := DailyUsage.totalCost d;
               tokens := DailyUsage.totalTokens d |})
    <$> sliceLast 30 (UsageStats.byDate stats).

Definition projectRows (stats : UsageStats.t) : list ProjectUsage.t :=
  sliceFirst 10 (UsageStats.byProject stats).

Definition sessionRows (sessions : list SessionUsage.t) : list SessionUsage.t :=
  sliceFirst 20 sessions.

(** [Math.max(a, b)] *)
Definition max2 (a b : Q) : Q := if Qle_bool a b then b else a.

(** [Math.max(...xs)]; [None] is the [-Infinity] of the call without
    arguments. *)
Fixpoint maxOf (xs : list Q) : option Q :=
  match xs with
  | [] => None
  | x :: rest =>
      match maxOf rest with
      | None => Some x
      | Some m => Some (max2 x m)
      end
  end.

(** The height, in percent, of the bar of [d] in the chart of [points]. *)
Definition barHeight (points : list ChartPoint) (d : ChartPoint) : Q :=
  let maxCost := maxOf (cost <$> points) in
  let height :=
    match maxCost with
    | Some m => if negb (Qle_bool m 0) then (cost d / m * 100)%Q else 0%Q
    | None => 0%Q
    end in
  max2 height 2.

End Dashboard.

(** ** Views of the loops

    Definitions in which the properties of the loops are stated. *)

Module Views.

(** The sum of a list of amounts and of a list of counts. *)
Definition sumQ (xs : list Q) : Q := foldr Qplus 0%Q xs.
Definition sumZ (xs : list Z) : Z := foldr Z.add 0 xs.

(** The pattern of the grouping loops on a map: the object under [k] is
    created from [init] when the map does not have it, then mutated by
    [f]. *)
Definition upsert {V : Type} (m : list (string * V)) (k : string) (init : V)
    (f : V -> V) : list (string * V) :=
  JsMap.update (if JsMap.has m k then m else JsMap.set m k init) k f.

(** One iteration of a loop that groups by [key]. *)
Definition groupStep {E V : Type} (key : E -> string) (init : E -> V)
    (f : E -> V -> V) (m : list (string * V)) (e : E) : list (string * V) :=
  upsert m (key e) (init e) (f e).

(** The object that a grouping loop builds from the entries of one
    group, [None] for no entry. *)
Definition groupFold {V : Type} (init : UsageEntry.t -> V)
    (f : UsageEntry.t -> V -> V) (entries : list UsageEntry.t) : option V :=
  foldl (fun o e => Some (f e (default (init e) o))) None entries.

(** The objects with which the loops of [aggregateStats] and
    [getSessionStats] start a group. *)
Definition modelInit (entry : UsageEntry.t) : ModelUsage.t :=
  {| ModelUsage.model := UsageEntry.model entry; ModelUsage.totalCost := 0;
     ModelUsage.totalTokens := 0; ModelUsage.inputTokens := 0;
     ModelUsage.outputTokens := 0; ModelUsage.cacheCreationTokens := 0;
     ModelUsage.cacheReadTokens := 0; ModelUsage.sessionCount := 0 |}.

Definition dateInit (entry : UsageEntry.t) : LogParser.DateStats.t :=
  {| LogParser.DateStats.cost := 0; LogParser.DateStats.tokens := 0;
     LogParser.DateStats.models := [] |}.

Definition projectInit (entry : UsageEntry.t) : LogParser.ProjectStats.t :=
  {| LogParser.ProjectStats.cost := 0; LogParser.ProjectStats.tokens := 0;
     LogParser.ProjectStats.sessions := ∅;
     LogParser.ProjectStats.lastUsed := UsageEntry.timestamp entry;
     LogParser.ProjectStats.projectName :=
       LogParser.getProjectName (UsageEntry.projectPath entry) |}.

Definition sessionInit (entry : UsageEntry.t) : LogParser.SessionData.t :=
  {| LogParser.SessionData.projectPath := UsageEntry.projectPath entry;
     LogParser.SessionData.entries := [] |}.

Definition sessionPush (entry : UsageEntry.t) (data : LogParser.SessionData.t)
    : LogParser.SessionData.t :=
  {| LogParser.SessionData.projectPath := LogParser.SessionData.projectPath data;
     LogParser.SessionData.entries := LogParser.SessionData.entries data ++ [entry] |}.

(** The calendar day of an entry, as [aggregateStats] takes it. *)
Definition dateOf (entry : UsageEntry.t) : string :=
  JsString.splitHead "T" (UsageEntry.timestamp entry).

(** The distinct session ids of a list of entries. *)
Definition sessionsOf (entries : list UsageEntry.t) : gset string :=
  list_to_set (UsageEntry.sessionId <$> entries).

(** The sums that the row of a model holds, over the entries [es] of
    the model. *)
Definition modelSums (es : list UsageEntry.t) (v : ModelUsage.t) : Prop :=
  (ModelUsage.totalCost v == sumQ (UsageEntry.cost <$> es))%Q /\
  ModelUsage.totalTokens v = sumZ (LogParser.entryTokens <$> es) /\
  ModelUsage.inputTokens v = sumZ (UsageEntry.inputTokens <$> es) /\
  ModelUsage.outputTokens v = sumZ (UsageEntry.outputTokens <$> es) /\
  ModelUsage.cacheCreationTokens v = sumZ (UsageEntry.cacheCreationTokens <$> es) /\
  ModelUsage.cacheReadTokens v = sumZ (UsageEntry.cacheReadTokens <$> es).

(** What the object of a day holds, over the entries [es] of the day. *)
Definition dateSums (es : list UsageEntry.t) (v : LogParser.DateStats.t) : Prop :=
  (LogParser.DateStats.cost v == sumQ (UsageEntry.cost <$> es))%Q /\
  LogParser.DateStats.tokens v = sumZ (LogParser.entryTokens <$> es) /\
  NoDup (LogParser.DateStats.models v) /\
  forall model : string,
    model ∈ LogParser.DateStats.models v
    <-> exists e, e ∈ es /\ UsageEntry.model e = model.

(** What the object of a project holds, over the entries [es] of the
    project. *)
Definition projectSums (es : list UsageEntry.t) (v : LogParser.ProjectStats.t)
    : Prop :=
  (LogParser.ProjectStats.cost v == sumQ (UsageEntry.cost <$> es))%Q /\
  LogParser.ProjectStats.tokens v = sumZ (LogParser.entryTokens <$> es) /\
  LogParser.ProjectStats.sessions v = sessionsOf es /\
  (exists e, e ∈ es /\ UsageEntry.timestamp e = LogParser.ProjectStats.lastUsed v) /\
  forall e, e ∈ es ->
    JsString.strLe (UsageEntry.timestamp e) (LogParser.ProjectStats.lastUsed v).

(** What the variables of the loop over the entries of a session hold
    after the entries [es], when the times started from [first]. *)
Definition sessionSums (first : string) (es : list UsageEntry.t)
    (acc : LogParser.SessionAcc.t) : Prop :=
  ((LogParser.SessionAcc.totalCost acc == sumQ (UsageEntry.cost <$> es))%Q /\
   LogParser.SessionAcc.inputTokens acc = sumZ (UsageEntry.inputTokens <$> es) /\
   LogParser.SessionAcc.outputTokens acc = sumZ (UsageEntry.outputTokens <$> es) /\
   LogParser.SessionAcc.cacheCreationTokens acc
   = sumZ (UsageEntry.cacheCreationTokens <$> es) /\
   LogParser.SessionAcc.cacheReadTokens acc
   = sumZ (UsageEntry.cacheReadTokens <$> es)) /\
  (NoDup (LogParser.SessionAcc.models acc) /\
   forall model : string,
     model ∈ LogParser.SessionAcc.models acc
     <-> exists e, e ∈ es /\ UsageEntry.model e = model) /\
  ((LogParser.SessionAcc.startTime acc = first \/
    exists e, e ∈ es /\ UsageEntry.timestamp e = LogParser.SessionAcc.startTime acc) /\
   JsString.strLe (LogParser.SessionAcc.startTime acc) first /\
   forall e, e ∈ es ->
     JsString.strLe (LogParser.SessionAcc.startTime acc) (UsageEntry.timestamp e)) /\
  ((LogParser.SessionAcc.endTime acc = first \/
    exists e, e ∈ es /\ UsageEntry.timestamp e = LogParser.SessionAcc.endTime acc) /\
   JsString.strLe first (LogParser.SessionAcc.endTime acc) /\
   forall e, e ∈ es ->
     JsString.strLe (UsageEntry.timestamp e) (LogParser.SessionAcc.endTime acc)).

(** The start of the loop over the entries of a session. *)
Definition sessionAccInit (first : string) : LogParser.SessionAcc.t :=
  {| LogParser.SessionAcc.models := []; LogParser.SessionAcc.totalCost := 0;
     LogParser.SessionAcc.inputTokens := 0; LogParser.SessionAcc.outputTokens := 0;
     LogParser.SessionAcc.cacheCreationTokens := 0;
     LogParser.SessionAcc.cacheReadTokens := 0;
     LogParser.SessionAcc.startTime := first;
     LogParser.SessionAcc.endTime := first |}.

(** What a row of [getSessionStats] holds, over the entries [es] of its
    session. *)
Definition sessionRow (es : list UsageEntry.t) (row : SessionUsage.t) : Prop :=
  ((SessionUsage.totalCost row == sumQ (UsageEntry.cost <$> es))%Q /\
   SessionUsage.totalTokens row = sumZ (LogParser.entryTokens <$> es) /\
   SessionUsage.inputTokens row = sumZ (UsageEntry.inputTokens <$> es) /\
   SessionUsage.outputTokens row = sumZ (UsageEntry.outputTokens <$> es) /\
   SessionUsage.cacheCreationTokens row
   = sumZ (UsageEntry.cacheCreationTokens <$> es) /\
   SessionUsage.cacheReadTokens row = sumZ (UsageEntry.cacheReadTokens <$> es)) /\
  (NoDup (SessionUsage.modelsUsed row) /\
   forall model : string,
     model ∈ SessionUsage.modelsUsed row
     <-> exists e, e ∈ es /\ UsageEntry.model e = model) /\
  ((exists e, e ∈ es /\ UsageEntry.timestamp e = SessionUsage.startTime row) /\
   forall e, e ∈ es ->
     JsString.strLe (SessionUsage.startTime row) (UsageEntry.timestamp e)) /\
  ((exists e, e ∈ es /\ UsageEntry.timestamp e = SessionUsage.endTime row) /\
   forall e, e ∈ es ->
     JsString.strLe (UsageEntry.timestamp e) (SessionUsage.endTime row)).

(** The entries whose key is [k], in the order of the list. *)
Definition entriesWith (key : UsageEntry.t -> string) (k : string)
    (entries : list UsageEntry.t) : list UsageEntry.t :=
  List.filter (fun e => String.eqb (key e) k) entries.

(** The first working directory that the lines of a file give. *)
Fixpoint firstCwd (lines : list Line) : option string :=
  match lines with
  | [] => None
  | None :: rest => firstCwd rest
  | Some entry :: rest =>
      if JsString.truthy (JsonlEntry.cwd entry) then JsonlEntry.cwd entry
      else firstCwd rest
  end.

(** The project path in the state of the parser is unset or is a path
    that was found. *)
Definition pathOk (path : option string) : Prop :=
  path = None \/ JsString.truthy path = true.

(** The key by which [getAllUsageEntries] orders the files. *)
Definition fileKey (f : LogFile * string) : string :=
  default "" (LogParser.getFirstTimestamp (fst f)).

(** The lines of the files of a corpus, in processing order. *)
Definition allLines (files : list (LogFile * string)) : list Line :=
  flat_map (fun f => default [] (content (fst f))) files.

(** A line that, when it is a record with a usage block, carries both
    ids. *)
Definition keyed (l : Line) : Prop :=
  forall r, l = Some r -> is_Some (Spec.usageOf r) -> is_Some (Spec.idPair r).

(** The tiers for which [getModelDisplayName] has every pattern of
    [getModelPricing]. *)
Definition labelledTiers : list Pricing.Tier :=
  [ Pricing.opus_4_5; Pricing.opus_4_1; Pricing.opus_4; Pricing.opus_3;
    Pricing.sonnet_4_5; Pricing.sonnet_4; Pricing.haiku_4_5 ].

(** [holds dir entries parent name text]: in the tree under the
    directory named [dir], whose listing is [entries], the regular file
    [name] with content [text] lies in a directory named [parent]. *)
Inductive holds : string -> list Dirent -> string -> string ->
    option (list Line) -> Prop :=
| holds_here (dir : string) (entries : list Dirent) (name : string)
    (text : option (list Line)) :
    FileEnt name text ∈ entries -> holds dir entries dir name text
| holds_below (dir : string) (entries : list Dirent) (sub : string)
    (children : list Dirent) (parent name : string)
    (text : option (list Line)) :
    DirEnt sub children ∈ entries ->
    holds sub children parent name text ->
    holds dir entries parent name text.

(** Induction on a directory tree. *)
Section DirentInd.
Variable P : Dirent -> Prop.
Hypothesis Hfile : forall name text, P (FileEnt name text).
Hypothesis Hdir : forall name children, Forall P children -> P (DirEnt name children).
Hypothesis Hother : forall name, P (OtherEnt name).

Fixpoint Dirent_tree_ind (d : Dirent) : P d :=
  match d with
  | FileEnt name text => Hfile name text
  | DirEnt name children =>
      Hdir name children
        ((fix go (l : list Dirent) : Forall P l :=
            match l with
            | [] => @List.Forall_nil _ P
            | x :: rest => @List.Forall_cons _ P x rest (Dirent_tree_ind x) (go rest)
            end) children)
  | OtherEnt name => Hother name
  end.
End DirentInd.

(** A path of slash-free names: [dir/name]. *)
Definition joinPath (dir name : string) : string := dir +:+ "/" +:+ name.

End Views.

(** ** More sample data *)

Module Samples2.

Definition mkCwdRecord (ts : string) (cwd : option string) (i : Z) : JsonlEntry.t :=
  {| JsonlEntry.timestamp := ts;
     JsonlEntry.message := Some
       {| JsonlEntry.id := None; JsonlEntry.model := Some "claude-opus-4-5";
          JsonlEntry.usage := Some (Samples.mkUsage (Some i) None None None) |};
     JsonlEntry.sessionId := None;
     JsonlEntry.requestId := None;
     JsonlEntry.costUSD := None;
     JsonlEntry.cwd := cwd |}.

(** A file whose first record has no working directory. *)
Definition lateCwdFile : LogFile :=
  {| dirName := "s1";
     content := Some
       [ Some (mkCwdRecord "2025-01-01T10:00:00Z" None 5); None;
         Some (mkCwdRecord "2025-01-01T11:00:00Z" (Some "/proj/a") 6);
         Some (mkCwdRecord "2025-01-01T12:00:00Z" (Some "/proj/b") 7) ] |}.

(** A projects directory with two sessions of one project. *)
Definition twoSessions : list Dirent :=
  [ DirEnt "-proj-a"
      [ Samples.mkFile "s1" [Some Samples.recNoId];
        Samples.mkFile "s2" [Some Samples.rec1] ] ].

Definition unreadableFile : LogFile := {| dirName := "s9"; content := None |}.

Definition idFile : LogFile :=
  {| dirName := "s1"; content := Some [Some Samples.rec1; None; Some Samples.rec0] |}.

(** The row of "claude-opus-4-5" for [Samples.entries3]. *)
Definition opusRow : ModelUsage.t :=
  {| ModelUsage.model := "claude-opus-4-5"; ModelUsage.totalCost := 750 # 1000;
     ModelUsage.totalTokens := 38; ModelUsage.inputTokens := 17;
     ModelUsage.outputTokens := 21; ModelUsage.cacheCreationTokens := 0;
     ModelUsage.cacheReadTokens := 0; ModelUsage.sessionCount := 2 |}.

(** The row of the day "2025-01-02" for [Samples.entries3]. *)
Definition jan2Row : DailyUsage.t :=
  {| DailyUsage.date := "2025-01-02"; DailyUsage.totalCost := 25 # 100;
     DailyUsage.totalTokens := 8; DailyUsage.modelsUsed := ["claude-opus-4-5"] |}.

(** The row of the project "/proj/a" for [Samples.entries3]. *)
Definition projARow : ProjectUsage.t :=
  {| ProjectUsage.projectPath := "/proj/a"; ProjectUsage.projectName := "a";
     ProjectUsage.totalCost := 225 # 100; ProjectUsage.totalTokens := 158;
     ProjectUsage.sessionCount := 1;
     ProjectUsage.lastUsed := "2025-01-02T08:00:00Z" |}.

(** The row of the session "s1" for [Samples.entries3]. *)
Definition s1Row : SessionUsage.t :=
  {| SessionUsage.sessionId := "s1"; SessionUsage.projectPath := "/proj/a";
     SessionUsage.projectName := "a"; SessionUsage.totalCost := 225 # 100;
     SessionUsage.totalTokens := 158; SessionUsage.inputTokens := 107;
     SessionUsage.outputTokens := 51; SessionUsage.cacheCreationTokens := 0;
     SessionUsage.cacheReadTokens := 0;
     SessionUsage.startTime := "2025-01-01T08:00:00Z";
     SessionUsage.endTime := "2025-01-02T08:00:00Z";
     SessionUsage.modelsUsed := ["claude-sonnet-4-5"; "claude-opus-4-5"] |}.

End Samples2.

(** * Properties *)

Import JsString Pricing LogParser.
Import Run.

(** The properties hold for every collation of the host; those that
    depend on the order of a sort assume its laws. *)
Section Properties.
Context {collator : Collator}.
Context {laws : CollatorLaws collator}.
#[local] Set Default Proof Using "Type".

(** ** Examples *)

Example split_ex : split "/" "/proj//a" = [""; "proj"; ""; "a"].
Proof. reflexivity. Qed.

Example getProjectName_ex : getProjectName "/home/me/proj/" = "proj".
Proof. reflexivity. Qed.

Example getModelTier_ex : getModelTier "Claude-Sonnet-4.5" = Some sonnet_4_5.
Proof. vm_compute. reflexivity. Qed.

(** The scenario of the specification: a record, its duplicate and a
    record with all-zero usage give one entry of 1500 tokens. *)
Example scenario_one_file :
  let stats :=
    aggregateStats
      (getAllUsageEntries (Samples.mkRoot
         [Some Samples.rec1; Some Samples.rec1; Some Samples.rec0])) in
  UsageStats.totalTokens stats = 1500 /\
  (UsageStats.totalCost stats == 0.0105)%Q /\
  length (UsageStats.byModel stats) = 1%nat.
Proof. vm_compute. repeat split; reflexivity. Qed.

(** ** Pricing *)

Lemma getModelPricing_tier (model : string) (pricing : ModelPricing) :
  getModelPricing model = Some pricing ->
  exists tier, getModelTier model = Some tier /\ pricing = PRICING tier.
Proof.
  unfold getModelPricing. destruct (getModelTier model) as [tier|]; [|discriminate].
  intros [= <-]. exists tier. split; reflexivity.
Qed.

(** The doubles of the price table are the doubles nearest to the
    rationals of the exact table. *)
Lemma PRICING_doubles (t : Tier) :
  Binary64.input (Binary64.PRICING t) = Binary64.ofQ (input (PRICING t)) /\
  Binary64.output (Binary64.PRICING t) = Binary64.ofQ (output (PRICING t)) /\
  Binary64.cacheWrite (Binary64.PRICING t)
  = Binary64.ofQ (cacheWrite (PRICING t)) /\
  Binary64.cacheRead (Binary64.PRICING t) = Binary64.ofQ (cacheRead (PRICING t)).
Proof. destruct t; repeat split; reflexivity. Qed.

(** C1, as the code has it.  For a model name that [getModelPricing]
    resolves to a tier, the exact value of the cost of any four token
    counts (the non-negative ones among them) is the sum of the counts
    times the rates of the tier, divided by 1,000,000, and the double
    that the program returns is the sum, from left to right, of the four
    amounts count * rate / 1,000,000, each operation rounded; for a model
    name that resolves to no tier the cost is 0. *)
Theorem calculateCost_formula (model : string) (i o cc cr : Z)
    (x y z w : float) :
  (forall tier, getModelPricing model = Some tier ->
     0 <= i -> 0 <= o -> 0 <= cc -> 0 <= cr ->
     (calculateCost model i o cc cr == Spec.tierCost tier i o cc cr)%Q) /\
  (getModelPricing model = None -> calculateCost model i o cc cr = 0%Q) /\
  (forall tier, Binary64.getModelPricing model = Some tier ->
     Binary64.calculateCost model x y z w
     = (x * Binary64.input tier / 1000000 +
        y * Binary64.output tier / 1000000 +
        z * Binary64.cacheWrite tier / 1000000 +
        w * Binary64.cacheRead tier / 1000000)%float) /\
  (Binary64.getModelPricing model = None ->
   Binary64.calculateCost model x y z w = 0%float).
Proof.
  unfold calculateCost, Binary64.calculateCost, Spec.tierCost.
  split; [|split; [|split]].
  - intros tier -> _ _ _ _. cbv zeta. field.
  - intros ->. reflexivity.
  - intros tier ->. reflexivity.
  - intros ->. reflexivity.
Qed.

Lemma calculateCost_formula_witness :
  (calculateCost "claude-sonnet-4.5" 1000 500 0 0
   == Spec.tierCost (PRICING sonnet_4_5) 1000 500 0 0)%Q /\
  calculateCost "gpt-4o" 1000 500 0 0 = 0%Q /\
  Binary64.calculateCost "claude-sonnet-4.5" 1000 500 0 0
  = (1000 * 3.0 / 1000000 + 500 * 15.0 / 1000000 + 0 * 3.75 / 1000000 +
     0 * 0.30 / 1000000)%float /\
  Binary64.calculateCost "gpt-4o" 1000 500 0 0 = 0%float.
Proof.
  split; [|split; [|split]].
  - apply (proj1 (calculateCost_formula "claude-sonnet-4.5" 1000 500 0 0
                    1000 500 0 0));
      [vm_compute; reflexivity | lia | lia | lia | lia].
  - apply (proj1 (proj2 (calculateCost_formula "gpt-4o" 1000 500 0 0
                           1000 500 0 0))).
    vm_compute; reflexivity.
  - apply (proj1 (proj2 (proj2 (calculateCost_formula "claude-sonnet-4.5"
                                  1000 500 0 0 1000 500 0 0)))
             (Binary64.PRICING sonnet_4_5)).
    vm_compute; reflexivity.
  - apply (proj2 (proj2 (proj2 (calculateCost_formula "gpt-4o" 1000 500 0 0
                                  1000 500 0 0)))).
    vm_compute; reflexivity.
Defined.

Example calculateCost_doubles_ex :
  Binary64.calculateCost "claude-sonnet-4.5" 1000 500 0 0
  = 0.010499999999999999%float /\
  Spec.tierCost64 (Binary64.PRICING sonnet_4_5) 1000 500 0 0 = 0.0105%float /\
  Binary64.ofQ (Spec.tierCost (PRICING sonnet_4_5) 1000 500 0 0)
  = 0.0105%float /\
  Binary64.ofZ 1000 = 1000%float.
Proof. repeat split; vm_compute; reflexivity. Qed.

(** C1, as the specification states it, fails on the doubles: for 1000
    input and 500 output tokens on Sonnet 4.5 the program returns
    0.010499999999999999 (0.003 + 0.0075 in doubles), and the sum of the
    counts times the rates divided by 1,000,000 is 0.0105, in doubles as
    well as exactly. *)
Lemma calculateCost_formula_fails_in_doubles : ~ Spec.costIsFormula64.
Proof.
  intros H.
  specialize (H "claude-sonnet-4.5" sonnet_4_5 1000 500 0 0
                eq_refl ltac:(lia) ltac:(lia) ltac:(lia) ltac:(lia)).
  cbv zeta in H.
  assert (Hcode : Binary64.calculateCost "claude-sonnet-4.5"
                    (Binary64.ofZ 1000) (Binary64.ofZ 500)
                    (Binary64.ofZ 0) (Binary64.ofZ 0)
                  = 0.010499999999999999%float) by (vm_compute; reflexivity).
  rewrite Hcode in H. destruct H as [H|H].
  - apply (f_equal (fun f => PrimFloat.eqb f 0.0105)) in H.
    vm_compute in H. discriminate H.
  - apply (f_equal (fun f => PrimFloat.eqb f 0.0105)) in H.
    vm_compute in H. discriminate H.
Qed.

(** C8. The model string "claude-opus-4-1-20250301" resolves to the tier
    "opus-4.1", with input price 15.0 and output price 75.0 per million
    tokens, not to "opus-4" or "opus-4.5", and its display name is
    "Claude Opus 4.1". *)
Theorem opus_4_1_dated_resolution :
  let model := "claude-opus-4-1-20250301" in
  getModelTier model = Some opus_4_1 /\
  tierKey opus_4_1 = "opus-4.1" /\
  getModelTier model <> Some opus_4 /\
  getModelTier model <> Some opus_4_5 /\
  getModelPricing model = Some (PRICING opus_4_1) /\
  input (PRICING opus_4_1) = 15.0%Q /\
  output (PRICING opus_4_1) = 75.0%Q /\
  getModelDisplayName model = "Claude Opus 4.1".
Proof.
  cbv zeta.
  assert (Ht : getModelTier "claude-opus-4-1-20250301" = Some opus_4_1)
    by (vm_compute; reflexivity).
  unfold getModelPricing. rewrite Ht.
  repeat split; try reflexivity; try discriminate.
Qed.

(** A model name that resolves to no tier is displayed unchanged. *)
Lemma getModelDisplayName_unresolved (model : string) :
  getModelTier model = None -> getModelDisplayName model = model.
Proof.
  unfold getModelTier, getModelDisplayName. cbv zeta.
  repeat (match goal with
          | |- context [includes ?s ?p] =>
              destruct (includes s p) eqn:?; cbn [orb]; try discriminate
          end).
  reflexivity.
Qed.

(** C5. [getModelDisplayName] does not follow the precedence of
    [getModelPricing] on the "claude-"-prefixed spellings of the 3.x
    Sonnet and Haiku models: "claude-3-5-sonnet-20241022" resolves to the
    tier "sonnet-3.5", whose label is "Claude Sonnet 3.5", and is displayed
    unchanged. *)
Theorem getModelDisplayName_misses_claude_3_5_sonnet :
  let model := "claude-3-5-sonnet-20241022" in
  getModelTier model = Some sonnet_3_5 /\
  tierLabel sonnet_3_5 = "Claude Sonnet 3.5" /\
  getModelDisplayName model = model /\
  getModelDisplayName model <> tierLabel sonnet_3_5.
Proof. vm_compute. repeat split; try reflexivity; discriminate. Qed.

(** The other prefixed spellings that are priced and not labelled. *)
Example getModelDisplayName_misses_others :
  Forall (fun '(model, tier) =>
            getModelTier model = Some tier /\ getModelDisplayName model = model)
    [ ("claude-3-7-sonnet-20250219", sonnet_3_7);
      ("claude-3-5-haiku-20241022", haiku_3_5);
      ("claude-3-haiku-20240307", haiku_3) ].
Proof. repeat constructor; vm_compute; reflexivity. Qed.

(** ** Empty input *)

(** C9. [aggregateStats] of the empty list is the stats object with all
    totals 0, no session and empty collections; when the projects
    directory does not exist, [getAllUsageEntries] returns the empty
    list. *)
Theorem empty_input_is_not_an_error :
  aggregateStats [] =
    {| UsageStats.totalCost := 0; UsageStats.totalTokens := 0;
       UsageStats.totalInputTokens := 0; UsageStats.totalOutputTokens := 0;
       UsageStats.totalCacheCreationTokens := 0;
       UsageStats.totalCacheReadTokens := 0; UsageStats.totalSessions := 0;
       UsageStats.byModel := []; UsageStats.byDate := [];
       UsageStats.byProject := [] |} /\
  getAllUsageEntries None = [].
Proof. split; reflexivity. Qed.

(** ** Totals of the aggregation *)

Section Totals.

Lemma foldl_totalCost (entries : list UsageEntry.t) (acc : Acc.t) :
  (Acc.totalCost (foldl aggregateStep acc entries)
   == Acc.totalCost acc + Spec.sumCost entries)%Q.
Proof.
  revert acc. induction entries as [|entry entries IH]; intros acc; simpl.
  - ring.
  - rewrite IH. simpl. ring.
Qed.

Lemma foldl_totalTokens (entries : list UsageEntry.t) (acc : Acc.t) :
  let acc' := foldl aggregateStep acc entries in
  Acc.totalInputTokens acc' + Acc.totalOutputTokens acc' +
  Acc.totalCacheCreationTokens acc' + Acc.totalCacheReadTokens acc'
  = Acc.totalInputTokens acc + Acc.totalOutputTokens acc +
    Acc.totalCacheCreationTokens acc + Acc.totalCacheReadTokens acc +
    Spec.sumTokens entries.
Proof.
  cbv zeta. revert acc.
  induction entries as [|entry entries IH]; intros acc; simpl.
  - lia.
  - rewrite IH. simpl. lia.
Qed.

End Totals.

(** C3. For every list of entries, [totalCost] of the aggregation is the
    sum of the costs of the entries and [totalTokens] is the sum of the
    four token counts of the entries. *)
Theorem aggregateStats_totals (entries : list UsageEntry.t) :
  (UsageStats.totalCost (aggregateStats entries) == Spec.sumCost entries)%Q /\
  UsageStats.totalTokens (aggregateStats entries) = Spec.sumTokens entries.
Proof.
  destruct entries as [|entry entries]; [split; reflexivity|].
  unfold aggregateStats.
  set (l := entry :: entries).
  cbn [UsageStats.totalCost UsageStats.totalTokens]. split.
  - rewrite foldl_totalCost. simpl. ring.
  - rewrite (foldl_totalTokens l Acc.init). reflexivity.
Qed.

Example aggregateStats_totals_ex :
  (UsageStats.totalCost (aggregateStats Samples.entries3) == 2.75)%Q /\
  UsageStats.totalTokens (aggregateStats Samples.entries3) = 188.
Proof. vm_compute. split; reflexivity. Qed.

(** ** Time range filter *)

Section FilterFacts.
Variable parseDate : string -> option Z.

Lemma dateGe_invalid (cutoff : option Z) : dateGe None cutoff = false.
Proof. reflexivity. Qed.

Lemma dateGe_weaken (d : option Z) (c c' : Z) :
  c' <= c -> dateGe d (Some c) = true -> dateGe d (Some c') = true.
Proof.
  destruct d as [x|]; simpl; [|discriminate].
  rewrite !Z.leb_le. lia.
Qed.

Lemma timeClip_recent (now days : Z) :
  0 <= now <= 8640000000000000 -> 0 <= days <= 30 ->
  timeClip (now - days * 24 * 60 * 60 * 1000)
  = Some (now - days * 24 * 60 * 60 * 1000).
Proof.
  intros Hnow Hdays. unfold timeClip.
  destruct (Z.leb_spec (Z.abs (now - days * 24 * 60 * 60 * 1000))
              8640000000000000); [reflexivity | lia].
Qed.

Lemma filter_incl_of_imp {A : Type} (p q : A -> bool) (l : list A) :
  (forall x, p x = true -> q x = true) ->
  sublist (List.filter p l) (List.filter q l).
Proof.
  intros Hpq. induction l as [|x l IH]; simpl; [constructor|].
  destruct (p x) eqn:Hp.
  - rewrite (Hpq x Hp). by constructor.
  - destruct (q x); [by constructor | exact IH].
Qed.

Lemma sublist_filter_self {A : Type} (p : A -> bool) (l : list A) :
  sublist (List.filter p l) l.
Proof.
  induction l as [|x l IH]; simpl; [constructor|].
  destruct (p x); by constructor.
Qed.
End FilterFacts.

(** C6. At a fixed current time, the range 'all' gives the list itself;
    the result for '7d' is a sublist of the result for '30d', which is a
    sublist of the result for 'all'; and an entry whose timestamp does not
    parse to a valid instant is in neither the 7-day nor the 30-day
    result.  The current time is a time value of the clock, from 1970 to
    the end of the range of dates. *)
Theorem filterByTimeRange_chain (parseDate : string -> option Z) (now : Z)
    (E : list UsageEntry.t) :
  0 <= now <= 8640000000000000 ->
  filterByTimeRange parseDate now E RangeAll = E /\
  sublist (filterByTimeRange parseDate now E Range7d)
          (filterByTimeRange parseDate now E Range30d) /\
  sublist (filterByTimeRange parseDate now E Range30d)
          (filterByTimeRange parseDate now E RangeAll) /\
  (forall entry, parseDate (UsageEntry.timestamp entry) = None ->
     (entry ∉ filterByTimeRange parseDate now E Range7d) /\
     (entry ∉ filterByTimeRange parseDate now E Range30d)).
Proof.
  intros Hnow. unfold filterByTimeRange.
  rewrite (timeClip_recent now 7), (timeClip_recent now 30) by lia.
  split; [reflexivity|]. split; [|split].
  - apply filter_incl_of_imp. intros entry. apply dateGe_weaken. lia.
  - apply sublist_filter_self.
  - intros entry Hbad.
    split; rewrite list_elem_of_In, filter_In, Hbad; simpl; intros [_ ?]; discriminate.
Qed.

Lemma filterByTimeRange_chain_witness :
  let parseDate := fun s : string =>
    if String.eqb s "2025-01-03T08:00:00Z" then Some 1735891200000
    else if String.eqb s "2025-01-01T08:00:00Z" then Some 1735718400000
    else None in
  let now := 1736409600000 in
  filterByTimeRange parseDate now Samples.entries3 RangeAll = Samples.entries3 /\
  sublist (filterByTimeRange parseDate now Samples.entries3 Range7d)
          (filterByTimeRange parseDate now Samples.entries3 Range30d) /\
  sublist (filterByTimeRange parseDate now Samples.entries3 Range30d)
          (filterByTimeRange parseDate now Samples.entries3 RangeAll) /\
  (forall entry, parseDate (UsageEntry.timestamp entry) = None ->
     (entry ∉ filterByTimeRange parseDate now Samples.entries3 Range7d) /\
     (entry ∉ filterByTimeRange parseDate now Samples.entries3 Range30d)).
Proof.
  cbv zeta. apply filterByTimeRange_chain. lia.
Defined.

Example filterByTimeRange_ex :
  let parseDate := fun s : string =>
    if String.eqb s "2025-01-03T08:00:00Z" then Some 1735891200000
    else if String.eqb s "2025-01-01T08:00:00Z" then Some 1735718400000
    else None in
  let now := 1736409600000 in
  UsageEntry.timestamp <$> filterByTimeRange parseDate now Samples.entries3 Range7d
    = ["2025-01-03T08:00:00Z"] /\
  UsageEntry.timestamp <$> filterByTimeRange parseDate now Samples.entries3 Range30d
    = ["2025-01-03T08:00:00Z"; "2025-01-01T08:00:00Z"].
Proof. vm_compute. split; reflexivity. Qed.

(** ** Sorting *)

Section SortFacts.
Context {A : Type}.
Variable after : A -> A -> bool.

Lemma insert_Permutation (x : A) (l : list A) :
  JsArray.insert after x l ≡ₚ x :: l.
Proof.
  induction l as [|y l IH]; simpl; [reflexivity|].
  destruct (after x y); [|reflexivity].
  rewrite IH. apply perm_swap.
Qed.

Lemma sort_Permutation (l : list A) : JsArray.sort after l ≡ₚ l.
Proof.
  unfold JsArray.sort. induction l as [|x l IH]; simpl; [reflexivity|].
  rewrite insert_Permutation. by constructor.
Qed.

Lemma elem_of_sort (x : A) (l : list A) : x ∈ JsArray.sort after l <-> x ∈ l.
Proof. by rewrite sort_Permutation. Qed.

(** The order [R] that the comparison function decides. *)
Variable R : A -> A -> Prop.
Hypothesis R_of_not_after : forall x y, after x y = false -> R x y.
Hypothesis R_of_after : forall x y, after x y = true -> R y x.

Lemma insert_HdRel (a x : A) (l : list A) :
  R a x -> HdRel R a l -> HdRel R a (JsArray.insert after x l).
Proof.
  intros Hax Hl. destruct l as [|y l]; simpl; [by constructor|].
  destruct (after x y); constructor; [|exact Hax].
  by apply HdRel_inv in Hl.
Qed.

Lemma insert_Sorted (x : A) (l : list A) :
  Sorted R l -> Sorted R (JsArray.insert after x l).
Proof using Type*.
  induction 1 as [|y l Hl IH Hhd]; simpl; [by repeat constructor|].
  destruct (after x y) eqn:Hxy.
  - constructor; [exact IH|]. apply insert_HdRel; [by apply R_of_after | exact Hhd].
  - constructor; [by constructor|]. constructor. by apply R_of_not_after.
Qed.

Lemma sort_Sorted (l : list A) : Sorted R (JsArray.sort after l).
Proof using Type*.
  unfold JsArray.sort. induction l as [|x l IH]; simpl; [constructor|].
  by apply insert_Sorted.
Qed.
End SortFacts.

(** The orders of the comparison functions. *)

Lemma collLe_of_not_after (a b : string) :
  match localeCompare a b with Gt => true | _ => false end = false -> collLe a b.
Proof. unfold collLe. by destruct (localeCompare a b). Qed.

Lemma collLe_of_after (a b : string) :
  match localeCompare a b with Gt => true | _ => false end = true -> collLe b a.
Proof using laws.
  unfold collLe. rewrite (localeCompare_flip b a).
  by destruct (localeCompare a b).
Qed.

Lemma strLt_of_strLe_ne (a b : string) : strLe a b -> a <> b -> strLt a b.
Proof.
  unfold strLe, strLt. intros Hle Hne.
  destruct (String.compare a b) eqn:Hc; [|reflexivity|congruence].
  by apply String.compare_eq_iff in Hc.
Qed.

Lemma strLt_trans (a b c : string) : strLt a b -> strLt b c -> strLt a c.
Proof.
  unfold strLt. intros Hab Hbc.
  exact (@StrictOrder_Transitive _ _ OrdersEx.String_as_OT.lt_strorder a b c Hab Hbc).
Qed.

Lemma strLe_trans (a b c : string) : strLe a b -> strLe b c -> strLe a c.
Proof.
  intros Hab Hbc.
  destruct (decide (a = b)) as [->|Hne1]; [exact Hbc|].
  destruct (decide (b = c)) as [<-|Hne2]; [exact Hab|].
  pose proof (strLt_trans a b c (strLt_of_strLe_ne _ _ Hab Hne1)
                (strLt_of_strLe_ne _ _ Hbc Hne2)) as Hac.
  unfold strLe, strLt in *. congruence.
Qed.

(** Comparison by code units is a collation. *)
Lemma codeUnits_laws : CollatorLaws Samples.codeUnits.
Proof.
  split.
  - intros a b. apply String.compare_antisym.
  - exact strLe_trans.
Qed.

Lemma costAfter_false (a b : Q) : costAfter a b = false -> (b <= a)%Q.
Proof.
  unfold costAfter. intros H. apply negb_false_iff, Qle_bool_iff in H. lra.
Qed.

Lemma costAfter_true (a b : Q) : costAfter a b = true -> (a <= b)%Q.
Proof.
  unfold costAfter. intros H. apply negb_true_iff in H.
  destruct (Qlt_le_dec 0 (b - a)) as [Hlt|Hle]; [lra|].
  apply Qle_bool_iff in Hle. congruence.
Qed.

(** ** The keys of an insertion-ordered map *)

Section MapFacts.
Context {V : Type}.
Implicit Types (m : list (string * V)) (k : string).

Lemma get_None_keys m k : JsMap.get m k = None -> k ∉ JsMap.keys m.
Proof.
  induction m as [|[k' v] m IH]; simpl; [intros _; apply not_elem_of_nil|].
  destruct (String.eqb_spec k' k) as [->|Hne]; [discriminate|].
  intros Hget. rewrite not_elem_of_cons. split; [congruence | by apply IH].
Qed.

Lemma keys_set_new m k v :
  JsMap.get m k = None -> JsMap.keys (JsMap.set m k v) = JsMap.keys m ++ [k].
Proof.
  induction m as [|[k' v'] m IH]; simpl; [reflexivity|].
  destruct (String.eqb_spec k' k) as [->|Hne]; [discriminate|].
  intros Hget. simpl. f_equal. by apply IH.
Qed.

Lemma keys_set_old m k v :
  is_Some (JsMap.get m k) -> JsMap.keys (JsMap.set m k v) = JsMap.keys m.
Proof.
  induction m as [|[k' v'] m IH]; simpl; [by intros [? ?]|].
  destruct (String.eqb_spec k' k) as [->|Hne]; [reflexivity|].
  intros Hget. simpl. f_equal. by apply IH.
Qed.

Lemma keys_update m k f : JsMap.keys (JsMap.update m k f) = JsMap.keys m.
Proof.
  unfold JsMap.update. destruct (JsMap.get m k) eqn:Hget; [|reflexivity].
  apply keys_set_old. by rewrite Hget.
Qed.

(** The pattern of the loops: create the object under [k] when the map
    does not have it, then mutate it. *)
Lemma keys_upsert_NoDup m k v f :
  NoDup (JsMap.keys m) ->
  NoDup (JsMap.keys
           (JsMap.update (if JsMap.has m k then m else JsMap.set m k v) k f)).
Proof.
  intros Hnd. rewrite keys_update. unfold JsMap.has.
  destruct (JsMap.get m k) eqn:Hget; [exact Hnd|].
  rewrite keys_set_new by exact Hget.
  apply NoDup_app. split; [exact Hnd|]. split.
  - intros x Hx Hk. apply list_elem_of_singleton in Hk as ->.
    by apply get_None_keys in Hget.
  - apply NoDup_singleton.
Qed.
End MapFacts.

Lemma dateMap_keys_NoDup (entries : list UsageEntry.t) (acc : Acc.t) :
  NoDup (JsMap.keys (Acc.dateMap acc)) ->
  NoDup (JsMap.keys (Acc.dateMap (foldl aggregateStep acc entries))).
Proof.
  revert acc. induction entries as [|entry entries IH]; intros acc Hnd; simpl;
    [exact Hnd|].
  apply IH. simpl. by apply keys_upsert_NoDup.
Qed.

Lemma toDailyUsage_dates (m : list (string * DateStats.t)) :
  DailyUsage.date <$> (toDailyUsage <$> m) = JsMap.keys m.
Proof.
  unfold JsMap.keys. induction m as [|[k v] m IH]; simpl; [reflexivity|].
  f_equal. exact IH.
Qed.

(** A list sorted by [<=] on a key without repetition is sorted by [<]. *)
Lemma Sorted_strict {A : Type} (key : A -> string) (l : list A) :
  NoDup (key <$> l) ->
  Sorted (fun a b => strLe (key a) (key b)) l ->
  Sorted (fun a b => strLt (key a) (key b)) l.
Proof.
  intros Hnd Hs. induction Hs as [|a l Hs IH Hhd]; [constructor|].
  rewrite fmap_cons in Hnd. apply NoDup_cons in Hnd as [Ha Hnd].
  constructor; [by apply IH|].
  destruct Hhd as [|b l Hab]; constructor.
  apply strLt_of_strLe_ne; [exact Hab|].
  intros Heq. apply Ha. rewrite fmap_cons, Heq. apply list_elem_of_here.
Qed.

(** ** Sort orders of the statistics *)

Lemma StronglySorted_weaken {A : Type} (R R' : A -> A -> Prop) (l : list A) :
  (forall a b, R a b -> R' a b) -> StronglySorted R l -> StronglySorted R' l.
Proof.
  intros Himp. induction 1 as [|a l Hs IH Hall]; constructor; [exact IH|].
  eapply Forall_impl; [exact Hall|]. intros b. apply Himp.
Qed.

Lemma byModel_sorted (l : list ModelUsage.t) :
  StronglySorted
    (fun a b => (ModelUsage.totalCost b <= ModelUsage.totalCost a)%Q)
    (JsArray.sort modelAfter l).
Proof.
  apply Sorted_StronglySorted.
  - intros x y z Hxy Hyz. by eapply Qle_trans.
  - apply sort_Sorted; intros x y.
    + apply costAfter_false.
    + apply costAfter_true.
Qed.

Lemma byProject_sorted (l : list ProjectUsage.t) :
  StronglySorted
    (fun a b => (ProjectUsage.totalCost b <= ProjectUsage.totalCost a)%Q)
    (JsArray.sort projectAfter l).
Proof.
  apply Sorted_StronglySorted.
  - intros x y z Hxy Hyz. by eapply Qle_trans.
  - apply sort_Sorted; intros x y.
    + apply costAfter_false.
    + apply costAfter_true.
Qed.

Lemma StronglySorted_weaken_in {A : Type} (R R' : A -> A -> Prop) (l : list A) :
  (forall a b, a ∈ l -> b ∈ l -> R a b -> R' a b) ->
  StronglySorted R l -> StronglySorted R' l.
Proof.
  intros Himp Hs. induction Hs as [|a l Hs IH Hall]; constructor.
  - apply IH. intros x y Hx Hy. apply Himp; by apply list_elem_of_further.
  - rewrite List.Forall_forall in Hall. apply List.Forall_forall.
    intros b Hb. apply Himp; [apply list_elem_of_here| |by apply Hall].
    by apply list_elem_of_further, list_elem_of_In.
Qed.

(** A sort by [localeCompare] on a key leaves the list in the order of
    the collation. *)
Lemma sort_StronglySorted_by_key {A : Type} (key : A -> string)
    (after : A -> A -> bool) (l : list A) :
  (forall x y,
     after x y = match localeCompare (key x) (key y) with Gt => true | _ => false end) ->
  StronglySorted (fun a b => collLe (key a) (key b)) (JsArray.sort after l).
Proof using laws.
  intros Hafter. apply Sorted_StronglySorted.
  - intros x y z. apply collLe_trans.
  - apply sort_Sorted; intros x y; rewrite Hafter.
    + apply collLe_of_not_after.
    + apply collLe_of_after.
Qed.

Lemma byDate_sorted (l : list DailyUsage.t) :
  StronglySorted
    (fun a b => collLe (DailyUsage.date a) (DailyUsage.date b))
    (JsArray.sort dateAfter l).
Proof using laws. by apply (sort_StronglySorted_by_key DailyUsage.date). Qed.

Lemma sessions_sorted (l : list SessionUsage.t) :
  StronglySorted
    (fun a b => collLe (SessionUsage.startTime b) (SessionUsage.startTime a))
    (JsArray.sort sessionAfter l).
Proof using laws.
  apply Sorted_StronglySorted.
  - intros x y z Hxy Hyz. by eapply collLe_trans.
  - apply sort_Sorted; intros x y.
    + apply collLe_of_not_after.
    + apply collLe_of_after.
Qed.

(** Where the collation agrees with the order of the code units on the
    keys of a list, a list in the order of the collation is in the order
    of the code units. *)
Lemma collLe_sorted_strLe {A : Type} (key : A -> string) (l : list A) :
  (forall a b, a ∈ (key <$> l) -> b ∈ (key <$> l) ->
     localeCompare a b = String.compare a b) ->
  StronglySorted (fun a b => collLe (key a) (key b)) l ->
  StronglySorted (fun a b => strLe (key a) (key b)) l.
Proof.
  intros Hagree. apply StronglySorted_weaken_in. intros a b Ha Hb.
  unfold collLe, strLe. rewrite Hagree; [done| |]; apply list_elem_of_fmap; eauto.
Qed.

Lemma collLe_sorted_strLe_desc {A : Type} (key : A -> string) (l : list A) :
  (forall a b, a ∈ (key <$> l) -> b ∈ (key <$> l) ->
     localeCompare a b = String.compare a b) ->
  StronglySorted (fun a b => collLe (key b) (key a)) l ->
  StronglySorted (fun a b => strLe (key b) (key a)) l.
Proof.
  intros Hagree. apply StronglySorted_weaken_in. intros a b Ha Hb.
  unfold collLe, strLe. rewrite Hagree; [done| |]; apply list_elem_of_fmap; eauto.
Qed.

Lemma byDate_NoDup (entries : list UsageEntry.t) :
  NoDup (DailyUsage.date <$> UsageStats.byDate (aggregateStats entries)).
Proof.
  destruct entries as [|entry entries]; [constructor|].
  unfold aggregateStats. cbn [UsageStats.byDate].
  rewrite sort_Permutation, toDailyUsage_dates.
  apply dateMap_keys_NoDup. constructor.
Qed.

Lemma byDate_collLe (entries : list UsageEntry.t) :
  StronglySorted
    (fun a b => collLe (DailyUsage.date a) (DailyUsage.date b))
    (UsageStats.byDate (aggregateStats entries)).
Proof using laws.
  destruct entries as [|entry entries]; [constructor|]. apply byDate_sorted.
Qed.

(** C7. For every list of entries, [byModel] and [byProject] are sorted
    non-increasing in [totalCost]; [byDate] is sorted non-decreasing in
    the order in which [localeCompare] puts the date strings, and no
    date occurs twice; the result of [getSessionStats] is sorted
    descending by [startTime] in that order: of any two elements, the one
    that comes first has the later or equal start.  Where
    [localeCompare] agrees with the order of the code units on the
    strings that occur, [byDate] is strictly increasing and the sessions
    are descending in the order of the code units. *)
Theorem statistics_sort_orders (entries : list UsageEntry.t) :
  let stats := aggregateStats entries in
  let sessions := getSessionStats entries in
  StronglySorted
    (fun a b => (ModelUsage.totalCost b <= ModelUsage.totalCost a)%Q)
    (UsageStats.byModel stats) /\
  StronglySorted
    (fun a b => (ProjectUsage.totalCost b <= ProjectUsage.totalCost a)%Q)
    (UsageStats.byProject stats) /\
  StronglySorted
    (fun a b => collLe (DailyUsage.date a) (DailyUsage.date b))
    (UsageStats.byDate stats) /\
  NoDup (DailyUsage.date <$> UsageStats.byDate stats) /\
  StronglySorted
    (fun a b => collLe (SessionUsage.startTime b) (SessionUsage.startTime a))
    sessions /\
  ((forall a b, a ∈ (DailyUsage.date <$> UsageStats.byDate stats) ->
      b ∈ (DailyUsage.date <$> UsageStats.byDate stats) ->
      localeCompare a b = String.compare a b) ->
   StronglySorted
     (fun a b => strLt (DailyUsage.date a) (DailyUsage.date b))
     (UsageStats.byDate stats)) /\
  ((forall a b, a ∈ (SessionUsage.startTime <$> sessions) ->
      b ∈ (SessionUsage.startTime <$> sessions) ->
      localeCompare a b = String.compare a b) ->
   StronglySorted
     (fun a b => strLe (SessionUsage.startTime b) (SessionUsage.startTime a))
     sessions).
Proof using laws.
  cbv zeta.
  split; [|split; [|split; [|split; [|split; [|split]]]]].
  - destruct entries as [|entry entries]; [constructor|]. apply byModel_sorted.
  - destruct entries as [|entry entries]; [constructor|]. apply byProject_sorted.
  - apply byDate_collLe.
  - apply byDate_NoDup.
  - apply sessions_sorted.
  - intros Hagree. apply Sorted_StronglySorted.
    + intros x y z. apply strLt_trans.
    + apply (Sorted_strict DailyUsage.date); [apply byDate_NoDup|].
      apply StronglySorted_Sorted.
      apply (collLe_sorted_strLe DailyUsage.date); [exact Hagree|].
      apply byDate_collLe.
  - intros Hagree.
    apply (collLe_sorted_strLe_desc SessionUsage.startTime); [exact Hagree|].
    apply sessions_sorted.
Qed.

Example statistics_sort_orders_ex :
  DailyUsage.date <$> UsageStats.byDate (aggregateStats (collator := Samples.codeUnits) Samples.entries3)
    = ["2025-01-01"; "2025-01-02"; "2025-01-03"] /\
  ModelUsage.model <$> UsageStats.byModel (aggregateStats (collator := Samples.codeUnits) Samples.entries3)
    = ["claude-sonnet-4-5"; "claude-opus-4-5"] /\
  SessionUsage.sessionId <$> getSessionStats (collator := Samples.codeUnits) Samples.entries3 = ["s2"; "s1"].
Proof. vm_compute. repeat split; reflexivity. Qed.

(** ** One iteration of the parser *)

Section ProcessLine.
Variables sessionId encodedProjectName : string.
Local Abbreviation step := (processLine sessionId encodedProjectName).

Lemma processLine_hashes (st : ParseState) (l : Line) :
  processedHashes (fst (step st l)) = processedHashes st ∪ hashSet l.
Proof.
  clear laws collator.
  unfold hashSet, lineHash, processLine.
  destruct l as [entry|]; simpl; [|set_solver].
  destruct (JsonlEntry.message entry) as [msg|]; simpl; [|set_solver].
  destruct (JsonlEntry.usage msg) as [usage|]; simpl; [|set_solver].
  destruct (dedupHash entry msg) as [hash|]; simpl; [|set_solver].
  case_bool_decide; simpl; set_solver.
Qed.

Lemma processLine_no_usage (st : ParseState) (entry : JsonlEntry.t) :
  Spec.usageOf entry = None -> snd (step st (Some entry)) = None.
Proof.
  unfold Spec.usageOf, processLine.
  destruct (JsonlEntry.message entry) as [msg|]; simpl; [|done].
  destruct (JsonlEntry.usage msg) as [usage|]; simpl; done.
Qed.

Lemma processLine_duplicate (st : ParseState) (l : Line) (hash : string) :
  lineHash l = Some hash -> hash ∈ processedHashes st -> snd (step st l) = None.
Proof.
  unfold lineHash, processLine.
  destruct l as [entry|]; simpl; [|done].
  destruct (JsonlEntry.message entry) as [msg|]; simpl; [|done].
  destruct (JsonlEntry.usage msg) as [usage|]; simpl; [|done].
  intros -> Hin. by rewrite bool_decide_eq_true_2.
Qed.

Lemma processLine_fresh (st : ParseState) (entry : JsonlEntry.t)
    (msg : JsonlEntry.message_t) (usage : JsonlEntry.usage_t) :
  Spec.usageOf entry = Some (msg, usage) ->
  (forall hash, lineHash (Some entry) = Some hash -> hash ∉ processedHashes st) ->
  snd (step st (Some entry))
  = buildEntry sessionId encodedProjectName (pathAfter sessionId encodedProjectName st entry) entry msg usage.
Proof.
  unfold pathAfter, Spec.usageOf, lineHash, processLine. simpl.
  destruct (JsonlEntry.message entry) as [msg'|]; simpl; [|done].
  destruct (JsonlEntry.usage msg') as [usage'|]; simpl; [|done].
  intros [= -> ->] Hfresh.
  destruct (dedupHash entry msg) as [hash|]; simpl; [|done].
  rewrite bool_decide_eq_false_2 by (by apply Hfresh). done.
Qed.

Lemma buildEntry_None (path : option string) (entry : JsonlEntry.t)
    (msg : JsonlEntry.message_t) (usage : JsonlEntry.usage_t) :
  Spec.usageOf entry = Some (msg, usage) ->
  buildEntry sessionId encodedProjectName path entry msg usage = None
  <-> Spec.zeroUsage entry.
Proof.
  intros Hu. unfold Spec.zeroUsage, Spec.tokenCounts. rewrite Hu. simpl.
  unfold buildEntry.
  rewrite !Forall_cons, Forall_nil.
  destruct (default 0 (JsonlEntry.input_tokens usage) =? 0) eqn:H1;
  destruct (default 0 (JsonlEntry.output_tokens usage) =? 0) eqn:H2;
  destruct (default 0 (JsonlEntry.cache_creation_input_tokens usage) =? 0) eqn:H3;
  destruct (default 0 (JsonlEntry.cache_read_input_tokens usage) =? 0) eqn:H4;
  simpl; rewrite ?Z.eqb_eq, ?Z.eqb_neq in *; split; intros H;
    try done; try (exfalso; by intuition).
Qed.

Lemma buildEntry_Some (path : option string) (entry : JsonlEntry.t)
    (msg : JsonlEntry.message_t) (usage : JsonlEntry.usage_t) (e : UsageEntry.t) :
  buildEntry sessionId encodedProjectName path entry msg usage = Some e ->
  ~ Spec.zeroEntry e.
Proof.
  unfold buildEntry, Spec.zeroEntry.
  destruct (default 0 (JsonlEntry.input_tokens usage) =? 0) eqn:H1;
  destruct (default 0 (JsonlEntry.output_tokens usage) =? 0) eqn:H2;
  destruct (default 0 (JsonlEntry.cache_creation_input_tokens usage) =? 0) eqn:H3;
  destruct (default 0 (JsonlEntry.cache_read_input_tokens usage) =? 0) eqn:H4;
  simpl; try discriminate; intros [= <-]; simpl;
    rewrite ?Z.eqb_eq, ?Z.eqb_neq in *; intuition.
Qed.

(** An entry that is pushed has a token count that is not zero. *)
Lemma processLine_pushed_nonzero (st : ParseState) (l : Line) (e : UsageEntry.t) :
  snd (step st l) = Some e -> ~ Spec.zeroEntry e.
Proof.
  unfold processLine.
  destruct l as [entry|]; simpl; [|done].
  destruct (JsonlEntry.message entry) as [msg|]; simpl; [|done].
  destruct (JsonlEntry.usage msg) as [usage|]; simpl; [|done].
  destruct (dedupHash entry msg) as [hash|]; simpl.
  - case_bool_decide; simpl; [done|]. apply buildEntry_Some.
  - apply buildEntry_Some.
Qed.

Lemma usageOf_Some (entry : JsonlEntry.t) (msg : JsonlEntry.message_t)
    (usage : JsonlEntry.usage_t) :
  JsonlEntry.message entry = Some msg -> JsonlEntry.usage msg = Some usage ->
  Spec.usageOf entry = Some (msg, usage).
Proof. unfold Spec.usageOf. intros -> Hu. simpl. by rewrite Hu. Qed.

(** A record whose four token counts are zero pushes nothing. *)
Lemma processLine_zeroUsage (st : ParseState) (entry : JsonlEntry.t) :
  Spec.zeroUsage entry -> snd (step st (Some entry)) = None.
Proof.
  intros Hz. unfold processLine.
  destruct (JsonlEntry.message entry) as [msg|] eqn:Hm; simpl; [|done].
  destruct (JsonlEntry.usage msg) as [usage|] eqn:Hu; simpl; [|done].
  assert (Hnone : forall path,
    buildEntry sessionId encodedProjectName path entry msg usage = None).
  { intros path. apply buildEntry_None; [by apply usageOf_Some | exact Hz]. }
  destruct (dedupHash entry msg) as [hash|]; simpl.
  - case_bool_decide; simpl; [done|]. apply Hnone.
  - apply Hnone.
Qed.
End ProcessLine.

(** ** The run as a chain of iterations *)

Lemma chain_app (hashes : gset string) (a b : list Step) :
  chain hashes a -> chain (chainEnd hashes a) b -> chain hashes (a ++ b).
Proof.
  revert hashes. induction a as [|s a IH]; intros hashes; simpl; [done|].
  intros (Hb & Hok & Ha) Hrest. repeat split; [done..|]. by apply IH.
Qed.

Lemma chainEnd_app (hashes : gset string) (a b : list Step) :
  chainEnd hashes (a ++ b) = chainEnd (chainEnd hashes a) b.
Proof. apply foldl_app. Qed.

Lemma chainEnd_mono (hashes : gset string) (steps : list Step) :
  hashes ⊆ chainEnd hashes steps.
Proof.
  revert hashes. induction steps as [|s steps IH]; intros hashes; simpl; [done|].
  etrans; [|apply IH]. apply union_subseteq_l.
Qed.

Lemma lineSteps_chain (sessionId encodedProjectName : string)
    (lines : list Line) (st : ParseState) :
  let '(steps, final) := lineSteps sessionId encodedProjectName lines st in
  chain (processedHashes st) steps /\
  processedHashes final = chainEnd (processedHashes st) steps.
Proof.
  revert st. induction lines as [|l lines IH]; intros st; simpl; [done|].
  pose proof (processLine_hashes sessionId encodedProjectName st l) as Hh.
  destruct (processLine sessionId encodedProjectName st l) as [st' out] eqn:Hstep.
  specialize (IH st').
  destruct (lineSteps sessionId encodedProjectName lines st') as [steps final].
  simpl in *. destruct IH as [Hc He]. rewrite Hh in Hc, He.
  split; [|exact He]. repeat split; [|exact Hc].
  exists sessionId, encodedProjectName, (actualProjectPath st). simpl.
  destruct st as [path hs]. simpl. by rewrite Hstep.
Qed.

Lemma fileSteps_chain (file : LogFile) (encodedProjectName : string)
    (hashes : gset string) :
  let '(steps, hashes') := fileSteps file encodedProjectName hashes in
  chain hashes steps /\ hashes' = chainEnd hashes steps.
Proof.
  unfold fileSteps. destruct (content file) as [lines|]; [|done].
  pose proof (lineSteps_chain (dirName file) encodedProjectName lines
                {| actualProjectPath := None; processedHashes := hashes |}) as H.
  by destruct (lineSteps _ _ _ _) as [steps final].
Qed.

Lemma corpusSteps_chain (files : list (LogFile * string)) (hashes : gset string) :
  chain hashes (corpusSteps files hashes).
Proof.
  revert hashes. induction files as [|[file name] files IH]; intros hashes;
    simpl; [done|].
  pose proof (fileSteps_chain file name hashes) as H.
  destruct (fileSteps file name hashes) as [steps hashes'].
  destruct H as [Hc ->]. apply chain_app; [exact Hc | apply IH].
Qed.

(** In a chain, a step is a step of the parser, and the set it starts
    from holds the hashes of all the lines before it. *)
Lemma chain_lookup (hashes : gset string) (steps : list Step) (i : nat) (s : Step) :
  chain hashes steps -> steps !! i = Some s ->
  stepOk s /\ hashes ⊆ hashesBefore s.
Proof.
  revert hashes i. induction steps as [|s0 steps IH]; intros hashes i; [done|].
  simpl. intros (Hb & Hok & Hc). destruct i as [|i]; simpl.
  - intros [= <-]. by rewrite Hb.
  - intros Hi. destruct (IH _ _ Hc Hi) as [Hok' Hsub]. split; [done|].
    etrans; [|exact Hsub]. apply union_subseteq_l.
Qed.

Lemma chain_lookup_lt (hashes : gset string) (steps : list Step)
    (i j : nat) (s1 s2 : Step) :
  chain hashes steps -> (i < j)%nat ->
  steps !! i = Some s1 -> steps !! j = Some s2 ->
  hashesBefore s1 ∪ hashSet (line s1) ⊆ hashesBefore s2.
Proof.
  revert hashes i j. induction steps as [|s0 steps IH]; intros hashes i j; [done|].
  simpl. intros (Hb & Hok & Hc) Hlt. destruct j as [|j]; [lia|].
  destruct i as [|i]; simpl.
  - intros [= <-] Hj. rewrite Hb. by destruct (chain_lookup _ _ _ _ Hc Hj).
  - apply (IH _ _ _ Hc). lia.
Qed.

(** ** The parser and its run *)

Lemma parseLines_steps (sessionId encodedProjectName : string)
    (lines : list Line) (st : ParseState) (entries : list UsageEntry.t) :
  parseLines sessionId encodedProjectName lines st entries
  = (entries ++ entriesOf (fst (lineSteps sessionId encodedProjectName lines st)),
     snd (lineSteps sessionId encodedProjectName lines st)).
Proof.
  revert st entries. induction lines as [|l lines IH]; intros st entries; simpl.
  - by rewrite app_nil_r.
  - destruct (processLine sessionId encodedProjectName st l) as [st' out].
    rewrite IH.
    destruct (lineSteps sessionId encodedProjectName lines st') as [steps final].
    unfold entriesOf. simpl. destruct out as [e|]; simpl; [|done].
    by rewrite <- app_assoc.
Qed.

Lemma parseJsonlFile_steps (file : LogFile) (encodedProjectName : string)
    (hashes : gset string) :
  parseJsonlFile file encodedProjectName hashes
  = (entriesOf (fst (fileSteps file encodedProjectName hashes)),
     snd (fileSteps file encodedProjectName hashes)).
Proof.
  unfold parseJsonlFile, fileSteps. destruct (content file) as [lines|]; [|done].
  rewrite parseLines_steps.
  by destruct (lineSteps _ _ _ _) as [steps final].
Qed.

Lemma parseFiles_steps (files : list (LogFile * string))
    (allEntries : list UsageEntry.t) (hashes : gset string) :
  fst (parseFiles files allEntries hashes)
  = allEntries ++ entriesOf (corpusSteps files hashes).
Proof.
  revert allEntries hashes.
  induction files as [|[file name] files IH]; intros allEntries hashes; simpl.
  - by rewrite app_nil_r.
  - rewrite parseJsonlFile_steps.
    destruct (fileSteps file name hashes) as [steps hashes']. simpl.
    rewrite IH. unfold entriesOf. by rewrite omap_app, app_assoc.
Qed.

(** The entries of [getAllUsageEntries] are the entries pushed in the run
    over the files in processing order, sorted by timestamp. *)
Lemma getAllUsageEntries_steps (projectFolders : list Dirent) :
  getAllUsageEntries (Some projectFolders)
  = JsArray.sort entryAfter
      (entriesOf (corpusSteps (processingOrder projectFolders) ∅)).
Proof.
  unfold getAllUsageEntries, processingOrder. by rewrite parseFiles_steps.
Qed.

(** ** The key of a record *)

Lemma lineHash_of_idPair (r : JsonlEntry.t) (p : string * string) :
  is_Some (Spec.usageOf r) -> Spec.idPair r = Some p ->
  lineHash (Some r) = Some (Spec.hashOfPair p).
Proof.
  unfold Spec.usageOf, Spec.idPair, Spec.messageId, Spec.hashOfPair,
    lineHash, dedupHash, truthy. simpl.
  destruct (JsonlEntry.message r) as [msg|]; simpl; [|by intros [? ?]].
  destruct (JsonlEntry.usage msg) as [usage|]; simpl; [|by intros [? ?]].
  intros _.
  destruct (JsonlEntry.id msg) as [mid|]; simpl; [|done].
  destruct (JsonlEntry.requestId r) as [rid|]; simpl; [|done].
  destruct (nonEmpty mid && nonEmpty rid); [|done].
  by intros [= <-].
Qed.

Lemma lineHash_without_idPair (r : JsonlEntry.t) :
  Spec.idPair r = None -> lineHash (Some r) = None.
Proof.
  unfold Spec.idPair, Spec.messageId, lineHash, dedupHash, truthy. simpl.
  destruct (JsonlEntry.message r) as [msg|]; simpl; [|done].
  destruct (JsonlEntry.usage msg) as [usage|]; simpl; [|done].
  destruct (JsonlEntry.id msg) as [mid|]; simpl; [|done].
  destruct (JsonlEntry.requestId r) as [rid|]; simpl;
    [|by rewrite andb_false_r].
  by destruct (nonEmpty mid && nonEmpty rid).
Qed.

(** What a step of the run pushes, from the record and the set of
    hashes it finds. *)
Lemma step_pushed (s : Step) (r : JsonlEntry.t) :
  stepOk s -> line s = Some r ->
  (Spec.usageOf r = None -> pushed s = None) /\
  (forall hash, lineHash (Some r) = Some hash -> hash ∈ hashesBefore s ->
     pushed s = None) /\
  (Spec.zeroUsage r -> pushed s = None) /\
  (is_Some (Spec.usageOf r) ->
   (forall hash, lineHash (Some r) = Some hash -> hash ∉ hashesBefore s) ->
   ~ Spec.zeroUsage r -> is_Some (pushed s)).
Proof.
  intros (sid & enc & path & Hp) Hl. rewrite Hl in Hp. rewrite Hp.
  split; [apply processLine_no_usage|].
  split; [intros hash Hh Hin; by eapply processLine_duplicate|].
  split; [apply processLine_zeroUsage|].
  intros [[msg usage] Hu] Hfresh Hnz.
  rewrite (processLine_fresh sid enc _ r msg usage Hu) by exact Hfresh.
  destruct (buildEntry _ _ _ r msg usage) as [e|] eqn:Hb; [by eexists|].
  exfalso. apply Hnz. by eapply buildEntry_None.
Qed.

Example twoFiles_run :
  corpusSteps Samples.twoFiles ∅
  = [ {| line := None; hashesBefore := ∅; pushed := None |};
      Samples.twoFiles_step1; Samples.twoFiles_step2 ].
Proof. vm_compute. reflexivity. Qed.

Example oneFile_run :
  corpusSteps Samples.oneFile ∅
  = [Samples.oneFile_step1; Samples.oneFile_step2; Samples.oneFile_step3].
Proof. vm_compute. reflexivity. Qed.

(** ** Zero-usage suppression *)

Lemma entriesOf_elem (steps : list Step) (e : UsageEntry.t) :
  e ∈ entriesOf steps <-> exists s, s ∈ steps /\ pushed s = Some e.
Proof. unfold entriesOf. apply list_elem_of_omap. Qed.

Lemma chain_stepOk (hashes : gset string) (steps : list Step) (s : Step) :
  chain hashes steps -> s ∈ steps -> stepOk s.
Proof.
  intros Hc Hin. apply list_elem_of_lookup in Hin as [i Hi].
  by destruct (chain_lookup _ _ _ _ Hc Hi).
Qed.

(** C4. A raw record whose four token counts, each 0 when absent, are all
    zero pushes no entry, whatever its ids, its model and the state of
    the parser; and no entry returned by [getAllUsageEntries] has its four
    token counts equal to zero. *)
Theorem zero_usage_suppression :
  (forall (sessionId encodedProjectName : string) (st : ParseState)
          (entry : JsonlEntry.t),
     Spec.zeroUsage entry ->
     snd (processLine sessionId encodedProjectName st (Some entry)) = None) /\
  (forall (projectsDir : option (list Dirent)) (e : UsageEntry.t),
     e ∈ getAllUsageEntries projectsDir -> ~ Spec.zeroEntry e).
Proof.
  split; [apply processLine_zeroUsage|].
  intros [projectFolders|] e; [|by intros ?%not_elem_of_nil].
  rewrite getAllUsageEntries_steps, elem_of_sort, entriesOf_elem.
  intros (s & Hs & Hp).
  destruct (chain_stepOk _ _ _ (corpusSteps_chain _ _) Hs) as (sid & enc & path & Hok).
  rewrite Hp in Hok. symmetry in Hok. by eapply processLine_pushed_nonzero.
Qed.

(** ** Deduplication *)

Lemma lineHash_without_usage (r : JsonlEntry.t) :
  Spec.usageOf r = None -> lineHash (Some r) = None.
Proof.
  unfold Spec.usageOf, lineHash. simpl.
  destruct (JsonlEntry.message r) as [msg|]; simpl; [|done].
  by destruct (JsonlEntry.usage msg).
Qed.

(** C10, as the code has it.  The entries of a run over the files, with
    one set of hashes shared from the first file on, are the entries that
    its iterations push.  Let a record with a usage block carry both ids
    and have its four token counts zero.  The iteration on it puts its
    key into the set and pushes nothing, and every later record with the
    same (message id, request id) pair finds the key in the set and
    pushes nothing, whatever its token counts.  A record without a usage
    block puts no key into the set and pushes nothing. *)
Theorem zero_usage_record_takes_key (files : list (LogFile * string)) :
  fst (parseFiles files [] ∅) = entriesOf (corpusSteps files ∅) /\
  (forall (i j : nat) (s1 s2 : Step) (r1 r2 : JsonlEntry.t)
          (p : string * string),
     (i < j)%nat ->
     corpusSteps files ∅ !! i = Some s1 ->
     corpusSteps files ∅ !! j = Some s2 ->
     line s1 = Some r1 -> line s2 = Some r2 ->
     is_Some (Spec.usageOf r1) -> Spec.zeroUsage r1 ->
     Spec.idPair r1 = Some p -> Spec.idPair r2 = Some p ->
     hashSet (line s1) = {[ Spec.hashOfPair p ]} /\
     pushed s1 = None /\
     Spec.hashOfPair p ∈ hashesBefore s2 /\
     pushed s2 = None) /\
  (forall (i : nat) (s : Step) (r : JsonlEntry.t),
     corpusSteps files ∅ !! i = Some s -> line s = Some r ->
     Spec.usageOf r = None ->
     hashSet (line s) = ∅ /\ pushed s = None).
Proof.
  clear laws collator.
  pose proof (corpusSteps_chain files ∅) as Hc.
  split; [by rewrite parseFiles_steps|]. split.
  - intros i j s1 s2 r1 r2 p Hlt Hi Hj Hl1 Hl2 Hu1 Hz1 Hp1 Hp2.
    destruct (chain_lookup _ _ _ _ Hc Hi) as [Hok1 _].
    destruct (chain_lookup _ _ _ _ Hc Hj) as [Hok2 _].
    pose proof (chain_lookup_lt _ _ _ _ _ _ Hc Hlt Hi Hj) as Hsub.
    assert (Hset : hashSet (line s1) = {[ Spec.hashOfPair p ]}).
    { unfold hashSet. rewrite Hl1. by rewrite (lineHash_of_idPair r1 p). }
    assert (Hin : Spec.hashOfPair p ∈ hashesBefore s2).
    { apply Hsub. rewrite Hset. set_solver. }
    destruct (step_pushed s1 r1 Hok1 Hl1) as (_ & _ & Hzero1 & _).
    destruct (step_pushed s2 r2 Hok2 Hl2) as (Hnone2 & Hdup2 & _ & _).
    split; [exact Hset|].
    split; [by apply Hzero1|].
    split; [exact Hin|].
    destruct (Spec.usageOf r2) as [mu|] eqn:Hu2; [|by apply Hnone2].
    apply (Hdup2 (Spec.hashOfPair p)); [|exact Hin].
    apply lineHash_of_idPair; [by rewrite Hu2 | exact Hp2].
  - intros i s r Hi Hl Hu.
    destruct (chain_lookup _ _ _ _ Hc Hi) as [Hok _].
    destruct (step_pushed s r Hok Hl) as (Hnone & _).
    split; [|by apply Hnone].
    unfold hashSet. by rewrite Hl, (lineHash_without_usage r Hu).
Qed.

Lemma zero_usage_record_takes_key_witness :
  (hashSet (line Samples.twoFiles_step1) = {[ "m1:r1" ]} /\
   pushed Samples.twoFiles_step1 = None /\
   "m1:r1" ∈ hashesBefore Samples.twoFiles_step2 /\
   pushed Samples.twoFiles_step2 = None) /\
  (hashSet (line Samples.noUsage_step1) = ∅ /\
   pushed Samples.noUsage_step1 = None).
Proof.
  split.
  - apply (proj1 (proj2 (zero_usage_record_takes_key Samples.twoFiles))
             1%nat 2%nat Samples.twoFiles_step1 Samples.twoFiles_step2
             Samples.rec0 Samples.rec1 ("m1", "r1")).
    + lia.
    + vm_compute. reflexivity.
    + vm_compute. reflexivity.
    + reflexivity.
    + reflexivity.
    + by eexists.
    + unfold Spec.zeroUsage. vm_compute. repeat constructor.
    + reflexivity.
    + reflexivity.
  - apply (proj2 (proj2 (zero_usage_record_takes_key Samples.noUsageFile))
             0%nat Samples.noUsage_step1 Samples.recNoUsage).
    + vm_compute. reflexivity.
    + reflexivity.
    + reflexivity.
Defined.

(** C10, as the specification states it, fails: a record that carries
    both ids and no usage block has no token count other than zero, yet
    it takes no key, and the record with the same pair after it yields
    an entry. *)
Lemma zero_usage_key_needs_usage_block : ~ Spec.zeroUsageTakesKey.
Proof.
  intros H.
  assert (Hrun : corpusSteps Samples.noUsageFile ∅
                 = [Samples.noUsage_step1; Samples.noUsage_step2])
    by (vm_compute; reflexivity).
  specialize (H Samples.noUsageFile 0%nat 1%nat
                Samples.noUsage_step1 Samples.noUsage_step2
                Samples.recNoUsage Samples.rec1 ("m1", "r1")).
  rewrite Hrun in H.
  assert (Hz : Spec.zeroUsage Samples.recNoUsage)
    by (unfold Spec.zeroUsage; vm_compute; repeat constructor).
  specialize (H ltac:(lia) eq_refl eq_refl eq_refl eq_refl Hz eq_refl eq_refl).
  destruct H as [_ H]. discriminate H.
Qed.

(** The later record of the witness has 1500 tokens and is lost: the
    whole corpus gives no entry. *)
Example zero_usage_record_shadows :
  getAllUsageEntries (Samples.mkRoot [Some Samples.rec0; Some Samples.rec1]) = [] /\
  getAllUsageEntries (Samples.mkRoot [Some Samples.rec1; Some Samples.rec0])
  = [Samples.rec1Entry].
Proof. vm_compute. split; reflexivity. Qed.

(** C2, as the code has it.  The entries of a run over the files in
    processing order, with one set of hashes shared from the first file
    on, are the entries that its iterations push.  Of two records
    with a usage block in the earlier one, both ids in each and the same
    (message id, request id) pair, the later pushes no entry, wherever
    the two are, and the earlier pushes one exactly when its key is not
    yet in the set and its four token counts are not all zero: at most
    one entry between them.  A record with a usage block that lacks an
    id adds nothing to the set and pushes an entry exactly when its
    token counts are not all zero, whatever the set holds. *)
Theorem dedup_by_id_pair (files : list (LogFile * string)) :
  fst (parseFiles files [] ∅) = entriesOf (corpusSteps files ∅) /\
  (forall (i j : nat) (s1 s2 : Step) (r1 r2 : JsonlEntry.t) (p : string * string),
     (i < j)%nat ->
     corpusSteps files ∅ !! i = Some s1 ->
     corpusSteps files ∅ !! j = Some s2 ->
     line s1 = Some r1 -> line s2 = Some r2 ->
     is_Some (Spec.usageOf r1) ->
     Spec.idPair r1 = Some p -> Spec.idPair r2 = Some p ->
     pushed s2 = None /\
     (is_Some (pushed s1) <->
      (Spec.hashOfPair p ∉ hashesBefore s1) /\ ~ Spec.zeroUsage r1) /\
     (List.length (entriesOf [s1; s2]) <= 1)%nat) /\
  (forall (i : nat) (s : Step) (r : JsonlEntry.t),
     corpusSteps files ∅ !! i = Some s -> line s = Some r ->
     is_Some (Spec.usageOf r) -> Spec.idPair r = None ->
     hashSet (line s) = ∅ /\
     (is_Some (pushed s) <-> ~ Spec.zeroUsage r)).
Proof.
  clear laws collator.
  pose proof (corpusSteps_chain files ∅) as Hc.
  split; [by rewrite parseFiles_steps|]. split.
  - intros i j s1 s2 r1 r2 p Hlt Hi Hj Hl1 Hl2 Hu1 Hp1 Hp2.
    destruct (chain_lookup _ _ _ _ Hc Hi) as [Hok1 _].
    destruct (chain_lookup _ _ _ _ Hc Hj) as [Hok2 _].
    pose proof (chain_lookup_lt _ _ _ _ _ _ Hc Hlt Hi Hj) as Hsub.
    pose proof (lineHash_of_idPair r1 p Hu1 Hp1) as Hh1.
    destruct (step_pushed s1 r1 Hok1 Hl1) as (_ & Hdup1 & Hzero1 & Hsome1).
    destruct (step_pushed s2 r2 Hok2 Hl2) as (Hnone2 & Hdup2 & _ & _).
    assert (Hp : pushed s2 = None).
    { destruct (Spec.usageOf r2) as [mu|] eqn:Hu2; [|by apply Hnone2].
      apply (Hdup2 (Spec.hashOfPair p)).
      - apply lineHash_of_idPair; [by rewrite Hu2 | exact Hp2].
      - apply Hsub. unfold hashSet. rewrite Hl1, Hh1. set_solver. }
    split; [exact Hp|]. split.
    + split.
      * intros [e He]. split.
        -- intros Hin. rewrite (Hdup1 _ Hh1 Hin) in He. discriminate.
        -- intros Hz. rewrite (Hzero1 Hz) in He. discriminate.
      * intros [Hfresh Hnz]. apply Hsome1; [exact Hu1| |exact Hnz].
        intros hash Hh. rewrite Hh1 in Hh. by injection Hh as <-.
    + unfold entriesOf. simpl. rewrite Hp. destruct (pushed s1); simpl; lia.
  - intros i s r Hi Hl Hu Hp.
    destruct (chain_lookup _ _ _ _ Hc Hi) as [Hok _].
    pose proof (lineHash_without_idPair r Hp) as Hh.
    destruct (step_pushed s r Hok Hl) as (_ & _ & Hzero & Hsome).
    split; [unfold hashSet; by rewrite Hl, Hh|]. split.
    + intros [e He] Hz. rewrite (Hzero Hz) in He. discriminate.
    + intros Hnz. apply Hsome; [exact Hu| |exact Hnz].
      intros hash Hh'. rewrite Hh in Hh'. discriminate.
Qed.

Lemma dedup_by_id_pair_witness :
  (pushed Samples.oneFile_step2 = None /\
   (is_Some (pushed Samples.oneFile_step1) <->
    ("m1:r1" ∉ hashesBefore Samples.oneFile_step1) /\ ~ Spec.zeroUsage Samples.rec1) /\
   (List.length (entriesOf [Samples.oneFile_step1; Samples.oneFile_step2]) <= 1)%nat) /\
  (hashSet (line Samples.oneFile_step3) = ∅ /\
   (is_Some (pushed Samples.oneFile_step3) <-> ~ Spec.zeroUsage Samples.recNoId)).
Proof.
  split.
  - apply (proj1 (proj2 (dedup_by_id_pair Samples.oneFile)) 0%nat 1%nat
             Samples.oneFile_step1 Samples.oneFile_step2
             Samples.rec1 Samples.rec1 ("m1", "r1")).
    + lia.
    + vm_compute. reflexivity.
    + vm_compute. reflexivity.
    + reflexivity.
    + reflexivity.
    + by eexists.
    + reflexivity.
    + reflexivity.
  - apply (proj2 (proj2 (dedup_by_id_pair Samples.oneFile)) 2%nat
             Samples.oneFile_step3 Samples.recNoId).
    + vm_compute. reflexivity.
    + reflexivity.
    + by eexists.
    + reflexivity.
Defined.

(** C2, as the specification states it, fails: two copies of a record
    with both ids and all-zero usage yield no entry between them. *)
Lemma dedup_exactly_one_fails : ~ Spec.dedupExactlyOne.
Proof.
  intros H.
  set (files := [Samples.mkLogFile "s1" [Some Samples.rec0; Some Samples.rec0]]).
  set (s1 := {| line := Some Samples.rec0; hashesBefore := ∅; pushed := None |}).
  set (s2 := {| line := Some Samples.rec0; hashesBefore := {[ "m1:r1" ]};
                pushed := None |}).
  assert (Hrun : corpusSteps files ∅ = [s1; s2]) by (vm_compute; reflexivity).
  specialize (H files 0%nat 1%nat s1 s2 Samples.rec0 Samples.rec0 ("m1", "r1")).
  rewrite Hrun in H.
  specialize (H ltac:(lia) eq_refl eq_refl eq_refl eq_refl eq_refl eq_refl).
  discriminate H.
Qed.

(** * Further properties *)

(** ** Pricing: case and sign *)

Lemma lowerAscii_idem (c : ascii) : lowerAscii (lowerAscii c) = lowerAscii c.
Proof. destruct c as [[] [] [] [] [] [] [] []]; reflexivity. Qed.

Lemma toLowerCase_idem (s : string) : toLowerCase (toLowerCase s) = toLowerCase s.
Proof.
  induction s as [|c s IH]; simpl; [reflexivity|].
  by rewrite lowerAscii_idem, IH.
Qed.

(** X1. Pricing does not depend on the case of the ASCII letters of the
    model name: a name and its lower-case form resolve to the same tier
    and cost the same. *)
Theorem pricing_ignores_case (model : string) (i o cc cr : Z) :
  getModelTier (toLowerCase model) = getModelTier model /\
  getModelPricing (toLowerCase model) = getModelPricing model /\
  calculateCost (toLowerCase model) i o cc cr = calculateCost model i o cc cr.
Proof.
  assert (Ht : getModelTier (toLowerCase model) = getModelTier model).
  { unfold getModelTier. by rewrite toLowerCase_idem. }
  unfold calculateCost, getModelPricing. by rewrite Ht.
Qed.

Example pricing_ignores_case_ex :
  getModelTier "CLAUDE-OPUS-4-1-20250301" = Some opus_4_1 /\
  toLowerCase "Claude-Haiku-4.5" = "claude-haiku-4.5".
Proof. vm_compute. split; reflexivity. Qed.

Lemma PRICING_positive (t : Tier) :
  (0 < input (PRICING t) /\ 0 < output (PRICING t) /\
   0 < cacheWrite (PRICING t) /\ 0 < cacheRead (PRICING t))%Q.
Proof. destruct t; repeat split; reflexivity. Qed.

Lemma calculateCost_resolved (model : string) (t : Tier) (i o cc cr : Z) :
  getModelTier model = Some t ->
  (calculateCost model i o cc cr ==
   inject_Z i * (input (PRICING t) / 1000000) +
   inject_Z o * (output (PRICING t) / 1000000) +
   inject_Z cc * (cacheWrite (PRICING t) / 1000000) +
   inject_Z cr * (cacheRead (PRICING t) / 1000000))%Q.
Proof.
  intros Ht. unfold calculateCost, getModelPricing. rewrite Ht. simpl. field.
Qed.

Lemma calculateCost_unresolved (model : string) (i o cc cr : Z) :
  getModelTier model = None -> calculateCost model i o cc cr = 0%Q.
Proof. intros Ht. unfold calculateCost, getModelPricing. by rewrite Ht. Qed.

(** X2. The cost grows with the token counts: counts that are each at
    least as large cost at least as much; in particular the cost of
    non-negative counts is not negative. *)
Theorem calculateCost_monotone (model : string) (i o cc cr i' o' cc' cr' : Z) :
  i <= i' -> o <= o' -> cc <= cc' -> cr <= cr' ->
  (calculateCost model i o cc cr <= calculateCost model i' o' cc' cr')%Q /\
  (0 <= i -> 0 <= o -> 0 <= cc -> 0 <= cr ->
   (0 <= calculateCost model i o cc cr)%Q).
Proof.
  intros Hi Ho Hcc Hcr.
  destruct (getModelTier model) as [t|] eqn:Ht.
  - rewrite !(calculateCost_resolved model t) by exact Ht.
    destruct (PRICING_positive t) as (Hp1 & Hp2 & Hp3 & Hp4).
    assert (Hd : forall p : Q, (0 < p -> 0 < p / 1000000)%Q).
    { intros p Hp. apply Qlt_shift_div_l; [reflexivity | lra]. }
    apply Hd in Hp1, Hp2, Hp3, Hp4.
    assert (Hm : forall (a b : Z) (p : Q), a <= b -> (0 < p)%Q ->
                 (inject_Z a * p <= inject_Z b * p)%Q).
    { intros a b p Hab Hp. apply Qmult_le_compat_r; [|lra].
      by rewrite <- Zle_Qle. }
    split.
    + pose proof (Hm _ _ _ Hi Hp1). pose proof (Hm _ _ _ Ho Hp2).
      pose proof (Hm _ _ _ Hcc Hp3). pose proof (Hm _ _ _ Hcr Hp4). lra.
    + intros H0i H0o H0cc H0cr.
      pose proof (Hm _ _ _ H0i Hp1). pose proof (Hm _ _ _ H0o Hp2).
      pose proof (Hm _ _ _ H0cc Hp3). pose proof (Hm _ _ _ H0cr Hp4).
      change (inject_Z 0) with 0%Q in *. lra.
  - rewrite !(calculateCost_unresolved model) by exact Ht. split; [lra|intros; lra].
Qed.

Lemma calculateCost_monotone_witness :
  (calculateCost "claude-haiku-3" 10 0 5 0 <= calculateCost "claude-haiku-3" 12 0 5 7)%Q /\
  (0 <= 10 -> 0 <= 0 -> 0 <= 5 -> 0 <= 0 ->
   (0 <= calculateCost "claude-haiku-3" 10 0 5 0)%Q).
Proof. apply calculateCost_monotone; lia. Defined.

(** ** Substrings *)

Lemma prefix_app (p post : string) : String.prefix p (p +:+ post) = true.
Proof.
  induction p as [|c p IH]; simpl; [by destruct post|].
  destruct (ascii_dec c c); [exact IH | done].
Qed.

Lemma prefix_inv (p s : string) :
  String.prefix p s = true -> exists post, s = p +:+ post.
Proof.
  revert s. induction p as [|c p IH]; intros s; [by exists s|].
  destruct s as [|d s]; simpl; [done|].
  destruct (ascii_dec c d) as [->|]; [|done].
  intros [post ->]%IH. by exists post.
Qed.

Lemma includes_nil (pat : string) : includes "" pat = String.prefix pat "".
Proof. simpl. apply orb_false_r. Qed.

Lemma includes_cons (c : ascii) (s pat : string) :
  includes (String c s) pat = String.prefix pat (String c s) || includes s pat.
Proof. reflexivity. Qed.

(** [s.includes(pat)] holds exactly when [pat] occurs in [s]. *)
Lemma includes_spec (s pat : string) :
  includes s pat = true <-> exists pre post, s = pre +:+ pat +:+ post.
Proof.
  split.
  - induction s as [|c s IH].
    + rewrite includes_nil. intros [post Hp]%prefix_inv. by exists "", post.
    + rewrite includes_cons. intros [Hp|Hi]%orb_true_iff.
      * apply prefix_inv in Hp as [post Hp]. by exists "", post.
      * destruct (IH Hi) as (pre & post & ->). by exists (String c pre), post.
  - intros (pre & post & ->). induction pre as [|c pre IH].
    + change ("" +:+ pat +:+ post) with (pat +:+ post).
      destruct (pat +:+ post) as [|d r] eqn:He.
      * rewrite includes_nil, <- He. apply prefix_app.
      * rewrite includes_cons, <- He, prefix_app. done.
    + change (String c pre +:+ pat +:+ post)
        with (String c (pre +:+ pat +:+ post)).
      rewrite includes_cons, IH. apply orb_true_r.
Qed.

Lemma append_cons (x : ascii) (a b : string) :
  String x a +:+ b = String x (a +:+ b).
Proof. reflexivity. Qed.

Lemma append_assoc (a b c : string) : (a +:+ b) +:+ c = a +:+ (b +:+ c).
Proof.
  induction a as [|x a IH]; [done|]. by rewrite !append_cons, IH.
Qed.

(** A string that contains a pattern contains the ends of the pattern. *)
Lemma includes_app_r (s a b : string) :
  includes s (a +:+ b) = true -> includes s b = true.
Proof.
  rewrite !includes_spec. intros (pre & post & ->).
  exists (pre +:+ a), post. by rewrite !append_assoc.
Qed.

Lemma includes_claude (s pat : string) :
  includes s pat = false -> includes s ("claude-" +:+ pat) = false.
Proof.
  intros Hf. destruct (includes s ("claude-" +:+ pat)) eqn:Ht; [|done].
  apply includes_app_r in Ht. congruence.
Qed.

(** ** Display names *)

(** X4. On the Opus tiers, the Sonnet 4 tiers and Haiku 4.5 the display
    name follows the pricing: a model name that resolves to one of these
    tiers is displayed with the label of the tier. *)
Theorem getModelDisplayName_of_labelled_tier (model : string) (tier : Tier) :
  getModelTier model = Some tier -> In tier Views.labelledTiers ->
  getModelDisplayName model = tierLabel tier.
Proof.
  unfold getModelTier, getModelDisplayName. cbv zeta.
  generalize (toLowerCase model). intros l Ht Hin.
  repeat match type of Ht with
  | context [includes l ?p] =>
      let E := fresh "E" in
      destruct (includes l p) eqn:E; cbn [orb] in Ht |- *;
      [ first
          [ injection Ht as <-;
            first [ reflexivity | exfalso; simpl in Hin; intuition discriminate ]
          | exfalso;
            match type of E with
            | includes l ?q = true =>
                match goal with
                | F : includes l ?r = false |- _ =>
                    apply (includes_claude l r) in F; cbv [String.append] in F; congruence
                end
            end ]
      | ]
  end.
  discriminate.
Qed.

Lemma getModelDisplayName_of_labelled_tier_witness :
  getModelDisplayName "us.anthropic.claude-sonnet-4-20250514-v1:0"
  = tierLabel sonnet_4.
Proof.
  apply getModelDisplayName_of_labelled_tier.
  - vm_compute. reflexivity.
  - simpl. tauto.
Defined.

(** X5. The display name of a model is the name itself or the label of
    a tier, and it is the name itself whenever the name resolves to no
    pricing tier. *)
Theorem getModelDisplayName_range (model : string) :
  (getModelDisplayName model = model \/
   exists tier, getModelDisplayName model = tierLabel tier) /\
  (getModelTier model = None -> getModelDisplayName model = model).
Proof.
  split; [|apply getModelDisplayName_unresolved].
  unfold getModelDisplayName. cbv zeta. generalize (toLowerCase model). intros l.
  repeat match goal with
  | |- context [includes l ?p] =>
      destruct (includes l p); cbn [orb];
      [ right;
        first [ by exists opus_4_5 | by exists opus_4_1 | by exists opus_4
              | by exists opus_3 | by exists sonnet_4_5 | by exists sonnet_4
              | by exists sonnet_3_7 | by exists sonnet_3_5 | by exists haiku_4_5
              | by exists haiku_3_5 | by exists haiku_3 ]
      | ]
  end.
  by left.
Qed.

Lemma getModelDisplayName_range_witness :
  getModelDisplayName "gpt-4o" = "gpt-4o".
Proof.
  apply (proj2 (getModelDisplayName_range "gpt-4o")). vm_compute. reflexivity.
Defined.

(** ** The order of the files and of the entries *)

Lemma strLe_refl (a : string) : strLe a a.
Proof.
  unfold strLe. pose proof (String.compare_antisym a a) as H.
  destruct (String.compare a a); simpl in H; congruence.
Qed.

(** X6. The list that [getAllUsageEntries] returns is sorted by
    timestamp in the order of [localeCompare], earliest first, and holds
    the entries that the parse of the files in processing order pushed,
    each as often as it was pushed.  (The records are those of the
    [JsonlEntry] type, which have a timestamp.) *)
Theorem getAllUsageEntries_sorted (projectsDir : option (list Dirent)) :
  StronglySorted
    (fun a b => collLe (UsageEntry.timestamp a) (UsageEntry.timestamp b))
    (getAllUsageEntries projectsDir) /\
  getAllUsageEntries projectsDir ≡ₚ
    match projectsDir with
    | None => []
    | Some projectFolders =>
        fst (parseFiles (processingOrder projectFolders) [] ∅)
    end.
Proof using laws.
  destruct projectsDir as [projectFolders|]; simpl; [|split; [constructor|done]].
  split.
  - by apply (sort_StronglySorted_by_key UsageEntry.timestamp).
  - apply sort_Permutation.
Qed.

(** X7. The files are parsed in the order in which [localeCompare] puts
    their first timestamps (the empty string for a file that has none),
    and every discovered file is parsed exactly once. *)
Theorem processingOrder_sorted (projectFolders : list Dirent) :
  StronglySorted (fun a b => collLe (Views.fileKey a) (Views.fileKey b))
    (processingOrder projectFolders) /\
  processingOrder projectFolders ≡ₚ collectFiles projectFolders.
Proof using laws.
  split.
  - by apply (sort_StronglySorted_by_key Views.fileKey).
  - apply sort_Permutation.
Qed.

Lemma firstTimestampIn_Some (lines : list Line) (ts : string) :
  firstTimestampIn lines = Some ts <->
  exists (i : nat) (entry : JsonlEntry.t),
    lines !! i = Some (Some entry) /\ JsonlEntry.timestamp entry = ts /\
    ts <> "" /\
    forall (j : nat) (e : JsonlEntry.t),
      (j < i)%nat -> lines !! j = Some (Some e) -> JsonlEntry.timestamp e = "".
Proof.
  induction lines as [|[entry|] lines IH]; simpl.
  - split; [done|]. by intros (i & entry & Hi & _).
  - unfold nonEmpty. destruct (String.eqb_spec (JsonlEntry.timestamp entry) "") as [He|Hne];
      simpl.
    + rewrite IH. split.
      * intros (i & e & Hi & Hts & Hne & Hbefore). exists (S i), e.
        repeat split; [done..|]. intros [|j] e' Hj; simpl.
        -- by intros [= <-].
        -- apply Hbefore. lia.
      * intros ([|i] & e & Hi & Hts & Hne & Hbefore); simpl in Hi.
        -- injection Hi as <-. congruence.
        -- exists i, e. repeat split; [done..|]. intros j e' Hj Hl.
           apply (Hbefore (S j) e'); [lia | done].
    + split.
      * intros [= <-]. exists 0%nat, entry. repeat split; [done|]. intros j e Hj. lia.
      * intros ([|i] & e & Hi & Hts & Hne' & Hbefore); simpl in Hi.
        -- by injection Hi as <-; subst.
        -- exfalso. apply Hne. apply (Hbefore 0%nat entry); [lia | done].
  - rewrite IH. split.
    + intros (i & e & Hi & Hts & Hne & Hbefore). exists (S i), e.
      repeat split; [done..|]. intros [|j] e' Hj; simpl; [done|].
      apply Hbefore. lia.
    + intros ([|i] & e & Hi & Hts & Hne & Hbefore); simpl in Hi; [done|].
      exists i, e. repeat split; [done..|]. intros j e' Hj Hl.
      apply (Hbefore (S j) e'); [lia | done].
Qed.

(** X8. [getFirstTimestamp] gives the timestamp of the first record with
    a non-empty timestamp among the first ten lines of the file, and only
    that: records from the eleventh line on are not looked at. *)
Theorem getFirstTimestamp_Some (file : LogFile) (ts : string) :
  getFirstTimestamp file = Some ts <->
  exists (lines : list Line) (i : nat) (entry : JsonlEntry.t),
    content file = Some lines /\ (i < 10)%nat /\
    lines !! i = Some (Some entry) /\ JsonlEntry.timestamp entry = ts /\
    ts <> "" /\
    forall (j : nat) (e : JsonlEntry.t),
      (j < i)%nat -> lines !! j = Some (Some e) -> JsonlEntry.timestamp e = "".
Proof.
  unfold getFirstTimestamp. destruct (content file) as [lines|].
  - rewrite firstTimestampIn_Some. split.
    + intros (i & entry & Hi & Hts & Hne & Hbefore).
      apply lookup_take_Some in Hi as [Hi Hlt].
      exists lines, i, entry. repeat split; [done..|].
      intros j e Hj Hl. apply (Hbefore j e Hj).
      apply lookup_take_Some. split; [done | lia].
    + intros (lines' & i & entry & [= <-] & Hlt & Hi & Hts & Hne & Hbefore).
      exists i, entry. repeat split; [by apply lookup_take_Some|done..|].
      intros j e Hj [Hl _]%lookup_take_Some. by apply (Hbefore j e).
  - split; [done|]. by intros (lines & i & entry & ? & _).
Qed.

Example getFirstTimestamp_ex :
  getFirstTimestamp {| dirName := "s"; content := Some (replicate 10 None ++ [Some Samples.rec1]) |}
    = None /\
  getFirstTimestamp {| dirName := "s"; content := Some (replicate 9 None ++ [Some Samples.rec1]) |}
    = Some "2025-01-02T10:00:00.000Z".
Proof. split; reflexivity. Qed.

(** ** Files of the corpus *)

Lemma parseFiles_app (a b : list (LogFile * string))
    (allEntries : list UsageEntry.t) (hashes : gset string) :
  parseFiles (a ++ b) allEntries hashes
  = parseFiles b (fst (parseFiles a allEntries hashes))
      (snd (parseFiles a allEntries hashes)).
Proof.
  revert allEntries hashes.
  induction a as [|[file name] a IH]; intros allEntries hashes; simpl; [done|].
  destruct (parseJsonlFile file name hashes) as [entries hashes']. apply IH.
Qed.

(** X9. A file that cannot be read contributes nothing and does not
    disturb the parse of the others: the entries and the set of hashes
    are those of the corpus without the file. *)
Theorem unreadable_file_is_skipped (a b : list (LogFile * string))
    (file : LogFile) (projectName : string)
    (allEntries : list UsageEntry.t) (hashes : gset string) :
  content file = None ->
  parseJsonlFile file projectName hashes = ([], hashes) /\
  parseFiles (a ++ (file, projectName) :: b) allEntries hashes
  = parseFiles (a ++ b) allEntries hashes.
Proof.
  intros Hc.
  assert (Hf : parseJsonlFile file projectName hashes = ([], hashes)).
  { unfold parseJsonlFile. by rewrite Hc. }
  split; [exact Hf|].
  rewrite !parseFiles_app. simpl.
  unfold parseJsonlFile. rewrite Hc. by rewrite app_nil_r.
Qed.

Lemma unreadable_file_is_skipped_witness :
  parseJsonlFile Samples2.unreadableFile "-proj-a" ∅ = ([], ∅) /\
  parseFiles ([(Samples2.idFile, "-proj-a")] ++
              (Samples2.unreadableFile, "-proj-a") :: [(Samples2.lateCwdFile, "-proj-b")])
    [] ∅
  = parseFiles ([(Samples2.idFile, "-proj-a")] ++ [(Samples2.lateCwdFile, "-proj-b")])
      [] ∅.
Proof. by apply unreadable_file_is_skipped. Defined.

(** ** The lines of a run *)

Lemma lineSteps_lines (sessionId encodedProjectName : string)
    (lines : list Line) (st : ParseState) :
  line <$> fst (lineSteps sessionId encodedProjectName lines st) = lines.
Proof.
  revert st. induction lines as [|l lines IH]; intros st; simpl; [done|].
  destruct (processLine sessionId encodedProjectName st l) as [st' out].
  specialize (IH st').
  destruct (lineSteps sessionId encodedProjectName lines st') as [steps final].
  simpl in *. f_equal. exact IH.
Qed.

Lemma fileSteps_lines (file : LogFile) (encodedProjectName : string)
    (hashes : gset string) :
  line <$> fst (fileSteps file encodedProjectName hashes)
  = default [] (content file).
Proof.
  unfold fileSteps. destruct (content file) as [lines|]; [|done].
  pose proof (lineSteps_lines (dirName file) encodedProjectName lines
                {| actualProjectPath := None; processedHashes := hashes |}) as H.
  by destruct (lineSteps _ _ _ _) as [steps final].
Qed.

Lemma corpusSteps_lines (files : list (LogFile * string)) (hashes : gset string) :
  line <$> corpusSteps files hashes = Views.allLines files.
Proof.
  revert hashes. induction files as [|[file name] files IH]; intros hashes;
    simpl; [done|].
  pose proof (fileSteps_lines file name hashes) as H.
  destruct (fileSteps file name hashes) as [steps hashes'].
  simpl in H. unfold Views.allLines in *. simpl.
  by rewrite fmap_app, H, IH.
Qed.

Lemma parseFiles_hashes (files : list (LogFile * string))
    (allEntries : list UsageEntry.t) (hashes : gset string) :
  snd (parseFiles files allEntries hashes)
  = chainEnd hashes (corpusSteps files hashes).
Proof.
  revert allEntries hashes.
  induction files as [|[file name] files IH]; intros allEntries hashes; simpl;
    [done|].
  rewrite parseJsonlFile_steps.
  pose proof (fileSteps_chain file name hashes) as H.
  destruct (fileSteps file name hashes) as [steps hashes']. simpl.
  destruct H as [_ ->]. by rewrite IH, chainEnd_app.
Qed.

Lemma chainEnd_elem (hashes : gset string) (steps : list Step) (s : Step) :
  s ∈ steps -> hashSet (line s) ⊆ chainEnd hashes steps.
Proof.
  revert hashes. induction steps as [|s0 steps IH]; intros hashes Hin;
    [by apply not_elem_of_nil in Hin|].
  simpl. apply elem_of_cons in Hin as [->|Hin]; [|by apply IH].
  etrans; [|apply chainEnd_mono]. apply union_subseteq_r.
Qed.

Lemma entriesOf_nil (steps : list Step) :
  Forall (fun s => pushed s = None) steps -> entriesOf steps = [].
Proof.
  unfold entriesOf. induction 1 as [|s steps Hs _ IH]; simpl; [done|].
  by rewrite Hs.
Qed.

(** X10. Parsing a corpus a second time in the same run adds no entry,
    provided every record with a usage block carries both ids: each of
    them finds its key in the set. *)
Theorem reparse_adds_nothing (files : list (LogFile * string))
    (hashes : gset string) :
  Forall Views.keyed (Views.allLines files) ->
  fst (parseFiles (files ++ files) [] hashes) = fst (parseFiles files [] hashes).
Proof.
  clear laws collator.
  intros Hkeyed. rewrite parseFiles_app, parseFiles_steps, parseFiles_hashes.
  rewrite (parseFiles_steps files [] hashes). simpl.
  set (H1 := chainEnd hashes (corpusSteps files hashes)).
  rewrite (entriesOf_nil (corpusSteps files H1)); [by rewrite app_nil_r|].
  apply Forall_forall. intros s Hs.
  pose proof (corpusSteps_chain files H1) as Hc.
  apply list_elem_of_lookup in Hs as [i Hi].
  destruct (chain_lookup _ _ _ _ Hc Hi) as [Hok Hsub].
  assert (Hl : line s ∈ Views.allLines files).
  { rewrite <- (corpusSteps_lines files H1). apply list_elem_of_fmap.
    exists s. split; [done|]. by eapply list_elem_of_lookup_2. }
  assert (Hcov : hashSet (line s) ⊆ H1).
  { rewrite <- (corpusSteps_lines files hashes) in Hl.
    apply list_elem_of_fmap in Hl as (s' & Hls & Hs'). rewrite Hls.
    by apply chainEnd_elem. }
  destruct (line s) as [r|] eqn:Hline.
  - destruct (step_pushed s r Hok Hline) as (Hnone & Hdup & _ & _).
    destruct (Spec.usageOf r) as [mu|] eqn:Hu; [|by apply Hnone].
    rewrite Forall_forall in Hkeyed.
    destruct (Hkeyed _ Hl r eq_refl) as [p Hp]; [by rewrite Hu|].
    assert (Hh : lineHash (Some r) = Some (Spec.hashOfPair p)).
    { apply lineHash_of_idPair; [by rewrite Hu | done]. }
    apply (Hdup _ Hh). apply Hsub, Hcov. unfold hashSet. rewrite Hh. set_solver.
  - destruct Hok as (sid & enc & path & Hp). by rewrite Hp, Hline.
Qed.

Lemma reparse_adds_nothing_witness :
  fst (parseFiles ([(Samples2.idFile, "-proj-a")] ++ [(Samples2.idFile, "-proj-a")]) [] ∅)
  = fst (parseFiles [(Samples2.idFile, "-proj-a")] [] ∅).
Proof.
  apply reparse_adds_nothing. unfold Views.allLines. simpl.
  repeat constructor; intros r [= <-] _; by eexists.
Defined.

(** ** The project path of the entries of a file *)

Lemma processLine_pushed_path (sessionId encodedProjectName : string)
    (st : ParseState) (l : Line) (e : UsageEntry.t) :
  snd (processLine sessionId encodedProjectName st l) = Some e ->
  UsageEntry.projectPath e
  = default encodedProjectName
      (actualProjectPath (fst (processLine sessionId encodedProjectName st l))).
Proof.
  assert (Hb : forall path entry msg usage,
    buildEntry sessionId encodedProjectName path entry msg usage = Some e ->
    UsageEntry.projectPath e = default encodedProjectName path).
  { intros path entry msg usage. unfold buildEntry.
    destruct (_ && _); [done|]. by intros [= <-]. }
  unfold processLine. destruct l as [entry|]; simpl; [|done].
  destruct (JsonlEntry.message entry) as [msg|]; simpl; [|done].
  destruct (JsonlEntry.usage msg) as [usage|]; simpl; [|done].
  destruct (dedupHash entry msg) as [hash|]; simpl.
  - case_bool_decide; simpl; [done|]. apply Hb.
  - apply Hb.
Qed.

Lemma processLine_path (sessionId encodedProjectName : string)
    (st : ParseState) (l : Line) :
  actualProjectPath (fst (processLine sessionId encodedProjectName st l))
  = match l with
    | Some entry =>
        if negb (truthy (actualProjectPath st)) && truthy (JsonlEntry.cwd entry)
        then JsonlEntry.cwd entry else actualProjectPath st
    | None => actualProjectPath st
    end.
Proof.
  unfold processLine. destruct l as [entry|]; simpl; [|done].
  destruct (JsonlEntry.message entry) as [msg|]; simpl; [|done].
  destruct (JsonlEntry.usage msg) as [usage|]; simpl; [|done].
  destruct (dedupHash entry msg) as [hash|]; simpl; [|done].
  by case_bool_decide.
Qed.

Lemma lineSteps_projectPath (sessionId encodedProjectName : string)
    (lines : list Line) (st : ParseState) (i : nat) (s : Step) (e : UsageEntry.t) :
  Views.pathOk (actualProjectPath st) ->
  fst (lineSteps sessionId encodedProjectName lines st) !! i = Some s ->
  pushed s = Some e ->
  UsageEntry.projectPath e
  = default encodedProjectName
      (match actualProjectPath st with
       | Some p => Some p
       | None => Views.firstCwd (take (S i) lines)
       end).
Proof.
  revert st i s. induction lines as [|l lines IH]; intros st i s Hok; simpl; [done|].
  pose proof (processLine_pushed_path sessionId encodedProjectName st l) as Hpush.
  pose proof (processLine_path sessionId encodedProjectName st l) as Hpath.
  destruct (processLine sessionId encodedProjectName st l) as [st' out].
  simpl in Hpush, Hpath.
  specialize (IH st').
  destruct (lineSteps sessionId encodedProjectName lines st') as [steps final].
  simpl in *.
  assert (Hcase :
    match actualProjectPath st with
    | Some p => actualProjectPath st' = Some p
    | None =>
        actualProjectPath st' = Views.firstCwd [l] /\
        Views.pathOk (actualProjectPath st')
    end).
  { rewrite Hpath. destruct Hok as [Hnone|Htrue].
    - rewrite Hnone. simpl. destruct l as [entry|]; simpl; [|by split; [|left]].
      destruct (truthy (JsonlEntry.cwd entry)) eqn:Hc; [by split; [|right]|].
      by split; [|left].
    - destruct (actualProjectPath st) as [p|]; [|done].
      rewrite Htrue. simpl. by destruct l. }
  destruct i as [|i]; simpl.
  - intros [= <-] Hp. simpl in Hp. rewrite (Hpush e Hp).
    destruct (actualProjectPath st) as [p|]; [by rewrite Hcase|].
    by destruct Hcase as [-> _].
  - intros Hi Hp.
    assert (Hok' : Views.pathOk (actualProjectPath st')).
    { destruct (actualProjectPath st) as [p|]; [|by destruct Hcase].
      rewrite Hcase. destruct Hok as [|Ht]; [done|]. by right. }
    rewrite (IH i s Hok' Hi Hp).
    destruct (actualProjectPath st) as [p|]; [by rewrite Hcase|].
    destruct Hcase as [Hst' _]. rewrite Hst'.
    destruct l as [entry|]; simpl; [|done].
    destruct (JsonlEntry.cwd entry) as [c|]; simpl; [|done].
    by destruct (nonEmpty c).
Qed.

Lemma firstCwd_take_mono (lines : list Line) (n m : nat) (p : string) :
  (n <= m)%nat -> Views.firstCwd (take n lines) = Some p ->
  Views.firstCwd (take m lines) = Some p.
Proof.
  revert n m. induction lines as [|l lines IH]; intros n m Hnm.
  - by rewrite !take_nil.
  - destruct n as [|n]; [done|]. destruct m as [|m]; [lia|]. simpl.
    destruct l as [entry|]; [|apply IH; lia].
    destruct (truthy (JsonlEntry.cwd entry)); [done|]. apply IH. lia.
Qed.

(** X11. The entry pushed for line [i] of a file has as project path the
    first working directory among the lines up to [i], and the name of
    the project folder when there is none; once a line has given the
    working directory it is the same for all later lines of the file. *)
Theorem projectPath_of_file_entries (file : LogFile) (encodedProjectName : string)
    (hashes : gset string) (lines : list Line) :
  content file = Some lines ->
  fst (parseJsonlFile file encodedProjectName hashes)
  = entriesOf (fst (fileSteps file encodedProjectName hashes)) /\
  (forall (i : nat) (s : Step) (e : UsageEntry.t),
     fst (fileSteps file encodedProjectName hashes) !! i = Some s ->
     pushed s = Some e ->
     lines !! i = Some (line s) /\
     UsageEntry.projectPath e
     = default encodedProjectName (Views.firstCwd (take (S i) lines))) /\
  (forall (n m : nat) (p : string),
     (n <= m)%nat -> Views.firstCwd (take n lines) = Some p ->
     Views.firstCwd (take m lines) = Some p).
Proof.
  intros Hc. split; [by rewrite parseJsonlFile_steps|].
  split; [|intros n m p; apply firstCwd_take_mono].
  intros i s e Hi Hp.
  pose proof (fileSteps_lines file encodedProjectName hashes) as Hl.
  unfold fileSteps in *. rewrite Hc in *. simpl in Hl.
  pose proof (lineSteps_projectPath (dirName file) encodedProjectName lines
                {| actualProjectPath := None; processedHashes := hashes |}
                i s e) as Hpath.
  destruct (lineSteps _ _ _ _) as [steps final]. simpl in *.
  split.
  - rewrite <- Hl. rewrite list_lookup_fmap, Hi. done.
  - apply Hpath; [by left | done | done].
Qed.

Lemma projectPath_of_file_entries_witness :
  UsageEntry.projectPath <$>
    fst (parseJsonlFile Samples2.lateCwdFile "-proj-x" ∅)
  = ["-proj-x"; "/proj/a"; "/proj/a"] /\
  (forall (n m : nat) (p : string),
     (n <= m)%nat ->
     Views.firstCwd (take n (default [] (content Samples2.lateCwdFile))) = Some p ->
     Views.firstCwd (take m (default [] (content Samples2.lateCwdFile))) = Some p).
Proof.
  split; [vm_compute; reflexivity|].
  apply (projectPath_of_file_entries Samples2.lateCwdFile "-proj-x" ∅). reflexivity.
Defined.

(** ** Composition of the time range filter *)

Lemma filter_filter_imp {A : Type} (p q : A -> bool) (l : list A) :
  (forall x, p x = true -> q x = true) ->
  List.filter p (List.filter q l) = List.filter p l.
Proof.
  intros Hpq. induction l as [|x l IH]; simpl; [done|].
  destruct (q x) eqn:Hq; simpl.
  - by rewrite IH.
  - destruct (p x) eqn:Hp; [|done]. apply Hpq in Hp. congruence.
Qed.

(** X12. Filtering is idempotent for every range, and at a current time
    of the clock the 7-day filter applied to the 30-day result gives the
    7-day result: narrowing the range on filtered entries loses
    nothing. *)
Theorem filterByTimeRange_compose (parseDate : string -> option Z) (now : Z)
    (E : list UsageEntry.t) (range : TimeRange) :
  filterByTimeRange parseDate now (filterByTimeRange parseDate now E range) range
  = filterByTimeRange parseDate now E range /\
  (0 <= now <= 8640000000000000 ->
   filterByTimeRange parseDate now (filterByTimeRange parseDate now E Range30d) Range7d
   = filterByTimeRange parseDate now E Range7d).
Proof.
  split.
  - destruct range; simpl; try done; by apply filter_filter_imp.
  - intros Hnow. unfold filterByTimeRange.
    rewrite (timeClip_recent now 7), (timeClip_recent now 30) by lia.
    apply filter_filter_imp. intros entry. apply dateGe_weaken. lia.
Qed.

Lemma filterByTimeRange_compose_witness :
  let parseDate := fun s : string =>
    if String.eqb s "2025-01-03T08:00:00Z" then Some 1735891200000
    else if String.eqb s "2025-01-01T08:00:00Z" then Some 1735718400000
    else None in
  filterByTimeRange parseDate 1736409600000
    (filterByTimeRange parseDate 1736409600000 Samples.entries3 Range30d) Range7d
  = filterByTimeRange parseDate 1736409600000 Samples.entries3 Range7d.
Proof.
  cbv zeta. apply (filterByTimeRange_compose _ _ _ RangeAll). lia.
Defined.

(** ** Grouping loops on insertion-ordered maps *)

Section UpsertFacts.
Context {V : Type}.
Implicit Types (m : list (string * V)) (k : string) (v : V).

Lemma get_set_eq m k v : JsMap.get (JsMap.set m k v) k = Some v.
Proof.
  induction m as [|[k' v'] m IH]; simpl.
  - by rewrite String.eqb_refl.
  - destruct (String.eqb_spec k' k) as [->|Hne]; simpl.
    + by rewrite String.eqb_refl.
    + destruct (String.eqb_spec k' k); [done | exact IH].
Qed.

Lemma get_set_ne m k k' v :
  k <> k' -> JsMap.get (JsMap.set m k v) k' = JsMap.get m k'.
Proof.
  intros Hne. induction m as [|[k0 v0] m IH]; simpl.
  - by destruct (String.eqb_spec k k').
  - destruct (String.eqb_spec k0 k) as [->|Hne0]; simpl.
    + by destruct (String.eqb_spec k k').
    + by rewrite IH.
Qed.

Lemma get_upsert m k init f k' :
  JsMap.get (Views.upsert m k init f) k'
  = if String.eqb k k' then Some (f (default init (JsMap.get m k)))
    else JsMap.get m k'.
Proof.
  unfold Views.upsert, JsMap.update, JsMap.has.
  destruct (JsMap.get m k) as [v|] eqn:Hget; simpl.
  - rewrite Hget. destruct (String.eqb_spec k k') as [<-|Hne].
    + apply get_set_eq.
    + by apply get_set_ne.
  - rewrite get_set_eq. destruct (String.eqb_spec k k') as [<-|Hne].
    + apply get_set_eq.
    + by rewrite !get_set_ne.
Qed.

Lemma keys_upsert m k init f :
  JsMap.keys (Views.upsert m k init f)
  = if JsMap.has m k then JsMap.keys m else JsMap.keys m ++ [k].
Proof.
  unfold Views.upsert. rewrite keys_update. unfold JsMap.has.
  destruct (JsMap.get m k) eqn:Hget; [done|]. by apply keys_set_new.
Qed.

Lemma elem_of_keys_get m k : k ∈ JsMap.keys m <-> is_Some (JsMap.get m k).
Proof.
  induction m as [|[k' v] m IH]; simpl.
  - split; [by intros ?%not_elem_of_nil | by intros [? ?]].
  - rewrite elem_of_cons. destruct (String.eqb_spec k' k) as [->|Hne].
    + split; [by eexists | by left].
    + rewrite IH. split; [by intros [?|?] | by right].
Qed.

Lemma elem_of_map_get m k v :
  NoDup (JsMap.keys m) -> (k, v) ∈ m <-> JsMap.get m k = Some v.
Proof.
  induction m as [|[k' v'] m IH]; simpl.
  - intros _. split; [by intros ?%not_elem_of_nil | done].
  - intros [Hk Hnd]%NoDup_cons. rewrite elem_of_cons.
    destruct (String.eqb_spec k' k) as [->|Hne].
    + split.
      * intros [[= ->]|Hin]; [done|]. exfalso. apply Hk.
        apply list_elem_of_fmap. by exists (k, v).
      * intros [= ->]. by left.
    + rewrite <- (IH Hnd). split; [|by right].
      intros [[= -> ->]|Hin]; [done | exact Hin].
Qed.

Lemma elem_of_values_get m v :
  NoDup (JsMap.keys m) ->
  v ∈ JsMap.values m <-> exists k, JsMap.get m k = Some v.
Proof.
  intros Hnd. unfold JsMap.values. rewrite list_elem_of_fmap. split.
  - intros ([k v'] & -> & Hin). exists k. by apply elem_of_map_get.
  - intros [k Hget]. exists (k, v). split; [done|]. by apply elem_of_map_get.
Qed.

(** The loop that groups the elements of [es] by [key]. *)
Variables (E : Type) (key : E -> string) (init : E -> V) (f : E -> V -> V).

Local Abbreviation groupStep := (Views.groupStep key init f).

Lemma keys_groupStep_NoDup (es : list E) m :
  NoDup (JsMap.keys m) -> NoDup (JsMap.keys (foldl groupStep m es)).
Proof.
  revert m. induction es as [|e es IH]; intros m Hnd; simpl; [done|].
  apply IH. by apply keys_upsert_NoDup.
Qed.

Lemma get_foldl_groupStep (es : list E) m k :
  JsMap.get (foldl groupStep m es) k
  = foldl (fun o e => Some (f e (default (init e) o))) (JsMap.get m k)
      (List.filter (fun e => String.eqb (key e) k) es).
Proof.
  revert m. induction es as [|e es IH]; intros m; simpl; [done|].
  rewrite IH. unfold Views.groupStep at 1. rewrite get_upsert.
  destruct (String.eqb_spec (key e) k) as [<-|Hne]; done.
Qed.
End UpsertFacts.

(** ** Sums and groups of entries *)

Lemma sumQ_app (a b : list Q) :
  (Views.sumQ (a ++ b) == Views.sumQ a + Views.sumQ b)%Q.
Proof.
  induction a as [|x a IH]; simpl; [ring|]. rewrite IH. ring.
Qed.

Lemma sumZ_app (a b : list Z) :
  Views.sumZ (a ++ b) = Views.sumZ a + Views.sumZ b.
Proof. induction a as [|x a IH]; simpl; lia. Qed.

Lemma sumQ_Permutation (a b : list Q) :
  a ≡ₚ b -> (Views.sumQ a == Views.sumQ b)%Q.
Proof.
  induction 1 as [|x a b _ IH|x y a|a b c _ IH1 _ IH2]; simpl.
  - reflexivity.
  - by rewrite IH.
  - ring.
  - by rewrite IH1.
Qed.

Lemma sumZ_Permutation (a b : list Z) :
  a ≡ₚ b -> Views.sumZ a = Views.sumZ b.
Proof.
  induction 1 as [|x a b _ IH|x y a|a b c _ IH1 _ IH2]; simpl; lia.
Qed.

Lemma elem_of_entriesWith (key : UsageEntry.t -> string) (k : string)
    (es : list UsageEntry.t) (e : UsageEntry.t) :
  e ∈ Views.entriesWith key k es <-> e ∈ es /\ key e = k.
Proof.
  unfold Views.entriesWith. rewrite !list_elem_of_In, filter_In.
  by rewrite String.eqb_eq.
Qed.

Lemma entriesWith_nil (key : UsageEntry.t -> string) (k : string)
    (es : list UsageEntry.t) :
  Views.entriesWith key k es = [] <-> forall e, e ∈ es -> key e <> k.
Proof.
  split.
  - intros Hnil e He Hk.
    assert (Hin : e ∈ Views.entriesWith key k es) by by apply elem_of_entriesWith.
    rewrite Hnil in Hin. by apply not_elem_of_nil in Hin.
  - intros Hall. destruct (Views.entriesWith key k es) as [|e l] eqn:He; [done|].
    assert (Hin : e ∈ Views.entriesWith key k es) by (rewrite He; left).
    apply elem_of_entriesWith in Hin as [Hin Hk]. by destruct (Hall e Hin).
Qed.

(** The value of a group in the map that a grouping loop builds from the
    empty map. *)
Lemma get_group {V : Type} (key : UsageEntry.t -> string)
    (init : UsageEntry.t -> V) (f : UsageEntry.t -> V -> V)
    (es : list UsageEntry.t) (k : string) :
  JsMap.get (foldl (Views.groupStep key init f) [] es) k
  = Views.groupFold init f (Views.entriesWith key k es).
Proof. by rewrite get_foldl_groupStep. Qed.

Lemma groupFold_from_Some {V : Type} (init : UsageEntry.t -> V)
    (f : UsageEntry.t -> V -> V) (l : list UsageEntry.t) (v : V) :
  is_Some (foldl (fun o e => Some (f e (default (init e) o))) (Some v) l).
Proof.
  revert v. induction l as [|e l IH]; intros v; simpl; [by eexists | apply IH].
Qed.

Lemma group_keys {V : Type} (key : UsageEntry.t -> string)
    (init : UsageEntry.t -> V) (f : UsageEntry.t -> V -> V)
    (es : list UsageEntry.t) (k : string) :
  k ∈ JsMap.keys (foldl (Views.groupStep key init f) [] es)
  <-> exists e, e ∈ es /\ key e = k.
Proof.
  rewrite elem_of_keys_get, get_group. unfold Views.groupFold.
  destruct (Views.entriesWith key k es) as [|e l] eqn:He.
  - simpl. split; [by intros [? ?]|]. intros (e & Hin & Hk).
    by destruct (proj1 (entriesWith_nil key k es) He e Hin).
  - split.
    + intros _. exists e. apply elem_of_entriesWith. rewrite He. left.
    + intros _. simpl. apply groupFold_from_Some.
Qed.

(** ** The rows of [byModel] *)

Lemma modelMap_foldl (es : list UsageEntry.t) (acc : Acc.t) :
  Acc.modelMap (foldl aggregateStep acc es)
  = foldl (Views.groupStep UsageEntry.model Views.modelInit addToModel)
      (Acc.modelMap acc) es.
Proof.
  revert acc. induction es as [|e es IH]; intros acc; simpl; [done|].
  by rewrite IH.
Qed.

Lemma modelSums_snoc (es : list UsageEntry.t) (e : UsageEntry.t)
    (v : ModelUsage.t) :
  Views.modelSums es v -> Views.modelSums (es ++ [e]) (addToModel e v).
Proof.
  intros (Hc & Ht & Hi & Ho & Hcc & Hcr). unfold Views.modelSums.
  rewrite !fmap_app, !sumZ_app, sumQ_app. simpl.
  repeat split; [rewrite Hc; ring | lia..].
Qed.

Lemma modelFold_from (es es0 : list UsageEntry.t) (v0 : ModelUsage.t) :
  Views.modelSums es0 v0 ->
  exists v,
    foldl (fun o e => Some (addToModel e (default (Views.modelInit e) o)))
      (Some v0) es = Some v /\
    Views.modelSums (es0 ++ es) v /\
    ModelUsage.model v = ModelUsage.model v0 /\
    ModelUsage.sessionCount v = ModelUsage.sessionCount v0.
Proof.
  revert es0 v0. induction es as [|e es IH]; intros es0 v0 Hs; simpl.
  - exists v0. by rewrite app_nil_r.
  - destruct (IH (es0 ++ [e]) (addToModel e v0) (modelSums_snoc _ _ _ Hs))
      as (v & Hv & Hsums & Hm & Hsc).
    exists v. by rewrite <- app_assoc in Hsums.
Qed.

Lemma modelSums_init (e : UsageEntry.t) : Views.modelSums [] (Views.modelInit e).
Proof. repeat split; reflexivity. Qed.

Lemma groupFold_model (e : UsageEntry.t) (es : list UsageEntry.t) :
  exists v,
    Views.groupFold Views.modelInit addToModel (e :: es) = Some v /\
    Views.modelSums (e :: es) v /\
    ModelUsage.model v = UsageEntry.model e /\
    ModelUsage.sessionCount v = 0%nat.
Proof.
  unfold Views.groupFold. simpl.
  destruct (modelFold_from es [e] (addToModel e (Views.modelInit e)))
    as (v & Hv & Hsums & Hm & Hsc).
  { apply (modelSums_snoc [] e). apply modelSums_init. }
  by exists v.
Qed.

Section MapUpdateFacts.
Context {V : Type}.
Implicit Types (m : list (string * V)) (k : string) (v : V).

Lemma get_update m k k' (g : V -> V) :
  JsMap.get (JsMap.update m k g) k'
  = if String.eqb k k' then g <$> JsMap.get m k' else JsMap.get m k'.
Proof.
  unfold JsMap.update. destruct (JsMap.get m k) as [v|] eqn:Hget.
  - destruct (String.eqb_spec k k') as [<-|Hne].
    + by rewrite get_set_eq, Hget.
    + by apply get_set_ne.
  - destruct (String.eqb_spec k k') as [<-|Hne]; [by rewrite Hget | done].
Qed.

(** The values of a map whose objects carry their key. *)
Lemma values_keys m (label : V -> string) :
  NoDup (JsMap.keys m) ->
  (forall k v, JsMap.get m k = Some v -> label v = k) ->
  label <$> JsMap.values m = JsMap.keys m.
Proof.
  induction m as [|[k v] m IH]; simpl; [done|].
  intros [Hk Hnd]%NoDup_cons Hlabel. f_equal.
  - apply Hlabel. by rewrite String.eqb_refl.
  - apply IH; [done|]. intros k' v' Hget. apply Hlabel.
    destruct (String.eqb_spec k k') as [<-|Hne]; [|done].
    exfalso. apply Hk. apply elem_of_keys_get. by rewrite Hget.
Qed.
End MapUpdateFacts.

Lemma sessionsFold_from (es : list UsageEntry.t) (S0 : gset string) :
  foldl (fun o e => Some (default ∅ o ∪ {[ UsageEntry.sessionId e ]}))
    (Some S0) es
  = Some (S0 ∪ Views.sessionsOf es).
Proof.
  clear laws collator.
  revert S0. induction es as [|e es IH]; intros S0; simpl.
  - f_equal. unfold Views.sessionsOf. set_solver.
  - rewrite IH. f_equal. unfold Views.sessionsOf. set_solver.
Qed.

Lemma modelSessions_get (es : list UsageEntry.t) (k : string) :
  JsMap.get (foldl modelSessionsStep [] es) k
  = match Views.entriesWith UsageEntry.model k es with
    | [] => None
    | es' => Some (Views.sessionsOf es')
    end.
Proof.
  clear laws collator.
  change (foldl modelSessionsStep [] es)
    with (foldl (Views.groupStep UsageEntry.model (fun _ => (∅ : gset string))
                   (fun e (s : gset string) => s ∪ {[ UsageEntry.sessionId e ]}))
            [] es).
  rewrite get_group. unfold Views.groupFold.
  destruct (Views.entriesWith UsageEntry.model k es) as [|e l]; [done|].
  simpl. rewrite sessionsFold_from. f_equal. unfold Views.sessionsOf. set_solver.
Qed.

Lemma modelSessions_keys_NoDup (es : list UsageEntry.t) :
  NoDup (JsMap.keys (foldl modelSessionsStep [] es)).
Proof.
  change (foldl modelSessionsStep [] es)
    with (foldl (Views.groupStep UsageEntry.model (fun _ => (∅ : gset string))
                   (fun e (s : gset string) => s ∪ {[ UsageEntry.sessionId e ]}))
            [] es).
  apply keys_groupStep_NoDup. constructor.
Qed.

Lemma countSessions_keys (ms : list (string * gset string))
    (mm : list (string * ModelUsage.t)) :
  JsMap.keys (foldl countSessionsStep mm ms) = JsMap.keys mm.
Proof.
  revert mm. induction ms as [|[k S0] ms IH]; intros mm; simpl; [done|].
  by rewrite IH, keys_update.
Qed.

Lemma countSessions_get (ms : list (string * gset string))
    (mm : list (string * ModelUsage.t)) (k : string) :
  NoDup (JsMap.keys ms) ->
  JsMap.get (foldl countSessionsStep mm ms) k
  = match JsMap.get ms k with
    | Some S0 => setSessionCount (size S0) <$> JsMap.get mm k
    | None => JsMap.get mm k
    end.
Proof.
  revert mm. induction ms as [|[k0 S0] ms IH]; intros mm; simpl; [done|].
  intros [Hk Hnd]%NoDup_cons. rewrite (IH _ Hnd), get_update.
  destruct (String.eqb_spec k0 k) as [<-|Hne]; [|done].
  destruct (JsMap.get ms k0) eqn:Hget; [|done].
  exfalso. apply Hk. apply elem_of_keys_get. by rewrite Hget.
Qed.

Lemma sumZ_entryTokens (es : list UsageEntry.t) :
  Views.sumZ (entryTokens <$> es)
  = Views.sumZ (UsageEntry.inputTokens <$> es) +
    Views.sumZ (UsageEntry.outputTokens <$> es) +
    Views.sumZ (UsageEntry.cacheCreationTokens <$> es) +
    Views.sumZ (UsageEntry.cacheReadTokens <$> es).
Proof.
  induction es as [|e es IH]; [done|]. rewrite !fmap_cons.
  unfold Views.sumZ in *. cbn [foldr]. rewrite IH. unfold entryTokens. lia.
Qed.

(** The map of the models at the end of [aggregateStats]. *)
Lemma finalModelMap_get (entries : list UsageEntry.t) (k : string)
    (row : ModelUsage.t) :
  JsMap.get
    (foldl countSessionsStep (Acc.modelMap (foldl aggregateStep Acc.init entries))
       (foldl modelSessionsStep [] entries)) k = Some row ->
  let es := Views.entriesWith UsageEntry.model k entries in
  es <> [] /\ ModelUsage.model row = k /\ Views.modelSums es row /\
  ModelUsage.sessionCount row = size (Views.sessionsOf es).
Proof.
  rewrite countSessions_get by apply modelSessions_keys_NoDup.
  rewrite modelSessions_get, modelMap_foldl. simpl. rewrite get_group.
  destruct (Views.entriesWith UsageEntry.model k entries) as [|e l] eqn:He;
    [done|].
  destruct (groupFold_model e l) as (v & -> & Hsums & Hm & _).
  assert (Hk : UsageEntry.model e = k).
  { assert (Hin : e ∈ Views.entriesWith UsageEntry.model k entries)
      by (rewrite He; left).
    by apply elem_of_entriesWith in Hin as [_ ?]. }
  simpl. intros [= <-]. cbv zeta. repeat split; try done; try apply Hsums.
  simpl. congruence.
Qed.

Lemma finalModelMap_keys (entries : list UsageEntry.t) :
  let m := foldl countSessionsStep
             (Acc.modelMap (foldl aggregateStep Acc.init entries))
             (foldl modelSessionsStep [] entries) in
  NoDup (JsMap.keys m) /\
  forall k, k ∈ JsMap.keys m <-> exists e, e ∈ entries /\ UsageEntry.model e = k.
Proof.
  cbv zeta. rewrite countSessions_keys, modelMap_foldl. simpl. split.
  - apply keys_groupStep_NoDup. constructor.
  - intros k. apply group_keys.
Qed.

(** The collections of [aggregateStats], for the empty list too. *)
Lemma byModel_eq (entries : list UsageEntry.t) :
  UsageStats.byModel (aggregateStats entries)
  = JsArray.sort modelAfter
      (JsMap.values
         (foldl countSessionsStep
            (Acc.modelMap (foldl aggregateStep Acc.init entries))
            (foldl modelSessionsStep [] entries))).
Proof. by destruct entries. Qed.

Lemma byDate_eq (entries : list UsageEntry.t) :
  UsageStats.byDate (aggregateStats entries)
  = JsArray.sort dateAfter
      (toDailyUsage <$> Acc.dateMap (foldl aggregateStep Acc.init entries)).
Proof. by destruct entries. Qed.

Lemma byProject_eq (entries : list UsageEntry.t) :
  UsageStats.byProject (aggregateStats entries)
  = JsArray.sort projectAfter
      (toProjectUsage <$> Acc.projectMap (foldl aggregateStep Acc.init entries)).
Proof. by destruct entries. Qed.

(** X13. Each row of [byModel] holds the sums over the entries of its
    model: cost, total tokens and the four token counts; its total is
    the sum of its four counts, and its session count is the number of
    distinct sessions among these entries, of which there is at least
    one. *)
Theorem byModel_rows (entries : list UsageEntry.t) (row : ModelUsage.t) :
  row ∈ UsageStats.byModel (aggregateStats entries) ->
  let es := Views.entriesWith UsageEntry.model (ModelUsage.model row) entries in
  es <> [] /\
  Views.modelSums es row /\
  ModelUsage.totalTokens row
  = ModelUsage.inputTokens row + ModelUsage.outputTokens row +
    ModelUsage.cacheCreationTokens row + ModelUsage.cacheReadTokens row /\
  ModelUsage.sessionCount row = size (Views.sessionsOf es).
Proof.
  rewrite byModel_eq, elem_of_sort.
  destruct (finalModelMap_keys entries) as [Hnd _].
  rewrite (elem_of_values_get _ _ Hnd). intros [k Hget].
  apply finalModelMap_get in Hget as (Hne & Hm & Hsums & Hsc).
  rewrite Hm. cbv zeta. repeat split; try done; try apply Hsums.
  destruct Hsums as (_ & -> & -> & -> & -> & ->). apply sumZ_entryTokens.
Qed.

Example byModel_rows_ex :
  (fun row => (ModelUsage.model row, ModelUsage.totalTokens row,
               ModelUsage.sessionCount row))
    <$> UsageStats.byModel (aggregateStats Samples.entries3)
  = [("claude-sonnet-4-5", 150, 1%nat); ("claude-opus-4-5", 38, 2%nat)].
Proof. vm_compute. reflexivity. Qed.

(** X14. [byModel] has exactly one row for each distinct model of the
    entries: no model has two rows, and a model has a row if and only if
    some entry uses it. *)
Theorem byModel_one_row_per_model (entries : list UsageEntry.t) :
  NoDup (ModelUsage.model <$> UsageStats.byModel (aggregateStats entries)) /\
  forall model : string,
    model ∈ (ModelUsage.model <$> UsageStats.byModel (aggregateStats entries))
    <-> exists e, e ∈ entries /\ UsageEntry.model e = model.
Proof.
  rewrite byModel_eq.
  destruct (finalModelMap_keys entries) as [Hnd Hkeys].
  set (m := foldl countSessionsStep _ _) in *.
  assert (Hperm : ModelUsage.model <$> JsArray.sort modelAfter (JsMap.values m)
                  ≡ₚ JsMap.keys m).
  { rewrite sort_Permutation, (values_keys m ModelUsage.model Hnd); [done|].
    intros k v Hget. by apply finalModelMap_get in Hget as (_ & ? & _). }
  split.
  - by rewrite Hperm.
  - intros model. rewrite Hperm. apply Hkeys.
Qed.

Example byModel_one_row_per_model_ex :
  ModelUsage.model <$> UsageStats.byModel (aggregateStats
    (Samples.entries3 ++ Samples.entries3))
  = ["claude-sonnet-4-5"; "claude-opus-4-5"].
Proof. vm_compute. reflexivity. Qed.

(** ** Insertion-ordered sets *)

Lemma existsb_eqb_elem (x : string) (s : list string) :
  existsb (String.eqb x) s = true <-> x ∈ s.
Proof.
  rewrite existsb_exists, list_elem_of_In. split.
  - by intros (y & Hin & ->%String.eqb_eq).
  - intros Hin. exists x. by rewrite String.eqb_refl.
Qed.

Lemma elem_of_JsSet_add (s : list string) (x y : string) :
  y ∈ JsSet.add s x <-> y ∈ s \/ y = x.
Proof.
  unfold JsSet.add. destruct (existsb (String.eqb x) s) eqn:He.
  - apply existsb_eqb_elem in He. split; [by left|]. by intros [?| ->].
  - rewrite elem_of_app, list_elem_of_singleton. done.
Qed.

Lemma NoDup_JsSet_add (s : list string) (x : string) :
  NoDup s -> NoDup (JsSet.add s x).
Proof.
  intros Hnd. unfold JsSet.add. destruct (existsb (String.eqb x) s) eqn:He; [done|].
  apply NoDup_app. split; [done|]. split; [|apply NoDup_singleton].
  intros y Hy ->%list_elem_of_singleton.
  apply existsb_eqb_elem in Hy. congruence.
Qed.

(** ** The rows of [byDate] *)

Lemma dateMap_foldl (es : list UsageEntry.t) (acc : Acc.t) :
  Acc.dateMap (foldl aggregateStep acc es)
  = foldl (Views.groupStep Views.dateOf Views.dateInit addToDate)
      (Acc.dateMap acc) es.
Proof.
  revert acc. induction es as [|e es IH]; intros acc; simpl; [done|].
  by rewrite IH.
Qed.

Lemma dateSums_snoc (es : list UsageEntry.t) (e : UsageEntry.t)
    (v : DateStats.t) :
  Views.dateSums es v -> Views.dateSums (es ++ [e]) (addToDate e v).
Proof.
  intros (Hc & Ht & Hnd & Hm). unfold Views.dateSums.
  rewrite !fmap_app, sumZ_app, sumQ_app. simpl.
  split; [rewrite Hc; ring|]. split; [lia|].
  split; [by apply NoDup_JsSet_add|].
  intros model. rewrite elem_of_JsSet_add, Hm. split.
  - intros [(e' & Hin & Hmodel)| ->].
    + exists e'. split; [|done]. apply elem_of_app. by left.
    + exists e. split; [|done]. apply elem_of_app. right. apply list_elem_of_singleton. done.
  - intros (e' & [Hin| ->%list_elem_of_singleton]%elem_of_app & Hmodel).
    + left. by exists e'.
    + by right.
Qed.

Lemma dateFold_from (es es0 : list UsageEntry.t) (v0 : DateStats.t) :
  Views.dateSums es0 v0 ->
  exists v,
    foldl (fun o e => Some (addToDate e (default (Views.dateInit e) o)))
      (Some v0) es = Some v /\
    Views.dateSums (es0 ++ es) v.
Proof.
  revert es0 v0. induction es as [|e es IH]; intros es0 v0 Hs; simpl.
  - exists v0. by rewrite app_nil_r.
  - destruct (IH (es0 ++ [e]) (addToDate e v0) (dateSums_snoc _ _ _ Hs))
      as (v & Hv & Hsums).
    exists v. by rewrite <- app_assoc in Hsums.
Qed.

Lemma dateSums_init (e : UsageEntry.t) : Views.dateSums [] (Views.dateInit e).
Proof.
  repeat split; try reflexivity; simpl.
  - constructor.
  - by intros ?%not_elem_of_nil.
  - by intros (e' & ?%not_elem_of_nil & _).
Qed.

Lemma groupFold_date (e : UsageEntry.t) (es : list UsageEntry.t) :
  exists v,
    Views.groupFold Views.dateInit addToDate (e :: es) = Some v /\
    Views.dateSums (e :: es) v.
Proof.
  unfold Views.groupFold. simpl.
  destruct (dateFold_from es [e] (addToDate e (Views.dateInit e)))
    as (v & Hv & Hsums).
  { apply (dateSums_snoc [] e). apply dateSums_init. }
  by exists v.
Qed.

Lemma dateMap_get (entries : list UsageEntry.t) (k : string) (v : DateStats.t) :
  JsMap.get (Acc.dateMap (foldl aggregateStep Acc.init entries)) k = Some v ->
  let es := Views.entriesWith Views.dateOf k entries in
  es <> [] /\ Views.dateSums es v.
Proof.
  rewrite dateMap_foldl. simpl. rewrite get_group.
  destruct (Views.entriesWith Views.dateOf k entries) as [|e l] eqn:He; [done|].
  destruct (groupFold_date e l) as (v' & -> & Hsums). by intros [= <-].
Qed.

Lemma elem_of_fmap_map_get {V W : Type} (m : list (string * V))
    (g : string * V -> W) (w : W) :
  NoDup (JsMap.keys m) ->
  w ∈ g <$> m <-> exists k v, JsMap.get m k = Some v /\ w = g (k, v).
Proof.
  intros Hnd. rewrite list_elem_of_fmap. split.
  - intros ([k v] & -> & Hin). exists k, v. split; [|done]. by apply elem_of_map_get.
  - intros (k & v & Hget & ->). exists (k, v). split; [done|]. by apply elem_of_map_get.
Qed.

(** X15. Each row of [byDate] holds the cost and the tokens of the entries
    of its day, of which there is at least one, and lists the models of
    these entries, each once; the day of an entry is its timestamp up to
    the first "T". *)
Theorem byDate_rows (entries : list UsageEntry.t) (row : DailyUsage.t) :
  row ∈ UsageStats.byDate (aggregateStats entries) ->
  let es := Views.entriesWith Views.dateOf (DailyUsage.date row) entries in
  es <> [] /\
  (DailyUsage.totalCost row == Views.sumQ (UsageEntry.cost <$> es))%Q /\
  DailyUsage.totalTokens row = Views.sumZ (entryTokens <$> es) /\
  NoDup (DailyUsage.modelsUsed row) /\
  forall model : string,
    model ∈ DailyUsage.modelsUsed row
    <-> exists e, e ∈ es /\ UsageEntry.model e = model.
Proof.
  rewrite byDate_eq, elem_of_sort.
  rewrite elem_of_fmap_map_get
    by (apply dateMap_keys_NoDup; constructor).
  intros (k & v & Hget & ->). simpl.
  apply dateMap_get in Hget as (Hne & Hsums). by split.
Qed.

(** ** The rows of [byProject] *)

Lemma projectMap_foldl (es : list UsageEntry.t) (acc : Acc.t) :
  Acc.projectMap (foldl aggregateStep acc es)
  = foldl (Views.groupStep UsageEntry.projectPath Views.projectInit addToProject)
      (Acc.projectMap acc) es.
Proof.
  revert acc. induction es as [|e es IH]; intros acc; simpl; [done|].
  by rewrite IH.
Qed.

Lemma ltb_true_strLe (a b : string) : ltb a b = true -> strLe a b.
Proof. unfold ltb, strLe, localeCompare. by destruct (String.compare a b). Qed.

Lemma ltb_false_strLe (a b : string) : ltb a b = false -> strLe b a.
Proof.
  unfold ltb, strLe, localeCompare. rewrite (String.compare_antisym a b).
  by destruct (String.compare b a).
Qed.

Lemma projectSums_first (e : UsageEntry.t) :
  Views.projectSums [e] (addToProject e (Views.projectInit e)).
Proof.
  unfold Views.projectSums, Views.sessionsOf. simpl.
  assert (Hlast : (if ltb (UsageEntry.timestamp e) (UsageEntry.timestamp e)
                   then UsageEntry.timestamp e else UsageEntry.timestamp e)
                  = UsageEntry.timestamp e) by by destruct (ltb _ _).
  rewrite Hlast. split; [ring|]. split; [lia|]. split; [set_solver|]. split.
  - exists e. split; [left | done].
  - intros e' ->%list_elem_of_singleton. apply strLe_refl.
Qed.

Lemma projectSums_snoc (es : list UsageEntry.t) (e : UsageEntry.t)
    (v : ProjectStats.t) :
  Views.projectSums es v -> Views.projectSums (es ++ [e]) (addToProject e v).
Proof.
  clear laws collator.
  intros (Hc & Ht & Hs & (e0 & Hin0 & Hts0) & Hmax). unfold Views.projectSums.
  rewrite !fmap_app, sumZ_app, sumQ_app. simpl.
  split; [rewrite Hc; ring|]. split; [lia|].
  split; [rewrite Hs; unfold Views.sessionsOf; rewrite fmap_app; set_solver|].
  destruct (ltb (ProjectStats.lastUsed v) (UsageEntry.timestamp e)) eqn:Hlt.
  - split.
    + exists e. split; [|done]. apply elem_of_app. right. apply list_elem_of_singleton. done.
    + intros e' [Hin| ->%list_elem_of_singleton]%elem_of_app; [|apply strLe_refl].
      eapply strLe_trans; [by apply Hmax|]. by apply ltb_true_strLe.
  - split.
    + exists e0. split; [|done]. apply elem_of_app. by left.
    + intros e' [Hin| ->%list_elem_of_singleton]%elem_of_app; [by apply Hmax|].
      by apply ltb_false_strLe.
Qed.

Lemma projectFold_from (es es0 : list UsageEntry.t) (v0 : ProjectStats.t) :
  Views.projectSums es0 v0 ->
  exists v,
    foldl (fun o e => Some (addToProject e (default (Views.projectInit e) o)))
      (Some v0) es = Some v /\
    Views.projectSums (es0 ++ es) v /\
    ProjectStats.projectName v = ProjectStats.projectName v0.
Proof.
  revert es0 v0. induction es as [|e es IH]; intros es0 v0 Hs; simpl.
  - exists v0. by rewrite app_nil_r.
  - destruct (IH (es0 ++ [e]) (addToProject e v0) (projectSums_snoc _ _ _ Hs))
      as (v & Hv & Hsums & Hn).
    exists v. by rewrite <- app_assoc in Hsums.
Qed.

Lemma projectMap_get (entries : list UsageEntry.t) (k : string)
    (v : ProjectStats.t) :
  JsMap.get (Acc.projectMap (foldl aggregateStep Acc.init entries)) k = Some v ->
  let es := Views.entriesWith UsageEntry.projectPath k entries in
  es <> [] /\ Views.projectSums es v /\
  ProjectStats.projectName v = getProjectName k.
Proof.
  rewrite projectMap_foldl. simpl. rewrite get_group.
  destruct (Views.entriesWith UsageEntry.projectPath k entries) as [|e l] eqn:He;
    [done|].
  assert (Hk : UsageEntry.projectPath e = k).
  { assert (Hin : e ∈ Views.entriesWith UsageEntry.projectPath k entries)
      by (rewrite He; left).
    by apply elem_of_entriesWith in Hin as [_ ?]. }
  unfold Views.groupFold. simpl.
  destruct (projectFold_from l [e] (addToProject e (Views.projectInit e))
              (projectSums_first e)) as (v' & -> & Hsums & Hn).
  intros [= <-]. cbv zeta. repeat split; try done; try apply Hsums.
  rewrite Hn. simpl. by rewrite Hk.
Qed.

Lemma projectMap_keys_NoDup (entries : list UsageEntry.t) :
  NoDup (JsMap.keys (Acc.projectMap (foldl aggregateStep Acc.init entries))).
Proof. rewrite projectMap_foldl. apply keys_groupStep_NoDup. constructor. Qed.

(** X16. Each row of [byProject] holds the cost and the tokens of the
    entries of its project path, of which there is at least one, the
    number of their distinct sessions, the name that [getProjectName]
    gives the path, and as [lastUsed] the latest of their timestamps in
    the order of the strings. *)
Theorem byProject_rows (entries : list UsageEntry.t) (row : ProjectUsage.t) :
  row ∈ UsageStats.byProject (aggregateStats entries) ->
  let es := Views.entriesWith UsageEntry.projectPath
              (ProjectUsage.projectPath row) entries in
  es <> [] /\
  (ProjectUsage.totalCost row == Views.sumQ (UsageEntry.cost <$> es))%Q /\
  ProjectUsage.totalTokens row = Views.sumZ (entryTokens <$> es) /\
  ProjectUsage.sessionCount row = size (Views.sessionsOf es) /\
  ProjectUsage.projectName row = getProjectName (ProjectUsage.projectPath row) /\
  (exists e, e ∈ es /\ UsageEntry.timestamp e = ProjectUsage.lastUsed row) /\
  (forall e, e ∈ es ->
     strLe (UsageEntry.timestamp e) (ProjectUsage.lastUsed row)).
Proof.
  rewrite byProject_eq, elem_of_sort.
  rewrite elem_of_fmap_map_get by apply projectMap_keys_NoDup.
  intros (k & v & Hget & ->). simpl.
  apply projectMap_get in Hget as (Hne & (Hc & Ht & Hs & Hex & Hmax) & Hn).
  repeat split; try done. by rewrite Hs.
Qed.

Lemma toProjectUsage_paths (m : list (string * ProjectStats.t)) :
  ProjectUsage.projectPath <$> (toProjectUsage <$> m) = JsMap.keys m.
Proof.
  unfold JsMap.keys. induction m as [|[k v] m IH]; simpl; [done|].
  f_equal. exact IH.
Qed.

(** X17. [byDate] has exactly one row for each distinct day of the
    entries and [byProject] exactly one row for each distinct project
    path. *)
Theorem byDate_byProject_one_row_per_key (entries : list UsageEntry.t) :
  let stats := aggregateStats entries in
  (NoDup (DailyUsage.date <$> UsageStats.byDate stats) /\
   forall d : string,
     d ∈ (DailyUsage.date <$> UsageStats.byDate stats)
     <-> exists e, e ∈ entries /\ Views.dateOf e = d) /\
  (NoDup (ProjectUsage.projectPath <$> UsageStats.byProject stats) /\
   forall p : string,
     p ∈ (ProjectUsage.projectPath <$> UsageStats.byProject stats)
     <-> exists e, e ∈ entries /\ UsageEntry.projectPath e = p).
Proof.
  cbv zeta. rewrite byDate_eq, byProject_eq.
  assert (Hd : DailyUsage.date <$>
            JsArray.sort dateAfter
              (toDailyUsage <$> Acc.dateMap (foldl aggregateStep Acc.init entries))
          ≡ₚ JsMap.keys (Acc.dateMap (foldl aggregateStep Acc.init entries))).
  { by rewrite sort_Permutation, toDailyUsage_dates. }
  assert (Hp : ProjectUsage.projectPath <$>
            JsArray.sort projectAfter
              (toProjectUsage <$> Acc.projectMap (foldl aggregateStep Acc.init entries))
          ≡ₚ JsMap.keys (Acc.projectMap (foldl aggregateStep Acc.init entries))).
  { by rewrite sort_Permutation, toProjectUsage_paths. }
  split; split.
  - rewrite Hd. apply dateMap_keys_NoDup. constructor.
  - intros d. rewrite Hd, dateMap_foldl. apply group_keys.
  - rewrite Hp. apply projectMap_keys_NoDup.
  - intros p. rewrite Hp, projectMap_foldl. apply group_keys.
Qed.

(** ** Conservation of the totals *)

Lemma sumZ_cons (x : Z) (l : list Z) : Views.sumZ (x :: l) = x + Views.sumZ l.
Proof. reflexivity. Qed.

Lemma sumQ_cons (x : Q) (l : list Q) : Views.sumQ (x :: l) = (x + Views.sumQ l)%Q.
Proof. reflexivity. Qed.

Lemma values_cons {V : Type} (k : string) (v : V) (m : list (string * V)) :
  JsMap.values ((k, v) :: m) = v :: JsMap.values m.
Proof. reflexivity. Qed.

Lemma sumQ_set_new {V : Type} (amount : V -> Q) (m : list (string * V))
    (k : string) (v : V) :
  JsMap.get m k = None ->
  (Views.sumQ (amount <$> JsMap.values (JsMap.set m k v))
   == Views.sumQ (amount <$> JsMap.values m) + amount v)%Q.
Proof.
  induction m as [|[k' v'] m IH]; cbn [JsMap.set JsMap.get].
  - intros _. cbn. ring.
  - destruct (String.eqb_spec k' k) as [->|Hne]; [done|].
    intros Hget. rewrite !values_cons, !fmap_cons, !sumQ_cons, (IH Hget). ring.
Qed.

Lemma sumQ_set_old {V : Type} (amount : V -> Q) (m : list (string * V))
    (k : string) (v v' : V) :
  JsMap.get m k = Some v ->
  (Views.sumQ (amount <$> JsMap.values (JsMap.set m k v'))
   == Views.sumQ (amount <$> JsMap.values m) - amount v + amount v')%Q.
Proof.
  induction m as [|[k0 v0] m IH]; cbn [JsMap.set JsMap.get]; [done|].
  destruct (String.eqb_spec k0 k) as [->|Hne].
  - intros [= ->]. rewrite !values_cons, !fmap_cons, !sumQ_cons. ring.
  - intros Hget. rewrite !values_cons, !fmap_cons, !sumQ_cons, (IH Hget). ring.
Qed.

Lemma sumQ_upsert {V : Type} (amount : V -> Q) (m : list (string * V))
    (k : string) (init : V) (f : V -> V) (delta : Q) :
  (amount init == 0)%Q ->
  (forall v, amount (f v) == amount v + delta)%Q ->
  (Views.sumQ (amount <$> JsMap.values (Views.upsert m k init f))
   == Views.sumQ (amount <$> JsMap.values m) + delta)%Q.
Proof.
  intros Hinit Hf. unfold Views.upsert, JsMap.update, JsMap.has.
  destruct (JsMap.get m k) as [v|] eqn:Hget.
  - rewrite Hget, (sumQ_set_old amount m k v (f v) Hget), Hf. ring.
  - rewrite get_set_eq.
    rewrite (sumQ_set_old amount (JsMap.set m k init) k init) by apply get_set_eq.
    rewrite (sumQ_set_new amount m k init Hget), Hf, Hinit. ring.
Qed.

Lemma sumQ_update_same {V : Type} (amount : V -> Q) (m : list (string * V))
    (k : string) (f : V -> V) :
  (forall v, amount (f v) == amount v)%Q ->
  (Views.sumQ (amount <$> JsMap.values (JsMap.update m k f))
   == Views.sumQ (amount <$> JsMap.values m))%Q.
Proof.
  intros Hf. unfold JsMap.update. destruct (JsMap.get m k) as [v|] eqn:Hget;
    [|reflexivity].
  rewrite (sumQ_set_old amount m k v (f v) Hget), Hf. ring.
Qed.

Lemma sumQ_foldl_groupStep {V : Type} (amount : V -> Q)
    (key : UsageEntry.t -> string) (init : UsageEntry.t -> V)
    (f : UsageEntry.t -> V -> V) (delta : UsageEntry.t -> Q)
    (es : list UsageEntry.t) (m : list (string * V)) :
  (forall e, amount (init e) == 0)%Q ->
  (forall e v, amount (f e v) == amount v + delta e)%Q ->
  (Views.sumQ (amount <$> JsMap.values (foldl (Views.groupStep key init f) m es))
   == Views.sumQ (amount <$> JsMap.values m) + Views.sumQ (delta <$> es))%Q.
Proof.
  intros Hinit Hf. revert m. induction es as [|e es IH]; intros m.
  - cbn [foldl]. rewrite fmap_nil. change (Views.sumQ []) with 0%Q. ring.
  - cbn [foldl]. rewrite IH. unfold Views.groupStep.
    rewrite (sumQ_upsert amount m (key e) (init e) (f e) (delta e))
      by (first [apply Hinit | apply Hf]).
    rewrite fmap_cons, sumQ_cons. ring.
Qed.

Lemma sumQ_inject_Z (l : list Z) :
  (Views.sumQ (inject_Z <$> l) == inject_Z (Views.sumZ l))%Q.
Proof.
  induction l as [|x l IH]; [reflexivity|].
  rewrite fmap_cons, sumQ_cons, IH. cbn [Views.sumZ foldr].
  by rewrite inject_Z_plus.
Qed.

Lemma sumZ_of_sumQ (a b : list Z) :
  (Views.sumQ (inject_Z <$> a) == Views.sumQ (inject_Z <$> b))%Q ->
  Views.sumZ a = Views.sumZ b.
Proof.
  rewrite !sumQ_inject_Z. intros H. by apply inject_Z_injective.
Qed.

Lemma sumQ_countSessions (amount : ModelUsage.t -> Q)
    (ms : list (string * gset string)) (mm : list (string * ModelUsage.t)) :
  (forall c v, amount (setSessionCount c v) == amount v)%Q ->
  (Views.sumQ (amount <$> JsMap.values (foldl countSessionsStep mm ms))
   == Views.sumQ (amount <$> JsMap.values mm))%Q.
Proof.
  intros Hf. revert mm. induction ms as [|[k S0] ms IH]; intros mm; [reflexivity|].
  cbn [foldl]. rewrite IH. unfold countSessionsStep.
  apply sumQ_update_same. intros v. apply Hf.
Qed.

Lemma sumCost_sumQ (es : list UsageEntry.t) :
  Spec.sumCost es = Views.sumQ (UsageEntry.cost <$> es).
Proof. induction es as [|e es IH]; [done|]. simpl. by rewrite IH. Qed.

Lemma sumTokens_sumZ (es : list UsageEntry.t) :
  Spec.sumTokens es = Views.sumZ (entryTokens <$> es).
Proof.
  induction es as [|e es IH]; [done|]. simpl. rewrite IH. reflexivity.
Qed.

Lemma totals_of_stats (entries : list UsageEntry.t) :
  (UsageStats.totalCost (aggregateStats entries)
   == Views.sumQ (UsageEntry.cost <$> entries))%Q /\
  UsageStats.totalTokens (aggregateStats entries)
  = Views.sumZ (entryTokens <$> entries).
Proof.
  rewrite <- sumCost_sumQ, <- sumTokens_sumZ.
  destruct entries as [|e entries]; [split; reflexivity|].
  unfold aggregateStats. set (l := e :: entries).
  cbn [UsageStats.totalCost UsageStats.totalTokens]. split.
  - rewrite foldl_totalCost. cbn. ring.
  - rewrite (foldl_totalTokens l Acc.init). reflexivity.
Qed.

(** The cost and the tokens summed over the rows of a collection. *)
Lemma byModel_sums (entries : list UsageEntry.t) :
  (Views.sumQ (ModelUsage.totalCost <$> UsageStats.byModel (aggregateStats entries))
   == Views.sumQ (UsageEntry.cost <$> entries))%Q /\
  Views.sumZ (ModelUsage.totalTokens <$> UsageStats.byModel (aggregateStats entries))
  = Views.sumZ (entryTokens <$> entries).
Proof.
  rewrite byModel_eq. split.
  - rewrite (sumQ_Permutation _ _ (fmap_Permutation _ _ _ (sort_Permutation _ _))).
    rewrite sumQ_countSessions by reflexivity.
    rewrite modelMap_foldl.
    rewrite (sumQ_foldl_groupStep ModelUsage.totalCost _ _ _ UsageEntry.cost);
      [cbn; ring | reflexivity | reflexivity].
  - rewrite (sumZ_Permutation _ _ (fmap_Permutation _ _ _ (sort_Permutation _ _))).
    apply sumZ_of_sumQ. rewrite <- !list_fmap_compose.
    rewrite (sumQ_countSessions (inject_Z ∘ ModelUsage.totalTokens)) by reflexivity.
    rewrite modelMap_foldl.
    rewrite (sumQ_foldl_groupStep (inject_Z ∘ ModelUsage.totalTokens) _ _ _
               (inject_Z ∘ entryTokens));
      [cbn; ring | reflexivity | intros e v; cbn; by rewrite inject_Z_plus].
Qed.

Lemma toDailyUsage_amounts (m : list (string * DateStats.t)) :
  DailyUsage.totalCost <$> (toDailyUsage <$> m) = DateStats.cost <$> JsMap.values m /\
  DailyUsage.totalTokens <$> (toDailyUsage <$> m) = DateStats.tokens <$> JsMap.values m.
Proof.
  induction m as [|[k v] m [IH1 IH2]]; [done|].
  rewrite values_cons, !fmap_cons, IH1, IH2. done.
Qed.

Lemma toProjectUsage_amounts (m : list (string * ProjectStats.t)) :
  ProjectUsage.totalCost <$> (toProjectUsage <$> m)
  = ProjectStats.cost <$> JsMap.values m /\
  ProjectUsage.totalTokens <$> (toProjectUsage <$> m)
  = ProjectStats.tokens <$> JsMap.values m.
Proof.
  induction m as [|[k v] m [IH1 IH2]]; [done|].
  rewrite values_cons, !fmap_cons, IH1, IH2. done.
Qed.

Lemma byDate_sums (entries : list UsageEntry.t) :
  (Views.sumQ (DailyUsage.totalCost <$> UsageStats.byDate (aggregateStats entries))
   == Views.sumQ (UsageEntry.cost <$> entries))%Q /\
  Views.sumZ (DailyUsage.totalTokens <$> UsageStats.byDate (aggregateStats entries))
  = Views.sumZ (entryTokens <$> entries).
Proof.
  rewrite byDate_eq.
  destruct (toDailyUsage_amounts (Acc.dateMap (foldl aggregateStep Acc.init entries)))
    as [Hc Ht].
  split.
  - rewrite (sumQ_Permutation _ _ (fmap_Permutation _ _ _ (sort_Permutation _ _))).
    rewrite Hc, dateMap_foldl.
    rewrite (sumQ_foldl_groupStep DateStats.cost _ _ _ UsageEntry.cost);
      [cbn; ring | reflexivity | reflexivity].
  - rewrite (sumZ_Permutation _ _ (fmap_Permutation _ _ _ (sort_Permutation _ _))).
    rewrite Ht. apply sumZ_of_sumQ. rewrite <- !list_fmap_compose.
    rewrite dateMap_foldl.
    rewrite (sumQ_foldl_groupStep (inject_Z ∘ DateStats.tokens) _ _ _
               (inject_Z ∘ entryTokens));
      [cbn; ring | reflexivity | intros e v; cbn; by rewrite inject_Z_plus].
Qed.

Lemma byProject_sums (entries : list UsageEntry.t) :
  (Views.sumQ (ProjectUsage.totalCost <$> UsageStats.byProject (aggregateStats entries))
   == Views.sumQ (UsageEntry.cost <$> entries))%Q /\
  Views.sumZ (ProjectUsage.totalTokens <$> UsageStats.byProject (aggregateStats entries))
  = Views.sumZ (entryTokens <$> entries).
Proof.
  rewrite byProject_eq.
  destruct (toProjectUsage_amounts
              (Acc.projectMap (foldl aggregateStep Acc.init entries))) as [Hc Ht].
  split.
  - rewrite (sumQ_Permutation _ _ (fmap_Permutation _ _ _ (sort_Permutation _ _))).
    rewrite Hc, projectMap_foldl.
    rewrite (sumQ_foldl_groupStep ProjectStats.cost _ _ _ UsageEntry.cost);
      [cbn; ring | reflexivity | reflexivity].
  - rewrite (sumZ_Permutation _ _ (fmap_Permutation _ _ _ (sort_Permutation _ _))).
    rewrite Ht. apply sumZ_of_sumQ. rewrite <- !list_fmap_compose.
    rewrite projectMap_foldl.
    rewrite (sumQ_foldl_groupStep (inject_Z ∘ ProjectStats.tokens) _ _ _
               (inject_Z ∘ entryTokens));
      [cbn; ring | reflexivity | intros e v; cbn; by rewrite inject_Z_plus].
Qed.

(** X18. Grouping loses and invents no tokens: the token totals of the
    rows of [byModel] add up to [totalTokens], and so do those of the
    rows of [byDate] and of the rows of [byProject]. *)
Theorem collections_add_up_to_totals (entries : list UsageEntry.t) :
  let stats := aggregateStats entries in
  Views.sumZ (ModelUsage.totalTokens <$> UsageStats.byModel stats)
  = UsageStats.totalTokens stats /\
  Views.sumZ (DailyUsage.totalTokens <$> UsageStats.byDate stats)
  = UsageStats.totalTokens stats /\
  Views.sumZ (ProjectUsage.totalTokens <$> UsageStats.byProject stats)
  = UsageStats.totalTokens stats.
Proof.
  cbv zeta. destruct (totals_of_stats entries) as [_ Ht].
  destruct (byModel_sums entries) as [_ Hm].
  destruct (byDate_sums entries) as [_ Hd].
  destruct (byProject_sums entries) as [_ Hp].
  rewrite Ht. repeat split; assumption.
Qed.

(** ** The global totals *)

Lemma foldl_aggregateStep_totals (es : list UsageEntry.t) (acc : Acc.t) :
  let acc' := foldl aggregateStep acc es in
  Acc.totalInputTokens acc'
  = Acc.totalInputTokens acc + Views.sumZ (UsageEntry.inputTokens <$> es) /\
  Acc.totalOutputTokens acc'
  = Acc.totalOutputTokens acc + Views.sumZ (UsageEntry.outputTokens <$> es) /\
  Acc.totalCacheCreationTokens acc'
  = Acc.totalCacheCreationTokens acc +
    Views.sumZ (UsageEntry.cacheCreationTokens <$> es) /\
  Acc.totalCacheReadTokens acc'
  = Acc.totalCacheReadTokens acc + Views.sumZ (UsageEntry.cacheReadTokens <$> es) /\
  Acc.sessions acc' = Acc.sessions acc ∪ Views.sessionsOf es.
Proof.
  cbv zeta. revert acc. induction es as [|e es IH]; intros acc.
  - cbn [foldl]. unfold Views.sessionsOf. rewrite !fmap_nil, list_to_set_nil.
    change (Views.sumZ []) with 0.
    repeat split; try lia. by rewrite (right_id_L ∅ (∪)).
  - cbn [foldl]. destruct (IH (aggregateStep acc e)) as (H1 & H2 & H3 & H4 & H5).
    rewrite H1, H2, H3, H4, H5. rewrite !fmap_cons, !sumZ_cons.
    unfold Views.sessionsOf. rewrite fmap_cons, list_to_set_cons.
    cbn [aggregateStep Acc.totalInputTokens Acc.totalOutputTokens
         Acc.totalCacheCreationTokens Acc.totalCacheReadTokens Acc.sessions].
    repeat split; try lia. by rewrite (assoc_L (∪)).
Qed.

Lemma sessionsOf_empty (es : list UsageEntry.t) :
  Views.sessionsOf es = ∅ <-> es = [].
Proof.
  clear laws collator.
  split; [|by intros ->].
  destruct es as [|e es]; [done|]. unfold Views.sessionsOf.
  rewrite fmap_cons, list_to_set_cons. set_solver.
Qed.

Lemma aggregateStats_fields (entries : list UsageEntry.t) :
  UsageStats.totalInputTokens (aggregateStats entries)
  = Views.sumZ (UsageEntry.inputTokens <$> entries) /\
  UsageStats.totalOutputTokens (aggregateStats entries)
  = Views.sumZ (UsageEntry.outputTokens <$> entries) /\
  UsageStats.totalCacheCreationTokens (aggregateStats entries)
  = Views.sumZ (UsageEntry.cacheCreationTokens <$> entries) /\
  UsageStats.totalCacheReadTokens (aggregateStats entries)
  = Views.sumZ (UsageEntry.cacheReadTokens <$> entries) /\
  UsageStats.totalSessions (aggregateStats entries)
  = size (Views.sessionsOf entries).
Proof.
  destruct entries as [|e entries]; [by repeat split|].
  unfold aggregateStats. set (l := e :: entries).
  destruct (foldl_aggregateStep_totals l Acc.init) as (H1 & H2 & H3 & H4 & H5).
  cbn [UsageStats.totalInputTokens UsageStats.totalOutputTokens
       UsageStats.totalCacheCreationTokens UsageStats.totalCacheReadTokens
       UsageStats.totalSessions].
  rewrite H1, H2, H3, H4, H5. cbn [Acc.init Acc.totalInputTokens
    Acc.totalOutputTokens Acc.totalCacheCreationTokens Acc.totalCacheReadTokens
    Acc.sessions].
  repeat split; try lia. by rewrite (left_id_L ∅ (∪)).
Qed.

(** X19. The four token totals of [aggregateStats] are the sums of the
    corresponding counts of the entries, and [totalSessions] is the
    number of distinct session ids: it is 0 exactly for the empty list,
    the case in which the dashboard shows its empty state. *)
Theorem aggregateStats_components (entries : list UsageEntry.t) :
  let stats := aggregateStats entries in
  UsageStats.totalInputTokens stats
  = Views.sumZ (UsageEntry.inputTokens <$> entries) /\
  UsageStats.totalOutputTokens stats
  = Views.sumZ (UsageEntry.outputTokens <$> entries) /\
  UsageStats.totalCacheCreationTokens stats
  = Views.sumZ (UsageEntry.cacheCreationTokens <$> entries) /\
  UsageStats.totalCacheReadTokens stats
  = Views.sumZ (UsageEntry.cacheReadTokens <$> entries) /\
  UsageStats.totalSessions stats = size (Views.sessionsOf entries) /\
  (UsageStats.totalSessions stats = 0%nat <-> entries = []).
Proof.
  cbv zeta.
  destruct (aggregateStats_fields entries) as (H1 & H2 & H3 & H4 & H5).
  repeat split; try done.
  - rewrite H5. intros Hs. apply size_empty_inv in Hs.
    apply sessionsOf_empty. by apply leibniz_equiv.
  - by intros ->.
Qed.

(** ** The rows of [getSessionStats] *)

Lemma sessionSums_init (first : string) :
  Views.sessionSums first [] (Views.sessionAccInit first).
Proof.
  unfold Views.sessionSums, Views.sessionAccInit. cbn.
  split; [by repeat split|]. split.
  - split; [constructor|]. intros model. split; [by intros ?%not_elem_of_nil|].
    by intros (e & ?%not_elem_of_nil & _).
  - split; (split; [by left|]); (split; [apply strLe_refl|]);
      by intros e ?%not_elem_of_nil.
Qed.

Lemma sessionSums_snoc (first : string) (es : list UsageEntry.t)
    (e : UsageEntry.t) (acc : SessionAcc.t) :
  Views.sessionSums first es acc ->
  Views.sessionSums first (es ++ [e]) (sessionStep acc e).
Proof.
  intros ((Hc & Hi & Ho & Hcc & Hcr) & (Hnd & Hm) &
          (Hs1 & Hs2 & Hs3) & (He1 & He2 & He3)).
  assert (Hlast : e ∈ es ++ [e])
    by (apply elem_of_app; right; by apply list_elem_of_singleton).
  unfold Views.sessionSums.
  rewrite !fmap_app, !sumZ_app, sumQ_app. cbn.
  split; [split; [rewrite Hc; ring | repeat split; lia]|].
  split; [|split].
  - split; [by apply NoDup_JsSet_add|].
    intros model. rewrite elem_of_JsSet_add, Hm. split.
    + intros [(e' & Hin & Hmodel)| ->].
      * exists e'. split; [|done]. apply elem_of_app. by left.
      * by exists e.
    + intros (e' & [Hin| ->%list_elem_of_singleton]%elem_of_app & Hmodel).
      * left. by exists e'.
      * by right.
  - destruct (ltb (UsageEntry.timestamp e) (SessionAcc.startTime acc)) eqn:Hlt.
    + apply ltb_true_strLe in Hlt. split; [right; by exists e|]. split.
      * by eapply strLe_trans.
      * intros e' [Hin| ->%list_elem_of_singleton]%elem_of_app;
          [|apply strLe_refl].
        eapply strLe_trans; [exact Hlt | by apply Hs3].
    + apply ltb_false_strLe in Hlt. split; [|split; [done|]].
      * destruct Hs1 as [?|(e' & Hin & Hts)]; [by left|].
        right. exists e'. split; [|done]. apply elem_of_app. by left.
      * intros e' [Hin| ->%list_elem_of_singleton]%elem_of_app;
          [by apply Hs3 | done].
  - destruct (ltb (SessionAcc.endTime acc) (UsageEntry.timestamp e)) eqn:Hlt.
    + apply ltb_true_strLe in Hlt. split; [right; by exists e|]. split.
      * by eapply strLe_trans.
      * intros e' [Hin| ->%list_elem_of_singleton]%elem_of_app;
          [|apply strLe_refl].
        eapply strLe_trans; [by apply He3 | exact Hlt].
    + apply ltb_false_strLe in Hlt. split; [|split; [done|]].
      * destruct He1 as [?|(e' & Hin & Hts)]; [by left|].
        right. exists e'. split; [|done]. apply elem_of_app. by left.
      * intros e' [Hin| ->%list_elem_of_singleton]%elem_of_app;
          [by apply He3 | done].
Qed.

Lemma sessionFold_from (first : string) (es es0 : list UsageEntry.t)
    (acc : SessionAcc.t) :
  Views.sessionSums first es0 acc ->
  Views.sessionSums first (es0 ++ es) (foldl sessionStep acc es).
Proof.
  revert es0 acc. induction es as [|e es IH]; intros es0 acc Hs; simpl.
  - by rewrite app_nil_r.
  - specialize (IH (es0 ++ [e]) (sessionStep acc e) (sessionSums_snoc _ _ _ _ Hs)).
    by rewrite <- app_assoc in IH.
Qed.

(** The row that the loop over [sessionMap] builds for a session with
    at least one entry. *)
Lemma toSessionUsage_row (k : string) (data : SessionData.t)
    (e0 : UsageEntry.t) (l : list UsageEntry.t) :
  SessionData.entries data = e0 :: l ->
  let row := toSessionUsage (k, data) in
  SessionUsage.sessionId row = k /\
  SessionUsage.projectPath row = SessionData.projectPath data /\
  SessionUsage.projectName row = getProjectName (SessionData.projectPath data) /\
  Views.sessionRow (e0 :: l) row.
Proof.
  intros He. unfold toSessionUsage. rewrite He. cbv zeta.
  pose proof (sessionFold_from (UsageEntry.timestamp e0) (e0 :: l) []
                (Views.sessionAccInit (UsageEntry.timestamp e0))
                (sessionSums_init _)) as Hs.
  rewrite app_nil_l in Hs. unfold Views.sessionAccInit in Hs.
  set (acc := foldl sessionStep _ (e0 :: l)) in *.
  destruct Hs as ((Hc & Hi & Ho & Hcc & Hcr) & Hmodels &
                  (Hs1 & Hs2 & Hs3) & (He1 & He2 & He3)).
  cbn [SessionUsage.sessionId SessionUsage.projectPath SessionUsage.projectName].
  split; [done|]. split; [done|]. split; [done|].
  unfold Views.sessionRow.
  cbn [SessionUsage.totalCost SessionUsage.totalTokens SessionUsage.inputTokens
       SessionUsage.outputTokens SessionUsage.cacheCreationTokens
       SessionUsage.cacheReadTokens SessionUsage.modelsUsed
       SessionUsage.startTime SessionUsage.endTime].
  assert (Hin0 : e0 ∈ e0 :: l) by left.
  split; [|split; [exact Hmodels|split]].
  - repeat split; try done.
    rewrite sumZ_entryTokens, Hi, Ho, Hcc, Hcr. done.
  - split; [|exact Hs3].
    destruct Hs1 as [->|?]; [by exists e0 | done].
  - split; [|exact He3].
    destruct He1 as [->|?]; [by exists e0 | done].
Qed.

Lemma sessionPush_fold (l : list UsageEntry.t) (d : SessionData.t) :
  foldl (fun o e => Some (Views.sessionPush e (default (Views.sessionInit e) o)))
    (Some d) l
  = Some {| SessionData.projectPath := SessionData.projectPath d;
            SessionData.entries := SessionData.entries d ++ l |}.
Proof.
  revert d. induction l as [|e l IH]; intros d; simpl.
  - rewrite app_nil_r. by destruct d.
  - rewrite IH. simpl. by rewrite <- app_assoc.
Qed.

Lemma sessionMap_eq (entries : list UsageEntry.t) :
  foldl sessionMapStep [] entries
  = foldl (Views.groupStep UsageEntry.sessionId Views.sessionInit Views.sessionPush)
      [] entries.
Proof. reflexivity. Qed.

Lemma sessionMap_get (entries : list UsageEntry.t) (k : string) (d : SessionData.t) :
  JsMap.get (foldl sessionMapStep [] entries) k = Some d ->
  exists e0 l,
    Views.entriesWith UsageEntry.sessionId k entries = e0 :: l /\
    d = {| SessionData.projectPath := UsageEntry.projectPath e0;
           SessionData.entries := e0 :: l |}.
Proof.
  rewrite sessionMap_eq, get_group. unfold Views.groupFold.
  destruct (Views.entriesWith UsageEntry.sessionId k entries) as [|e0 l]; [done|].
  simpl. rewrite sessionPush_fold. simpl. intros [= <-]. by exists e0, l.
Qed.

Lemma sessionMap_keys (entries : list UsageEntry.t) :
  NoDup (JsMap.keys (foldl sessionMapStep [] entries)) /\
  forall k, k ∈ JsMap.keys (foldl sessionMapStep [] entries)
            <-> exists e, e ∈ entries /\ UsageEntry.sessionId e = k.
Proof.
  rewrite sessionMap_eq. split.
  - apply keys_groupStep_NoDup. constructor.
  - intros k. apply group_keys.
Qed.

(** X20. Each row of [getSessionStats] describes the entries of its
    session, of which there is at least one: the project path is that of
    the first of them and the project name the one [getProjectName] gives
    it, the cost and the token counts are their sums, the models are
    theirs, each once, and the start and the end are the earliest and the
    latest of their timestamps in the order of the strings. *)
Theorem getSessionStats_rows (entries : list UsageEntry.t) (row : SessionUsage.t) :
  row ∈ getSessionStats entries ->
  let es := Views.entriesWith UsageEntry.sessionId
              (SessionUsage.sessionId row) entries in
  (exists e0 l, es = e0 :: l /\
     SessionUsage.projectPath row = UsageEntry.projectPath e0) /\
  SessionUsage.projectName row = getProjectName (SessionUsage.projectPath row) /\
  Views.sessionRow es row /\
  strLe (SessionUsage.startTime row) (SessionUsage.endTime row).
Proof.
  unfold getSessionStats. rewrite elem_of_sort.
  destruct (sessionMap_keys entries) as [Hnd _].
  rewrite (elem_of_fmap_map_get _ _ _ Hnd). intros (k & d & Hget & ->).
  apply sessionMap_get in Hget as (e0 & l & Hes & ->).
  destruct (toSessionUsage_row k
              {| SessionData.projectPath := UsageEntry.projectPath e0;
                 SessionData.entries := e0 :: l |} e0 l eq_refl)
    as (Hid & Hpath & Hname & Hrow).
  cbv zeta in *. rewrite Hid, Hes.
  split; [by exists e0, l|]. split; [reflexivity|].
  split; [exact Hrow|].
  destruct Hrow as (_ & _ & (_ & Hmin) & ((e & Hin & <-) & _)). by apply Hmin.
Qed.

Lemma toSessionUsage_ids (m : list (string * SessionData.t)) :
  SessionUsage.sessionId <$> (toSessionUsage <$> m) = JsMap.keys m.
Proof.
  unfold JsMap.keys. induction m as [|[k v] m IH]; [done|].
  rewrite !fmap_cons, IH. done.
Qed.

Lemma toSessionUsage_tokens (k : string) (d : SessionData.t) :
  SessionUsage.totalTokens (toSessionUsage (k, d))
  = Views.sumZ (entryTokens <$> SessionData.entries d).
Proof.
  unfold toSessionUsage. cbn [SessionUsage.totalTokens].
  set (first := match SessionData.entries d with
                | [] => "" | entry :: _ => UsageEntry.timestamp entry end).
  pose proof (sessionFold_from first (SessionData.entries d) []
                (Views.sessionAccInit first) (sessionSums_init _)) as Hs.
  rewrite app_nil_l in Hs. destruct Hs as ((_ & H1 & H2 & H3 & H4) & _).
  unfold Views.sessionAccInit in *. rewrite H1, H2, H3, H4.
  by rewrite sumZ_entryTokens.
Qed.

Lemma sumQ_fmap_ext {A : Type} (f g : A -> Q) (l : list A) :
  (forall x, f x == g x)%Q -> (Views.sumQ (f <$> l) == Views.sumQ (g <$> l))%Q.
Proof.
  intros Hfg. induction l as [|x l IH]; [reflexivity|].
  rewrite !fmap_cons, !sumQ_cons, IH, Hfg. reflexivity.
Qed.

Lemma sessionsOf_keys (entries : list UsageEntry.t) :
  Views.sessionsOf entries
  = list_to_set (JsMap.keys (foldl sessionMapStep [] entries)).
Proof.
  destruct (sessionMap_keys entries) as [_ Hkeys].
  apply set_eq. intros k. unfold Views.sessionsOf.
  rewrite !elem_of_list_to_set, Hkeys, list_elem_of_fmap.
  split; intros (e & H1 & H2); exists e; done.
Qed.

(** X21. [getSessionStats] has exactly one row for each distinct session
    id of the entries, as many rows as [aggregateStats] counts sessions,
    and the tokens of the rows add up to the tokens of all entries. *)
Theorem getSessionStats_one_row_per_session (entries : list UsageEntry.t) :
  let rows := getSessionStats entries in
  NoDup (SessionUsage.sessionId <$> rows) /\
  (forall k : string,
     k ∈ (SessionUsage.sessionId <$> rows)
     <-> exists e, e ∈ entries /\ UsageEntry.sessionId e = k) /\
  List.length rows = UsageStats.totalSessions (aggregateStats entries) /\
  Views.sumZ (SessionUsage.totalTokens <$> rows)
  = UsageStats.totalTokens (aggregateStats entries).
Proof.
  cbv zeta. unfold getSessionStats.
  destruct (sessionMap_keys entries) as [Hnd Hkeys].
  set (m := foldl sessionMapStep [] entries) in *.
  assert (Hperm : SessionUsage.sessionId <$>
                    JsArray.sort sessionAfter (toSessionUsage <$> m)
                  ≡ₚ JsMap.keys m).
  { by rewrite sort_Permutation, toSessionUsage_ids. }
  split; [by rewrite Hperm|]. split; [intros k; by rewrite Hperm|]. split.
  - destruct (aggregateStats_fields entries) as (_ & _ & _ & _ & ->).
    rewrite sessionsOf_keys. fold m. rewrite size_list_to_set by exact Hnd.
    rewrite <- (length_fmap SessionUsage.sessionId). by rewrite Hperm.
  - destruct (totals_of_stats entries) as [_ ->].
    rewrite (sumZ_Permutation _ _ (fmap_Permutation _ _ _ (sort_Permutation _ _))).
    apply sumZ_of_sumQ. rewrite <- !list_fmap_compose.
    rewrite (sumQ_fmap_ext
               (inject_Z ∘ SessionUsage.totalTokens ∘ toSessionUsage)
               ((fun d => inject_Z (Views.sumZ (entryTokens <$> SessionData.entries d)))
                  ∘ snd))
      by (intros [k d]; unfold compose; cbn [snd];
          by rewrite toSessionUsage_tokens).
    rewrite (list_fmap_compose snd
               (fun d => inject_Z (Views.sumZ (entryTokens <$> SessionData.entries d)))).
    change (snd <$> m) with (JsMap.values m). unfold m. rewrite sessionMap_eq.
    rewrite (sumQ_foldl_groupStep
               (fun d => inject_Z (Views.sumZ (entryTokens <$> SessionData.entries d)))
               _ _ _ (inject_Z ∘ entryTokens)).
    + change (JsMap.values []) with (@nil SessionData.t).
      rewrite fmap_nil. change (Views.sumQ []) with 0%Q. ring.
    + reflexivity.
    + intros e d. cbn [Views.sessionPush SessionData.entries].
      rewrite fmap_app, sumZ_app, fmap_cons, fmap_nil, sumZ_cons.
      change (Views.sumZ []) with 0. cbn. rewrite <- inject_Z_plus.
      by rewrite Z.add_0_r.
Qed.

Example getSessionStats_ex :
  (fun row => (SessionUsage.sessionId row, SessionUsage.startTime row,
               SessionUsage.endTime row))
    <$> getSessionStats (collator := Samples.codeUnits) Samples.entries3
  = [ ("s2", "2025-01-03T08:00:00Z", "2025-01-03T08:00:00Z");
      ("s1", "2025-01-01T08:00:00Z", "2025-01-02T08:00:00Z") ] /\
  getSessionStats (collator := Samples.codeUnits) [] = [].
Proof. vm_compute. split; reflexivity. Qed.

(** ** The directory walk *)

Lemma findInDirent_dir (dir name : string) (children : list Dirent) :
  findInDirent dir (DirEnt name children) = findJsonlFiles name children.
Proof.
  unfold findJsonlFiles. cbn [findInDirent].
  induction children as [|c rest IH]; [done|].
  cbn [flat_map]. by rewrite IH.
Qed.

Lemma elem_of_findJsonlFiles (dir : string) (entries : list Dirent) (f : LogFile) :
  f ∈ findJsonlFiles dir entries
  <-> exists d, d ∈ entries /\ f ∈ findInDirent dir d.
Proof.
  unfold findJsonlFiles. rewrite list_elem_of_In, in_flat_map.
  split; intros (d & H1 & H2); exists d.
  - by rewrite !list_elem_of_In.
  - by rewrite <- !list_elem_of_In.
Qed.

Lemma holds_mono (dir : string) (entries entries' : list Dirent)
    (parent name : string) (text : option (list Line)) :
  (forall d, d ∈ entries -> d ∈ entries') ->
  Views.holds dir entries parent name text ->
  Views.holds dir entries' parent name text.
Proof.
  intros Hsub H. destruct H as [dir entries name text Hin
                               |dir entries sub children parent name text Hin H].
  - apply Views.holds_here. by apply Hsub.
  - eapply Views.holds_below; [apply Hsub, Hin|exact H].
Qed.

Lemma findInDirent_holds (d : Dirent) :
  forall (dir : string) (f : LogFile),
    f ∈ findInDirent dir d ->
    exists name, endsWith name ".jsonl" = true /\
                 Views.holds dir [d] (dirName f) name (content f).
Proof.
  induction d as [name text|name children IH|name] using Views.Dirent_tree_ind;
    intros dir f Hf.
  - cbn [findInDirent] in Hf. destruct (endsWith name ".jsonl") eqn:Hn.
    + apply list_elem_of_singleton in Hf as ->. exists name. split; [done|].
      apply Views.holds_here. apply list_elem_of_here.
    + by apply elem_of_nil in Hf.
  - rewrite findInDirent_dir in Hf.
    apply elem_of_findJsonlFiles in Hf as (c & Hc & Hf).
    rewrite Forall_forall in IH.
    destruct (IH c Hc name f Hf) as (n & Hn & Hh).
    exists n. split; [done|].
    eapply Views.holds_below; [apply list_elem_of_here|].
    eapply holds_mono; [|exact Hh].
    intros d Hd. by apply list_elem_of_singleton in Hd as ->.
  - by apply elem_of_nil in Hf.
Qed.

Lemma holds_found (dir : string) (entries : list Dirent) (parent name : string)
    (text : option (list Line)) :
  Views.holds dir entries parent name text ->
  endsWith name ".jsonl" = true ->
  {| dirName := parent; content := text |} ∈ findJsonlFiles dir entries.
Proof.
  intros H Hn.
  induction H as [dir entries name text Hin
                 |dir entries sub children parent name text Hin H IH];
    apply elem_of_findJsonlFiles.
  - exists (FileEnt name text). split; [done|].
    cbn [findInDirent]. rewrite Hn. apply list_elem_of_here.
  - exists (DirEnt sub children). split; [done|].
    rewrite findInDirent_dir. by apply IH.
Qed.

Lemma elem_of_collectFiles (folders : list Dirent) (file : LogFile) (proj : string) :
  (file, proj) ∈ collectFiles folders
  <-> exists children, DirEnt proj children ∈ folders /\
                       file ∈ findJsonlFiles proj children.
Proof.
  induction folders as [|d rest IH].
  - cbn [collectFiles]. split; [by intros ?%elem_of_nil|].
    by intros (? & ?%elem_of_nil & _).
  - assert (Hrest : (file, proj) ∈ collectFiles rest ->
              exists children, DirEnt proj children ∈ d :: rest /\
                               file ∈ findJsonlFiles proj children).
    { intros (ch & H1 & H2)%IH. exists ch. split; [by apply list_elem_of_further|done]. }
    destruct d as [name text|name children|name]; cbn [collectFiles].
    + split; [exact Hrest|]. intros (ch & H1 & H2). apply IH. exists ch.
      apply elem_of_cons in H1 as [H1|H1]; [discriminate|done].
    + rewrite elem_of_app, list_elem_of_fmap. split.
      * intros [(f & Heq & Hf)|H]; [|by apply Hrest].
        injection Heq as -> ->. exists children. split; [apply list_elem_of_here|done].
      * intros (ch & H1 & H2). apply elem_of_cons in H1 as [H1|H1].
        -- injection H1 as -> ->. left. by exists file.
        -- right. apply IH. by exists ch.
    + split; [exact Hrest|]. intros (ch & H1 & H2). apply IH. exists ch.
      apply elem_of_cons in H1 as [H1|H1]; [discriminate|done].
Qed.

(** X22. The directory walk finds exactly the regular files whose name
    ends in [.jsonl], at any depth: a file is found in [findJsonlFiles]
    iff the tree holds it, and it is recorded with the name of the
    directory that directly contains it (the session id of its entries).
    [getAllUsageEntries] collects, for every directory [proj] of the
    projects directory, the files found under it, paired with [proj];
    entries of the projects directory that are not directories give
    nothing. *)
Theorem findJsonlFiles_finds (dir : string) (entries : list Dirent) :
  (forall f : LogFile,
     f ∈ findJsonlFiles dir entries
     <-> exists name, endsWith name ".jsonl" = true /\
                      Views.holds dir entries (dirName f) name (content f)) /\
  (forall (file : LogFile) (proj : string),
     (file, proj) ∈ collectFiles entries
     <-> exists children name,
           DirEnt proj children ∈ entries /\
           endsWith name ".jsonl" = true /\
           Views.holds proj children (dirName file) name (content file)).
Proof.
  assert (H : forall dir entries (f : LogFile),
     f ∈ findJsonlFiles dir entries
     <-> exists name, endsWith name ".jsonl" = true /\
                      Views.holds dir entries (dirName f) name (content f)).
  { clear. intros dir entries f. split.
    - intros (d & Hd & Hf)%elem_of_findJsonlFiles.
      destruct (findInDirent_holds d dir f Hf) as (n & Hn & Hh).
      exists n. split; [done|]. eapply holds_mono; [|exact Hh].
      intros d' Hd'. by apply list_elem_of_singleton in Hd' as ->.
    - intros (n & Hn & Hh). destruct f as [p c]. by eapply holds_found. }
  split; [apply H|]. intros file proj. rewrite elem_of_collectFiles. split.
  - intros (ch & H1 & (n & Hn & Hh)%H). by exists ch, n.
  - intros (ch & n & H1 & Hn & Hh). exists ch. split; [done|].
    apply H. by exists n.
Qed.

Example findJsonlFiles_ex :
  findJsonlFiles "proj"
    [ FileEnt "a.jsonl" None; FileEnt "notes.txt" None; OtherEnt "link.jsonl";
      DirEnt "sub" [ FileEnt "b.jsonl" (Some []); DirEnt "x.jsonl" [] ] ]
  = [ {| dirName := "proj"; content := None |};
      {| dirName := "sub"; content := Some [] |} ].
Proof. reflexivity. Qed.

(** ** Project names *)

Lemma split_nonempty (sep : ascii) (x : string) : split sep x <> [].
Proof.
  destruct x as [|c rest]; cbn [split]; [done|].
  destruct (Ascii.eqb c sep); [done|]. by destruct (split sep rest).
Qed.

Lemma split_app_sep (sep : ascii) (a b : string) :
  split sep (a +:+ String sep b) = split sep a ++ split sep b.
Proof.
  induction a as [|c a IH].
  - change ("" +:+ String sep b) with (String sep b). cbn [split].
    by rewrite Ascii.eqb_refl.
  - rewrite append_cons. cbn [split]. destruct (Ascii.eqb c sep); rewrite IH.
    + done.
    + pose proof (split_nonempty sep a) as Hne.
      destruct (split sep a) as [|p ps]; [done|]. done.
Qed.

Lemma split_no_sep (sep : ascii) (x : string) :
  includes x (String sep "") = false -> split sep x = [x].
Proof.
  induction x as [|c x IH]; [done|].
  cbn [includes]. intros [Hp Hrest]%orb_false_elim.
  cbn [split]. destruct (Ascii.eqb_spec c sep) as [->|Hne].
  - cbn [String.prefix] in Hp. destruct (ascii_dec sep sep); [|done].
    by destruct x.
  - by rewrite (IH Hrest).
Qed.

Lemma last_filter_snoc (parts : list string) (name : string) :
  nonEmpty name = true ->
  last (List.filter nonEmpty (parts ++ [name])) = Some name.
Proof.
  intros Hn. rewrite List.filter_app. cbn [List.filter]. rewrite Hn.
  apply last_snoc.
Qed.

(** X23. [getProjectName] gives the last component of a path: for a
    non-empty [name] without a slash, the name of [dir/name] is [name],
    whatever [dir] is, also with a trailing slash, and a [name] that is
    no path at all (the encoded folder name used when no record has a
    [cwd]) is its own project name. *)
Theorem getProjectName_last_component (dir name : string) :
  nonEmpty name = true ->
  includes name "/" = false ->
  getProjectName (Views.joinPath dir name) = name /\
  getProjectName (Views.joinPath dir name +:+ "/") = name /\
  getProjectName name = name.
Proof.
  intros Hn Hs. unfold getProjectName, Views.joinPath.
  change ("/" +:+ name) with (String "/" name).
  split; [|split].
  - rewrite split_app_sep, (split_no_sep _ _ Hs), last_filter_snoc by done.
    by rewrite Hn.
  - rewrite append_assoc. change (String "/" name +:+ "/") with (String "/" (name +:+ "/")).
    rewrite split_app_sep.
    change "/" with (String "/" "") at 2. rewrite split_app_sep.
    rewrite (split_no_sep _ _ Hs). cbn [split].
    rewrite !List.filter_app. cbn [List.filter]. rewrite Hn.
    change (nonEmpty "") with false. rewrite !app_nil_r, last_snoc.
    by rewrite Hn.
  - rewrite (split_no_sep _ _ Hs). cbn [List.filter]. rewrite Hn.
    cbn [last]. by rewrite Hn.
Qed.

Lemma getProjectName_last_component_witness :
  getProjectName (Views.joinPath "/home/user" "proj") = "proj" /\
  getProjectName (Views.joinPath "/home/user" "proj" +:+ "/") = "proj" /\
  getProjectName "proj" = "proj".
Proof.
  apply (getProjectName_last_component "/home/user" "proj"); reflexivity.
Defined.

Lemma last_filter_nonEmpty (parts : list string) (name : string) :
  last (List.filter nonEmpty parts) = Some name -> nonEmpty name = true.
Proof.
  intros Hl. apply last_Some_elem_of in Hl.
  apply list_elem_of_In, List.filter_In in Hl. by destruct Hl.
Qed.

(** X24. The project name of a path is empty only for the empty path:
    when the path has no non-empty component (it is empty or made of
    slashes only), [getProjectName] falls back to the path itself. *)
Theorem getProjectName_empty_iff (projectPath : string) :
  (getProjectName projectPath = "" <-> projectPath = "") /\
  (List.filter nonEmpty (split "/" projectPath) = [] ->
   getProjectName projectPath = projectPath).
Proof.
  unfold getProjectName. split; [split|].
  - destruct (last _) as [name|] eqn:Hl; [|done].
    rewrite (last_filter_nonEmpty _ _ Hl). intros ->.
    by apply last_filter_nonEmpty in Hl.
  - by intros ->.
  - by intros ->.
Qed.

Lemma getProjectName_empty_iff_witness :
  getProjectName "//" = "//".
Proof.
  apply (proj2 (getProjectName_empty_iff "//")). reflexivity.
Defined.

(** ** The dashboard *)

Lemma sorted_take_drop {A : Type} (R : A -> A -> Prop) (l : list A) (n : nat) :
  StronglySorted R l ->
  forall x y, x ∈ take n l -> y ∈ drop n l -> R x y.
Proof.
  intros Hs. revert n. induction Hs as [|a l Hs IH Hall]; intros n x y Hx Hy.
  - rewrite take_nil in Hx. by apply elem_of_nil in Hx.
  - destruct n as [|n]; [by apply elem_of_nil in Hx|].
    rewrite firstn_cons in Hx. rewrite skipn_cons in Hy.
    apply elem_of_cons in Hx as [->|Hx]; [|by eapply IH].
    rewrite List.Forall_forall in Hall. apply Hall, list_elem_of_In.
    rewrite <- (take_drop n l). apply elem_of_app. by right.
Qed.

Lemma elem_of_drop_of_not_take {A : Type} (l : list A) (n : nat) (y : A) :
  y ∈ l -> y ∉ take n l -> y ∈ drop n l.
Proof.
  intros Hy Hn. rewrite <- (take_drop n l) in Hy.
  apply elem_of_app in Hy as [Hy|Hy]; [by destruct Hn|done].
Qed.

Lemma StronglySorted_drop {A : Type} (R : A -> A -> Prop) (l : list A) (n : nat) :
  StronglySorted R l -> StronglySorted R (drop n l).
Proof.
  intros Hs. revert n. induction Hs as [|a l Hs IH Hall]; intros n.
  - rewrite drop_nil. constructor.
  - destruct n as [|n]; [by constructor|]. rewrite skipn_cons. apply IH.
Qed.

Lemma StronglySorted_by_key {A K : Type} (R : K -> K -> Prop) (key : A -> K)
    (l : list A) :
  StronglySorted (fun a b => R (key a) (key b)) l -> StronglySorted R (key <$> l).
Proof.
  induction 1 as [|a l Hs IH Hall]; [constructor|].
  rewrite fmap_cons. constructor; [exact IH|].
  rewrite List.Forall_forall in Hall. apply List.Forall_forall.
  intros k Hk. apply list_elem_of_In, list_elem_of_fmap in Hk as (b & -> & Hb).
  by apply Hall, list_elem_of_In.
Qed.

Lemma chartData_dates (stats : UsageStats.t) :
  Dashboard.date <$> Dashboard.chartData stats
  = DailyUsage.date <$> Dashboard.sliceLast 30 (UsageStats.byDate stats).
Proof.
  unfold Dashboard.chartData. rewrite <- list_fmap_compose. done.
Qed.

(** X25. What the dashboard shows of the statistics: the project table
    has the first ten rows of [byProject], and no project left out costs
    more than a project shown; the session table has the first twenty
    sessions, and no session left out sorts later by start than a session
    shown; the chart has the last thirty days of [byDate], each once, in
    ascending order of date, and no day left out sorts after a day shown.
    The order of the starts and of the dates is that of
    [localeCompare]. *)
Theorem dashboard_shows_top_rows (entries : list UsageEntry.t) :
  let stats := aggregateStats entries in
  let sessions := getSessionStats entries in
  (List.length (Dashboard.projectRows stats)
   = Nat.min 10 (List.length (UsageStats.byProject stats)) /\
   forall p q, p ∈ Dashboard.projectRows stats ->
     q ∈ UsageStats.byProject stats -> q ∉ Dashboard.projectRows stats ->
     (ProjectUsage.totalCost q <= ProjectUsage.totalCost p)%Q) /\
  (List.length (Dashboard.sessionRows sessions)
   = Nat.min 20 (List.length sessions) /\
   forall s t, s ∈ Dashboard.sessionRows sessions ->
     t ∈ sessions -> t ∉ Dashboard.sessionRows sessions ->
     collLe (SessionUsage.startTime t) (SessionUsage.startTime s)) /\
  (List.length (Dashboard.chartData stats)
   = Nat.min 30 (List.length (UsageStats.byDate stats)) /\
   StronglySorted collLe (Dashboard.date <$> Dashboard.chartData stats) /\
   NoDup (Dashboard.date <$> Dashboard.chartData stats) /\
   forall c d, c ∈ Dashboard.chartData stats ->
     d ∈ UsageStats.byDate stats ->
     DailyUsage.date d ∉ (Dashboard.date <$> Dashboard.chartData stats) ->
     collLe (DailyUsage.date d) (Dashboard.date c)).
Proof using laws.
  cbv zeta. split; [|split].
  - unfold Dashboard.projectRows, Dashboard.sliceFirst.
    split; [apply length_take|]. intros p q Hp Hq Hnq.
    pose proof (elem_of_drop_of_not_take _ _ _ Hq Hnq) as Hd.
    refine (sorted_take_drop
              (fun a b => (ProjectUsage.totalCost b <= ProjectUsage.totalCost a)%Q)
              _ _ _ p q Hp Hd).
    rewrite byProject_eq. apply byProject_sorted.
  - unfold Dashboard.sessionRows, Dashboard.sliceFirst.
    split; [apply length_take|]. intros s t Hs Ht Hnt.
    pose proof (elem_of_drop_of_not_take _ _ _ Ht Hnt) as Hd.
    refine (sorted_take_drop
              (fun a b => collLe (SessionUsage.startTime b) (SessionUsage.startTime a))
              _ _ _ s t Hs Hd).
    apply sessions_sorted.
  - pose proof (byDate_collLe entries) as Hsorted.
    pose proof (byDate_NoDup entries) as Hnodup.
    set (days := UsageStats.byDate (aggregateStats entries)) in *.
    split; [|split; [|split]].
    + unfold Dashboard.chartData, Dashboard.sliceLast. fold days.
      rewrite length_fmap, length_drop. lia.
    + rewrite chartData_dates. apply StronglySorted_by_key.
      unfold Dashboard.sliceLast. by apply StronglySorted_drop.
    + rewrite chartData_dates. unfold Dashboard.sliceLast. fold days.
      rewrite fmap_drop.
      eapply sublist_NoDup; [exact Hnodup|apply sublist_drop].
    + intros c d Hc Hd Hnd. rewrite chartData_dates in Hnd.
      unfold Dashboard.chartData in Hc. fold days in Hc, Hnd.
      apply list_elem_of_fmap in Hc as (d' & -> & Hd').
      cbn [Dashboard.date]. unfold Dashboard.sliceLast in *.
      apply (sorted_take_drop _ _ (List.length days - 30) Hsorted d d');
        [|exact Hd'].
      rewrite <- (take_drop (List.length days - 30) days) in Hd.
      apply elem_of_app in Hd as [Hd|Hd]; [done|].
      destruct Hnd. apply list_elem_of_fmap. by exists d.
Qed.

Lemma maxOf_ge (xs : list Q) (m : Q) :
  Dashboard.maxOf xs = Some m -> forall x, x ∈ xs -> (x <= m)%Q.
Proof.
  revert m. induction xs as [|a xs IH]; intros m Hm x Hx;
    [by apply elem_of_nil in Hx|].
  cbn [Dashboard.maxOf] in Hm. destruct (Dashboard.maxOf xs) as [m'|] eqn:Hxs.
  - injection Hm as <-. unfold Dashboard.max2.
    destruct (Qle_bool a m') eqn:Hle.
    + apply Qle_bool_iff in Hle.
      apply elem_of_cons in Hx as [->|Hx]; [done|by apply IH].
    + assert (m' < a)%Q as Hlt.
      { apply Qnot_le_lt. intros H%Qle_bool_iff. congruence. }
      apply elem_of_cons in Hx as [->|Hx]; [apply Qle_refl|].
      eapply Qle_trans; [by apply IH|]. by apply Qlt_le_weak.
  - injection Hm as <-. destruct xs as [|b xs].
    + apply list_elem_of_singleton in Hx as ->. apply Qle_refl.
    + cbn [Dashboard.maxOf] in Hxs. by destruct (Dashboard.maxOf xs).
Qed.

Lemma maxOf_elem (xs : list Q) (m : Q) :
  Dashboard.maxOf xs = Some m -> m ∈ xs.
Proof.
  revert m. induction xs as [|a xs IH]; intros m Hm; [done|].
  cbn [Dashboard.maxOf] in Hm. destruct (Dashboard.maxOf xs) as [m'|].
  - injection Hm as <-. unfold Dashboard.max2. destruct (Qle_bool a m').
    + apply list_elem_of_further. by apply IH.
    + apply list_elem_of_here.
  - injection Hm as <-. apply list_elem_of_here.
Qed.

Lemma max2_bounds (h : Q) :
  (h <= 100)%Q -> (2 <= Dashboard.max2 h 2 <= 100)%Q.
Proof.
  intros Hh. unfold Dashboard.max2. destruct (Qle_bool h 2) eqn:Hle.
  - split; [apply Qle_refl|done].
  - split; [|exact Hh]. apply Qlt_le_weak, Qnot_le_lt.
    intros H%Qle_bool_iff. congruence.
Qed.

(** X26. The bar of a day of the chart is between 2 and 100 percent
    high, whatever the costs are (also when every cost is 0), and the
    bar of a day with the highest cost, when that cost is positive, is
    100 percent high. *)
Theorem barHeight_bounds (points : list Dashboard.ChartPoint)
    (d : Dashboard.ChartPoint) :
  d ∈ points ->
  (2 <= Dashboard.barHeight points d <= 100)%Q /\
  ((0 < Dashboard.cost d)%Q ->
   (forall x, x ∈ points -> (Dashboard.cost x <= Dashboard.cost d)%Q) ->
   (Dashboard.barHeight points d == 100)%Q).
Proof.
  intros Hd. unfold Dashboard.barHeight.
  assert (Hcost : Dashboard.cost d ∈ (Dashboard.cost <$> points)).
  { apply list_elem_of_fmap. by exists d. }
  destruct (Dashboard.maxOf (Dashboard.cost <$> points)) as [m|] eqn:Hm.
  - pose proof (maxOf_ge _ _ Hm _ Hcost) as Hle.
    destruct (Qle_bool m 0) eqn:Hpos; cbn [negb].
    + split; [by apply max2_bounds|].
      intros Hd0 _. apply Qle_bool_iff in Hpos.
      exfalso. apply (Qlt_irrefl 0). eapply Qlt_le_trans; [exact Hd0|].
      by eapply Qle_trans.
    + assert (0 < m)%Q as Hm0.
      { apply Qnot_le_lt. intros H%Qle_bool_iff. congruence. }
      assert (Dashboard.cost d / m <= 1)%Q as Hq.
      { apply Qle_shift_div_r; [exact Hm0|]. by rewrite Qmult_1_l. }
      split.
      * apply max2_bounds.
        set (q := (Dashboard.cost d / m)%Q) in *. lra.
      * intros _ Hmax.
        assert (m == Dashboard.cost d)%Q as Heq.
        { apply Qle_antisym; [|exact Hle].
          apply maxOf_elem, list_elem_of_fmap in Hm as (x & -> & Hx).
          by apply Hmax. }
        assert (Dashboard.cost d / m * 100 == 100)%Q as Hh.
        { rewrite <- Heq. field. intros H0. rewrite H0 in Hm0.
          by apply Qlt_irrefl in Hm0. }
        unfold Dashboard.max2.
        destruct (Qle_bool (Dashboard.cost d / m * 100) 2) eqn:Hb; [|exact Hh].
        apply Qle_bool_iff in Hb. rewrite Hh in Hb. by vm_compute in Hb.
  - destruct points as [|p points]; [by apply elem_of_nil in Hd|].
    rewrite fmap_cons in Hm. cbn [Dashboard.maxOf] in Hm.
    by destruct (Dashboard.maxOf (Dashboard.cost <$> points)).
Qed.

Lemma barHeight_bounds_witness :
  let low := {| Dashboard.date := "2025-01-01"; Dashboard.cost := 1 # 100;
                Dashboard.tokens := 10 |} in
  let high := {| Dashboard.date := "2025-01-02"; Dashboard.cost := 5;
                 Dashboard.tokens := 20 |} in
  (2 <= Dashboard.barHeight [low; high] low <= 100)%Q /\
  (Dashboard.barHeight [low; high] high == 100)%Q.
Proof.
  cbv zeta.
  split.
  - apply barHeight_bounds. apply list_elem_of_here.
  - apply barHeight_bounds.
    + apply list_elem_of_further, list_elem_of_here.
    + reflexivity.
    + intros x Hx. apply elem_of_cons in Hx as [->|Hx].
      * by vm_compute.
      * apply list_elem_of_singleton in Hx as ->. apply Qle_refl.
Defined.

End Properties.

(** * The theorems at the collation by code units *)

#[local] Existing Instance Samples.codeUnits.
#[local] Existing Instance codeUnits_laws.

Lemma statistics_sort_orders_witness :
  let stats := aggregateStats Samples.entries3 in
  let sessions := getSessionStats Samples.entries3 in
  StronglySorted
    (fun a b => (ModelUsage.totalCost b <= ModelUsage.totalCost a)%Q)
    (UsageStats.byModel stats) /\
  StronglySorted
    (fun a b => (ProjectUsage.totalCost b <= ProjectUsage.totalCost a)%Q)
    (UsageStats.byProject stats) /\
  StronglySorted
    (fun a b => collLe (DailyUsage.date a) (DailyUsage.date b))
    (UsageStats.byDate stats) /\
  NoDup (DailyUsage.date <$> UsageStats.byDate stats) /\
  StronglySorted
    (fun a b => collLe (SessionUsage.startTime b) (SessionUsage.startTime a))
    sessions /\
  StronglySorted
    (fun a b => strLt (DailyUsage.date a) (DailyUsage.date b))
    (UsageStats.byDate stats) /\
  StronglySorted
    (fun a b => strLe (SessionUsage.startTime b) (SessionUsage.startTime a))
    sessions.
Proof.
  cbv zeta.
  pose proof (statistics_sort_orders Samples.entries3) as H.
  cbv zeta in H.
  destruct H as (H1 & H2 & H3 & H4 & H5 & H6 & H7).
  split; [exact H1|]. split; [exact H2|]. split; [exact H3|].
  split; [exact H4|]. split; [exact H5|]. split.
  - apply H6. reflexivity.
  - apply H7. reflexivity.
Defined.

Lemma byDate_rows_witness :
  let es := Views.entriesWith Views.dateOf "2025-01-02" Samples.entries3 in
  es <> [] /\
  (DailyUsage.totalCost Samples2.jan2Row == Views.sumQ (UsageEntry.cost <$> es))%Q /\
  DailyUsage.totalTokens Samples2.jan2Row = Views.sumZ (entryTokens <$> es) /\
  NoDup (DailyUsage.modelsUsed Samples2.jan2Row) /\
  forall model : string,
    model ∈ DailyUsage.modelsUsed Samples2.jan2Row
    <-> exists e, e ∈ es /\ UsageEntry.model e = model.
Proof.
  apply (byDate_rows Samples.entries3 Samples2.jan2Row).
  vm_compute. apply list_elem_of_In. right. left. reflexivity.
Defined.

Lemma getSessionStats_rows_witness :
  let es := Views.entriesWith UsageEntry.sessionId "s1" Samples.entries3 in
  (exists e0 l, es = e0 :: l /\
     SessionUsage.projectPath Samples2.s1Row = UsageEntry.projectPath e0) /\
  SessionUsage.projectName Samples2.s1Row
  = getProjectName (SessionUsage.projectPath Samples2.s1Row) /\
  Views.sessionRow es Samples2.s1Row /\
  strLe (SessionUsage.startTime Samples2.s1Row) (SessionUsage.endTime Samples2.s1Row).
Proof.
  apply (getSessionStats_rows Samples.entries3 Samples2.s1Row).
  vm_compute. apply list_elem_of_In. right. left. reflexivity.
Defined.

Lemma zero_usage_suppression_witness :
  snd (processLine "s1" "-proj-a"
         {| actualProjectPath := None; processedHashes := ∅ |}
         (Some Samples.rec0)) = None /\
  ~ Spec.zeroEntry Samples.rec1Entry.
Proof.
  split.
  - apply (proj1 zero_usage_suppression). unfold Spec.zeroUsage.
    vm_compute. repeat constructor.
  - apply (proj2 zero_usage_suppression
             (Samples.mkRoot [Some Samples.rec1; Some Samples.rec0])).
    vm_compute. left.
Defined.

Lemma byModel_rows_witness :
  let es := Views.entriesWith UsageEntry.model "claude-opus-4-5" Samples.entries3 in
  es <> [] /\
  Views.modelSums es Samples2.opusRow /\
  ModelUsage.totalTokens Samples2.opusRow
  = ModelUsage.inputTokens Samples2.opusRow + ModelUsage.outputTokens Samples2.opusRow +
    ModelUsage.cacheCreationTokens Samples2.opusRow +
    ModelUsage.cacheReadTokens Samples2.opusRow /\
  ModelUsage.sessionCount Samples2.opusRow = size (Views.sessionsOf es).
Proof.
  apply (byModel_rows Samples.entries3 Samples2.opusRow).
  vm_compute. apply list_elem_of_In. right. left. reflexivity.
Defined.

Lemma byProject_rows_witness :
  let es := Views.entriesWith UsageEntry.projectPath "/proj/a" Samples.entries3 in
  es <> [] /\
  (ProjectUsage.totalCost Samples2.projARow == Views.sumQ (UsageEntry.cost <$> es))%Q /\
  ProjectUsage.totalTokens Samples2.projARow = Views.sumZ (entryTokens <$> es) /\
  ProjectUsage.sessionCount Samples2.projARow = size (Views.sessionsOf es) /\
  ProjectUsage.projectName Samples2.projARow = getProjectName "/proj/a" /\
  (exists e, e ∈ es /\ UsageEntry.timestamp e = ProjectUsage.lastUsed Samples2.projARow) /\
  (forall e, e ∈ es ->
     strLe (UsageEntry.timestamp e) (ProjectUsage.lastUsed Samples2.projARow)).
Proof.
  apply (byProject_rows Samples.entries3 Samples2.projARow).
  vm_compute. apply list_elem_of_In. left. reflexivity.
Defined.

Lemma getAllUsageEntries_sorted_witness :
  StronglySorted
    (fun a b => collLe (UsageEntry.timestamp a) (UsageEntry.timestamp b))
    (getAllUsageEntries (Some Samples2.twoSessions)) /\
  getAllUsageEntries (Some Samples2.twoSessions) ≡ₚ
    fst (parseFiles (processingOrder Samples2.twoSessions) [] ∅).
Proof. exact (getAllUsageEntries_sorted (Some Samples2.twoSessions)). Defined.

Lemma processingOrder_sorted_witness :
  StronglySorted (fun a b => collLe (Views.fileKey a) (Views.fileKey b))
    (processingOrder Samples2.twoSessions) /\
  processingOrder Samples2.twoSessions ≡ₚ collectFiles Samples2.twoSessions.
Proof. exact (processingOrder_sorted Samples2.twoSessions). Defined.

Example processingOrder_ex :
  dirName ∘ fst <$> processingOrder Samples2.twoSessions = ["s2"; "s1"] /\
  UsageEntry.sessionId <$> getAllUsageEntries (Some Samples2.twoSessions)
  = ["s2"; "s1"].
Proof. vm_compute. split; reflexivity. Qed.

Lemma dashboard_shows_top_rows_witness :
  let stats := aggregateStats Samples.entries3 in
  let sessions := getSessionStats Samples.entries3 in
  (List.length (Dashboard.projectRows stats)
   = Nat.min 10 (List.length (UsageStats.byProject stats)) /\
   forall p q, p ∈ Dashboard.projectRows stats ->
     q ∈ UsageStats.byProject stats -> q ∉ Dashboard.projectRows stats ->
     (ProjectUsage.totalCost q <= ProjectUsage.totalCost p)%Q) /\
  (List.length (Dashboard.sessionRows sessions)
   = Nat.min 20 (List.length sessions) /\
   forall s t, s ∈ Dashboard.sessionRows sessions ->
     t ∈ sessions -> t ∉ Dashboard.sessionRows sessions ->
     collLe (SessionUsage.startTime t) (SessionUsage.startTime s)) /\
  (List.length (Dashboard.chartData stats)
   = Nat.min 30 (List.length (UsageStats.byDate stats)) /\
   StronglySorted collLe (Dashboard.date <$> Dashboard.chartData stats) /\
   NoDup (Dashboard.date <$> Dashboard.chartData stats) /\
   forall c d, c ∈ Dashboard.chartData stats ->
     d ∈ UsageStats.byDate stats ->
     DailyUsage.date d ∉ (Dashboard.date <$> Dashboard.chartData stats) ->
     collLe (DailyUsage.date d) (Dashboard.date c)).
Proof. exact (dashboard_shows_top_rows Samples.entries3). Defined.
